(** * jpeg-to-raw-matcher: the RAW index, the matcher, the indexer and the copier

    A shallow embedding of [src/models.py], [src/exceptions.py],
    [src/path_validator.py], [src/file_scanner.py], [src/exif_reader.py],
    [src/indexer.py], [src/matcher.py], [src/copier.py] and
    [src/match_manager.py], followed by the properties of the specification
    that concern them and by further properties of the code.

    Conventions of the embedding:
    - a Python [dict] is an association list in insertion order with unique
      keys; assignment to a present key keeps its position, a new key goes
      to the end, [del] drops the entry;
    - Python [int] is [Z]; [str] is [string], with [lower] and [upper]
      acting on the ASCII letters;
    - a [pathlib.Path] is its string form, absolute and in normal form, and
      never empty ([Path('')] is [Path('.')]);
    - a [datetime] is a naive one: the tuple of its fields, within their
      ranges; [==] on two of them is equality;
    - the file system is a finite map from the paths of the regular files
      to their size and capture time, and a set of directories; faults of
      [mkdir], of [shutil.copy2] and of writing a cache file are part of the
      state;
    - a raised exception is the left summand of [result];
    - a Python [set], whose iteration order is unspecified, and the thread
      pool, whose futures complete in any order, are enumerated through a
      choice sequence ([Py.shuffle]);
    - the entries of the global index file, a JSON object, are listed
      through a choice sequence as well; a global index without entries
      stands for a file that is missing or holds none;
    - what [unlink] raises on a cache file is a parameter ([unlink_fault])
      of the functions that delete;
    - calls to [logging] and to the progress logger are left out: they
      return and change nothing that is modelled. *)

From Stdlib Require Import Ascii String.
From stdpp Require Import gmap strings list fin_maps sorting.

Local Open Scope string_scope.
Local Open Scope list_scope.
Local Open Scope Z_scope.

(** ** Python primitives *)

Module Py.

(** [str.lower] and [str.upper] on ASCII letters. *)
Definition lower_ascii (c : ascii) : ascii :=
  let n := nat_of_ascii c in
  if ((65 <=? n) && (n <=? 90))%nat then ascii_of_nat (n + 32) else c.

Definition upper_ascii (c : ascii) : ascii :=
  let n := nat_of_ascii c in
  if ((97 <=? n) && (n <=? 122))%nat then ascii_of_nat (n - 32) else c.

Fixpoint lower (s : string) : string :=
  match s with
  | EmptyString => EmptyString
  | String c s' => String (lower_ascii c) (lower s')
  end.

Fixpoint upper (s : string) : string :=
  match s with
  | EmptyString => EmptyString
  | String c s' => String (upper_ascii c) (upper s')
  end.

(** Truthiness of [d.get(key)] for an optional string: [None] and the
    empty string are both falsy. *)
Definition truthy (o : option string) : option string :=
  match o with
  | Some s => if decide (s = "") then None else Some s
  | None => None
  end.

(** Insertion-ordered dictionaries. *)
Section dict.
Context {K V : Type} `{EqDecision K}.

Definition dict := list (K * V).

Fixpoint get (d : dict) (k : K) : option V :=
  match d with
  | [] => None
  | (k', v) :: d' => if decide (k' = k) then Some v else get d' k
  end.

(** [d[k] = v] *)
Fixpoint set (d : dict) (k : K) (v : V) : dict :=
  match d with
  | [] => [(k, v)]
  | (k', v') :: d' =>
      if decide (k' = k) then (k, v) :: d' else (k', v') :: set d' k v
  end.

(** [del d[k]] (for a key that is present) *)
Fixpoint del (d : dict) (k : K) : dict :=
  match d with
  | [] => []
  | (k', v') :: d' =>
      if decide (k' = k) then d' else (k', v') :: del d' k
  end.

Definition keys (d : dict) : list K := d.*1.
Definition values (d : dict) : list V := d.*2.
End dict.
Global Arguments dict : clear implicits.

(** Enumeration of a collection whose order the language leaves open: the
    choice sequence picks, one after the other, which of the remaining
    elements comes next; once it is used up the remaining elements come
    in the given order. *)
Fixpoint shuffle {A} (choice : list nat) (l : list A) : list A :=
  match choice with
  | [] => l
  | n :: choice' =>
      let i := (n mod length l)%nat in
      match l !! i with
      | Some x => x :: shuffle choice' (delete i l)
      | None => []
      end
  end.

(** [l.sort(key=..., reverse=True)], for keys ordered by [le]: descending,
    and stable, so that elements with equal keys keep their order. *)
Fixpoint insert_reverse {A} (le : A → A → bool) (x : A) (l : list A) : list A :=
  match l with
  | [] => [x]
  | y :: l' => if le y x then x :: l else y :: insert_reverse le x l'
  end.

Definition sort_reverse {A} (le : A → A → bool) (l : list A) : list A :=
  foldr (insert_reverse le) [] l.

End Py.

(** ** Exceptions ([src/exceptions.py] and the built-in ones met here) *)

Inductive exn_class : Type :=
  | ProcessingError | ValidationError | FileOperationError
  | PermissionError | OSError | ValueError | RuntimeError.

(** An exception object: its class, its message, and for [raise ... from e]
    the exception it is chained to ([__cause__]). *)
Inductive exn : Type :=
  | Exn (cls : exn_class) (msg : string)
  | ExnFrom (cls : exn_class) (msg : string) (cause : exn).

Global Instance exn_class_eq_dec : EqDecision exn_class.
Proof. solve_decision. Defined.

Global Instance exn_eq_dec : EqDecision exn.
Proof. solve_decision. Defined.

Definition exn_cls (e : exn) : exn_class :=
  match e with Exn c _ | ExnFrom c _ _ => c end.

(** [str(e)] *)
Definition exn_str (e : exn) : string :=
  match e with Exn _ m | ExnFrom _ m _ => m end.

(** [e.__cause__] *)
Definition exn_cause (e : exn) : option exn :=
  match e with Exn _ _ => None | ExnFrom _ _ c => Some c end.

(** The outcome of a call: the exception it raised, or its value. *)
Definition result (A : Type) : Type := exn + A.
Definition raise {A} (e : exn) : result A := inl e.

Global Instance result_ret : MRet result := λ A a, inr a.
Global Instance result_bind : MBind result := λ A B k r,
  match r with inl e => inl e | inr a => k a end.

(** ** Paths and timestamps *)

(** A [pathlib.Path], by its string form. *)
Definition Path : Type := dsig (λ s : string, s ≠ "").

(** [str(p)] *)
Definition path_str (p : Path) : string := `p.

(** [Path(s)] *)
Definition Path_of (s : string) : Path :=
  match decide (s ≠ "") with
  | left H => dexist s H
  | right _ => "." ↾ I
  end.

(** The fields of a naive [datetime.datetime]. *)
Record dt_fields : Type := DT {
  year : N; month : N; day : N;
  hour : N; minute : N; second : N; microsecond : N
}.

Definition is_leap (y : N) : bool :=
  ((y mod 4 =? 0) && (negb (y mod 100 =? 0) || (y mod 400 =? 0)))%N.

Definition days_in_month (y m : N) : N :=
  (if m =? 2 then (if is_leap y then 29 else 28)
   else if (m =? 4) || (m =? 6) || (m =? 9) || (m =? 11) then 30
   else 31)%N.

Definition dt_valid (d : dt_fields) : Prop :=
  (1 ≤ year d ≤ 9999 ∧ 1 ≤ month d ≤ 12 ∧
   1 ≤ day d ≤ days_in_month (year d) (month d) ∧
   hour d < 24 ∧ minute d < 60 ∧ second d < 60 ∧ microsecond d < 1000000)%N.

Global Instance dt_fields_eq_dec : EqDecision dt_fields.
Proof. solve_decision. Defined.

Global Instance dt_valid_dec d : Decision (dt_valid d).
Proof. unfold dt_valid. apply _. Defined.

(** A [datetime.datetime] without time zone; [==] on two of them is
    equality of the fields. *)
Definition datetime : Type := dsig dt_valid.

(** [a <= b] on two of them: the order of the field tuples. *)
Definition dt_tuple (d : datetime) : list N :=
  let f := `d in
  [year f; month f; day f; hour f; minute f; second f; microsecond f].

Fixpoint lex_le (l1 l2 : list N) : bool :=
  match l1, l2 with
  | [], _ => true
  | _ :: _, [] => false
  | a :: l1', b :: l2' =>
      if (a <? b)%N then true else if (b <? a)%N then false else lex_le l1' l2'
  end.

Definition dt_le (a b : datetime) : bool := lex_le (dt_tuple a) (dt_tuple b).

(** [datetime.isoformat()]: [YYYY-MM-DDTHH:MM:SS], followed by [.ffffff]
    when the microsecond is not 0. *)
Module Iso.
Definition digit (n : N) : ascii := ascii_of_N (48 + n).

Definition pad2 (n : N) : list ascii :=
  [digit (n / 10); digit (n mod 10)]%N.
Definition pad4 (n : N) : list ascii :=
  (pad2 (n / 100) ++ pad2 (n mod 100))%N.
Definition pad6 (n : N) : list ascii :=
  (pad2 (n / 10000) ++ pad4 (n mod 10000))%N.

Definition isoformat (d : datetime) : string :=
  let f := `d in
  string_of_list_ascii
    (pad4 (year f) ++ ["-"%char] ++ pad2 (month f) ++ ["-"%char] ++
     pad2 (day f) ++ ["T"%char] ++ pad2 (hour f) ++ [":"%char] ++
     pad2 (minute f) ++ [":"%char] ++ pad2 (second f) ++
     (if (microsecond f =? 0)%N then [] else "."%char :: pad6 (microsecond f))).

Definition digit_val (c : ascii) : option N :=
  let n := N_of_ascii c in
  if ((48 <=? n) && (n <=? 57))%N then Some (n - 48)%N else None.

Fixpoint number (cs : list ascii) (acc : N) : option N :=
  match cs with
  | [] => Some acc
  | c :: cs' => v ← digit_val c; number cs' (10 * acc + v)%N
  end.

(** A field of exactly [k] digits at the head of [cs]. *)
Definition field (k : nat) (cs : list ascii) : option (N * list ascii) :=
  if decide (length (take k cs) = k)
  then n ← number (take k cs) 0%N; Some (n, drop k cs)
  else None.

Definition expect (c : ascii) (cs : list ascii) : option (list ascii) :=
  match cs with
  | c' :: cs' => if decide (c' = c) then Some cs' else None
  | [] => None
  end.

(** [datetime.fromisoformat] on the strings [isoformat] writes for a naive
    timestamp; [None] stands for the [ValueError] raised on other text. *)
Definition fromisoformat (s : string) : option datetime :=
  '(y, r) ← field 4 (list_ascii_of_string s);
  r ← expect "-" r;
  '(mo, r) ← field 2 r;
  r ← expect "-" r;
  '(d, r) ← field 2 r;
  r ← expect "T" r;
  '(h, r) ← field 2 r;
  r ← expect ":" r;
  '(mi, r) ← field 2 r;
  r ← expect ":" r;
  '(sec, r) ← field 2 r;
  us ← match r with
       | [] => Some 0%N
       | c :: r' =>
           if decide (c = "."%char)
           then '(u, r'') ← field 6 r';
                match r'' with [] => Some u | _ => None end
           else None
       end;
  let f := DT y mo d h mi sec us in
  match decide (dt_valid f) with
  | left H => Some (dexist f H)
  | right _ => None
  end.
End Iso.

(** ** [src/models.py] *)

Module RawFileInfo.
Record t : Type := mk {
  path : Path;
  basename : string;
  capture_datetime : option datetime;
  file_size : Z
}.
Global Instance eq_dec : EqDecision t.
Proof. solve_decision. Defined.
End RawFileInfo.

Module JpegFileInfo.
Record t : Type := mk {
  path : Path;
  basename : string;
  capture_datetime : option datetime
}.
End JpegFileInfo.

Module MatchResult.
Record t : Type := mk {
  jpeg_path : Path;
  raw_path : Path;
  match_method : string
}.
Global Instance eq_dec : EqDecision t.
Proof. solve_decision. Defined.
End MatchResult.

Module CopyResult.
Record t : Type := mk {
  success : Z;
  skipped : Z;
  failed : Z;
  errors : list (Path * string)
}.
Global Instance eq_dec : EqDecision t.
Proof. solve_decision. Defined.
End CopyResult.

Module ProcessingStats.
Record t : Type := mk {
  raw_files_found : Z;
  jpeg_files_found : Z;
  matches_found : Z;
  files_copied : Z;
  files_skipped : Z;
  files_failed : Z;
  errors : list (Path * string)
}.
End ProcessingStats.

(** ** [src/indexer.py]: [RawFileIndex] *)

(** The dictionary [to_dict] hands to [json.dump] and [from_dict] gets from
    [json.load]. *)
Module Json.
Record file_data : Type := mk_file {
  fd_path : string;
  fd_basename : string;
  fd_capture_datetime : option string;
  fd_file_size : Z
}.
Record index_data : Type := mk_index {
  source_directory : option string;
  last_updated : option string;
  file_count : Z;
  files : list file_data
}.
End Json.

Module RawFileIndex.

Record t : Type := mk {
  by_basename : Py.dict string (list RawFileInfo.t);
  by_datetime : Py.dict datetime (list RawFileInfo.t);
  source_directory : option Path;
  last_updated : option datetime;
  file_count : Z
}.

(** [__init__] *)
Definition init : t := mk [] [] None None 0.

(** [if k not in d: d[k] = []] followed by [d[k].append(info)]; the
    append changes the list object bound to [k] where it stands. *)
Definition append_to {K} `{EqDecision K}
    (d : Py.dict K (list RawFileInfo.t)) (k : K) (info : RawFileInfo.t)
    : Py.dict K (list RawFileInfo.t) :=
  let d1 := match Py.get d k with
            | None => Py.set d k []
            | Some _ => d
            end in
  match Py.get d1 k with
  | Some infos => Py.set d1 k (infos ++ [info])
  | None => d1
  end.

Definition add (info : RawFileInfo.t) (idx : t) : t :=
  let by_basename := append_to (by_basename idx) (RawFileInfo.basename info) info in
  let by_datetime :=
    match RawFileInfo.capture_datetime info with
    | Some dt => append_to (by_datetime idx) dt info
    | None => by_datetime idx
    end in
  mk by_basename by_datetime (source_directory idx) (last_updated idx)
     (file_count idx + 1).

Definition keep (file_path : Path) (infos : list RawFileInfo.t)
    : list RawFileInfo.t :=
  filter (λ info, RawFileInfo.path info ≠ file_path) infos.

(** One turn of [for key, infos in list(d.items())]: the slice assignment
    [infos[:] = ...] rewrites the list bound to [key] in the dictionary
    itself; the key is deleted when the list shrank to nothing. *)
Definition remove_step {K} `{EqDecision K} (file_path : Path)
    (st : Py.dict K (list RawFileInfo.t) * bool)
    (entry : K * list RawFileInfo.t)
    : Py.dict K (list RawFileInfo.t) * bool :=
  let '(d, removed) := st in
  let '(key, infos) := entry in
  let original_count := length infos in
  let infos' := keep file_path infos in
  let d := Py.set d key infos' in
  if (length infos' <? original_count)%nat
  then (match infos' with [] => Py.del d key | _ => d end, true)
  else (d, removed).

Definition remove_from {K} `{EqDecision K} (file_path : Path)
    (d : Py.dict K (list RawFileInfo.t)) (removed : bool)
    : Py.dict K (list RawFileInfo.t) * bool :=
  foldl (remove_step file_path) (d, removed) d.

Definition remove (file_path : Path) (idx : t) : t * bool :=
  let removed := false in
  let '(by_basename, removed) := remove_from file_path (by_basename idx) removed in
  let '(by_datetime, removed) := remove_from file_path (by_datetime idx) removed in
  let file_count := if removed then file_count idx - 1 else file_count idx in
  (mk by_basename by_datetime (source_directory idx) (last_updated idx)
      file_count, removed).

Definition find_by_basename (idx : t) (basename : string)
    : list RawFileInfo.t :=
  default [] (Py.get (by_basename idx) (Py.lower basename)).

Definition find_by_datetime (idx : t) (dt : datetime) : list RawFileInfo.t :=
  default [] (Py.get (by_datetime idx) dt).

Definition find_by_basename_and_datetime (idx : t) (basename : string)
    (dt : datetime) : list RawFileInfo.t :=
  let basename_matches := find_by_basename idx basename in
  match basename_matches with
  | [] => []
  | _ => filter (λ info, RawFileInfo.capture_datetime info = Some dt)
                basename_matches
  end.

Definition get_all_files (idx : t) : list RawFileInfo.t :=
  concat (Py.values (by_basename idx)).

Definition clear (idx : t) : t :=
  mk [] [] (source_directory idx) (last_updated idx) 0.

Definition to_dict (idx : t) : Json.index_data :=
  let files_data :=
    map (λ info,
           Json.mk_file (path_str (RawFileInfo.path info))
                        (RawFileInfo.basename info)
                        (Iso.isoformat <$> RawFileInfo.capture_datetime info)
                        (RawFileInfo.file_size info))
        (get_all_files idx) in
  Json.mk_index (path_str <$> source_directory idx)
                (Iso.isoformat <$> last_updated idx)
                (file_count idx)
                files_data.

(** [datetime.fromisoformat(v) if v else None] for a [.get] value *)
Definition parse_datetime (v : option string) : option (option datetime) :=
  match Py.truthy v with
  | Some s => Some <$> Iso.fromisoformat s
  | None => Some None
  end.

Definition info_of (file_data : Json.file_data) : option RawFileInfo.t :=
  capture_datetime ← parse_datetime (Json.fd_capture_datetime file_data);
  Some (RawFileInfo.mk (Path_of (Json.fd_path file_data))
                       (Json.fd_basename file_data)
                       capture_datetime
                       (Json.fd_file_size file_data)).

Fixpoint add_files (files : list Json.file_data) (index : t) : option t :=
  match files with
  | [] => Some index
  | file_data :: rest =>
      info ← info_of file_data;
      add_files rest (add info index)
  end.

(** [None] stands for the [ValueError] of a timestamp that does not
    parse. The stored ['file_count'] is not read. *)
Definition from_dict (data : Json.index_data) : option t :=
  let index := init in
  let source_directory :=
    Path_of <$> Py.truthy (Json.source_directory data) in
  last_updated ← parse_datetime (Json.last_updated data);
  add_files (Json.files data)
            (mk (by_basename index) (by_datetime index)
                source_directory last_updated (file_count index)).

End RawFileIndex.

(** ** The file system and [pathlib] *)

Module Pathlib.

(** [s.rfind(c)], [None] for [-1] *)
Fixpoint rfind (c : ascii) (s : string) : option nat :=
  match s with
  | EmptyString => None
  | String a s' =>
      match rfind c s' with
      | Some i => Some (S i)
      | None => if decide (a = c) then Some 0%nat else None
      end
  end.

(** [p.name]: the last component *)
Definition name (p : Path) : string :=
  let s := path_str p in
  match rfind "/" s with
  | Some i => substring (S i) (String.length s - S i) s
  | None => s
  end.

(** [p.parent], as a string *)
Definition parent (p : Path) : string :=
  let s := path_str p in
  match rfind "/" s with
  | Some i => if (i =? 0)%nat then "/" else substring 0 i s
  | None => "."
  end.

(** [p.suffix]: from the last dot of the name on, unless that dot is the
    first or the last character of the name *)
Definition suffix (p : Path) : string :=
  let name := name p in
  match rfind "." name with
  | Some i =>
      if ((0 <? i) && (i <? String.length name - 1))%nat
      then substring i (String.length name - i) name
      else ""
  | None => ""
  end.

(** [p.stem] *)
Definition stem (p : Path) : string :=
  let name := name p in
  match rfind "." name with
  | Some i =>
      if ((0 <? i) && (i <? String.length name - 1))%nat
      then substring 0 i name
      else name
  | None => name
  end.

(** Whether [name] matches the pattern [*suffix] of [glob]. *)
Definition ends_with (suffix name : string) : bool :=
  (String.length suffix <=? String.length name)%nat
  && String.eqb (substring (String.length name - String.length suffix)
                           (String.length suffix) name) suffix.

(** [directory / name] *)
Definition joinpath (directory : Path) (name : string) : Path :=
  Path_of (path_str directory +:+ "/" +:+ name).

(** The components of a path, by which paths are ordered. *)
Fixpoint split_on (c : ascii) (s : string) : list string :=
  match s with
  | EmptyString => [EmptyString]
  | String a s' =>
      if decide (a = c) then EmptyString :: split_on c s'
      else match split_on c s' with
           | part :: parts => String a part :: parts
           | [] => [String a EmptyString]
           end
  end.

Fixpoint parts_le (l1 l2 : list string) : bool :=
  match l1, l2 with
  | [], _ => true
  | _ :: _, [] => false
  | a :: l1', b :: l2' =>
      match String.compare a b with
      | Lt => true
      | Gt => false
      | Eq => parts_le l1' l2'
      end
  end.

Definition path_le (p q : Path) : Prop :=
  parts_le (split_on "/" (path_str p)) (split_on "/" (path_str q)) = true.

Global Instance path_le_dec p q : Decision (path_le p q).
Proof. unfold path_le. apply _. Defined.

(** [sorted(paths)] *)
Definition sorted (paths : list Path) : list Path := merge_sort path_le paths.

End Pathlib.

Module FS.

(** A regular file: its size and the capture time its metadata yields
    ([None] when the tool finds none or fails). *)
Record file : Type := File { st_size : Z; exif : option datetime }.

Record t : Type := mk {
  files : gmap Path file;
  dirs : gset Path;
  unreadable : gset Path;              (* entries [os.access(p, R_OK)] denies *)
  free : option Z;                     (* [shutil.disk_usage]; [None] when it raises *)
  mkdir_fault : Path → option exn;     (* what [mkdir] raises, if anything *)
  copy_fault : Path → option exn       (* what [shutil.copy2] of this file raises *)
}.

Definition is_file (fs : t) (p : Path) : bool := bool_decide (p ∈ dom (files fs)).
Definition is_dir (fs : t) (p : Path) : bool := bool_decide (p ∈ dirs fs).
Definition exists_ (fs : t) (p : Path) : bool := is_file fs p || is_dir fs p.

(** [p.stat().st_size]; [None] when [stat] raises *)
Definition stat_size (fs : t) (p : Path) : option Z := st_size <$> files fs !! p.

(** The entries below [directory]: [directory.rglob('*')]. *)
Definition rglob (fs : t) (directory : Path) : list Path :=
  filter (λ p, String.prefix (path_str directory +:+ "/") (path_str p) = true)
         (elements (dom (files fs) ∪ dirs fs)).

(** The entries of [directory] itself: [directory.iterdir()]. *)
Definition iterdir (fs : t) (directory : Path) : list Path :=
  filter (λ p, Pathlib.parent p = path_str directory)
         (elements (dom (files fs) ∪ dirs fs)).

(** [target_dir.mkdir(parents=True, exist_ok=True)] *)
Definition mkdir (fs : t) (p : Path) : result t :=
  match mkdir_fault fs p with
  | Some e => raise e
  | None =>
      if is_file fs p then raise (Exn OSError "File exists")
      else mret (mk (files fs) ({[p]} ∪ dirs fs) (unreadable fs) (free fs)
                    (mkdir_fault fs) (copy_fault fs))
  end.

(** [shutil.copy2(src, dst)] *)
Definition copy2 (fs : t) (src dst : Path) : result t :=
  match copy_fault fs src with
  | Some e => raise e
  | None =>
      match files fs !! src with
      | Some f =>
          mret (mk (<[dst := f]> (files fs)) (dirs fs) (unreadable fs)
                   ((λ b, b - st_size f) <$> free fs)
                   (mkdir_fault fs) (copy_fault fs))
      | None => raise (Exn OSError "No such file or directory")
      end
  end.

End FS.

(** ** [src/path_validator.py] *)

Module PathValidator.
Definition validate_directory (fs : FS.t) (path : Path) : result unit :=
  if negb (FS.exists_ fs path)
  then raise (Exn ValidationError ("ディレクトリが存在しません: " +:+ path_str path))
  else if negb (FS.is_dir fs path)
  then raise (Exn ValidationError
                ("指定されたパスはディレクトリではありません: " +:+ path_str path))
  else if bool_decide (path ∈ FS.unreadable fs)
  then raise (Exn ValidationError
                ("ディレクトリに読み取り権限がありません: " +:+ path_str path))
  else mret ().

End PathValidator.

(** ** [src/file_scanner.py] *)

Module FileScanner.

Definition RAW_EXTENSIONS : gset string :=
  list_to_set
    [".cr2"; ".CR2"; ".cr3"; ".CR3"; ".nef"; ".NEF"; ".arw"; ".ARW";
     ".raf"; ".RAF"; ".orf"; ".ORF"; ".rw2"; ".RW2"; ".pef"; ".PEF";
     ".dng"; ".DNG"; ".rwl"; ".RWL"; ".3fr"; ".3FR"; ".iiq"; ".IIQ"].

Definition JPEG_EXTENSIONS : gset string :=
  list_to_set [".jpg"; ".JPG"; ".jpeg"; ".JPEG"].

Definition is_raw_file (file_path : Path) : bool :=
  bool_decide (Pathlib.suffix file_path ∈ RAW_EXTENSIONS).

Definition is_jpeg_file (file_path : Path) : bool :=
  bool_decide (Pathlib.suffix file_path ∈ JPEG_EXTENSIONS).

Definition scan (extensions : gset string) (fs : FS.t) (directory : Path)
    (recursive : bool) : result (list Path) :=
  _ ← PathValidator.validate_directory fs directory;
  let entries :=
    if recursive then FS.rglob fs directory else FS.iterdir fs directory in
  mret (Pathlib.sorted
          (filter (λ file_path,
                     FS.is_file fs file_path = true ∧
                     Pathlib.suffix file_path ∈ extensions)
                  entries)).

Definition scan_raw_files : FS.t → Path → bool → result (list Path) :=
  scan RAW_EXTENSIONS.

Definition scan_jpeg_files : FS.t → Path → bool → result (list Path) :=
  scan JPEG_EXTENSIONS.

Definition get_basename (file_path : Path) : string :=
  Py.lower (Pathlib.stem file_path).

End FileScanner.

(** ** [src/exif_reader.py]: the reader and its per-object cache *)

Module ExifReader.

(** [self.cache] *)
Notation t := (gmap Path (option datetime)).

Definition init : t := ∅.

(** What a first read of the file yields: nothing for a missing or empty
    file, else what the tool extracts. *)
Definition extract (fs : FS.t) (file_path : Path) : option datetime :=
  match FS.files fs !! file_path with
  | Some f => if decide (FS.st_size f = 0) then None else FS.exif f
  | None => None
  end.

(** [read_capture_datetime], as its callers see it: they take a raised
    [ExifReadError] for [None], and the reader caches [None] before it
    raises. *)
Definition read_capture_datetime (fs : FS.t) (reader : t) (file_path : Path)
    : option datetime * t :=
  match reader !! file_path with
  | Some cached => (cached, reader)
  | None =>
      let capture_datetime := extract fs file_path in
      (capture_datetime, <[file_path := capture_datetime]> reader)
  end.

Definition clear_cache (reader : t) : t := ∅.

Definition get_cache_size (reader : t) : Z := Z.of_nat (size reader).

Definition is_cached (reader : t) (file_path : Path) : bool :=
  bool_decide (file_path ∈ dom reader).

End ExifReader.

(** ** [src/matcher.py] *)

Module Matcher.

Definition _create_jpeg_info (fs : FS.t) (reader : ExifReader.t)
    (jpeg_path : Path) : JpegFileInfo.t * ExifReader.t :=
  let basename := FileScanner.get_basename jpeg_path in
  let '(capture_datetime, reader) :=
    ExifReader.read_capture_datetime fs reader jpeg_path in
  (JpegFileInfo.mk jpeg_path basename capture_datetime, reader).

Definition _find_matching_raw (index : RawFileIndex.t)
    (jpeg_info : JpegFileInfo.t) : option MatchResult.t :=
  let basename_matches :=
    RawFileIndex.find_by_basename index (JpegFileInfo.basename jpeg_info) in
  match basename_matches with
  | [] => None
  | first :: _ =>
      match JpegFileInfo.capture_datetime jpeg_info with
      | Some jpeg_datetime =>
          let datetime_matches :=
            filter (λ raw_info,
                      RawFileInfo.capture_datetime raw_info = Some jpeg_datetime)
                   basename_matches in
          match datetime_matches with
          | selected_raw :: _ =>
              Some (MatchResult.mk (JpegFileInfo.path jpeg_info)
                                   (RawFileInfo.path selected_raw)
                                   "basename_and_datetime")
          | [] => None
          end
      | None =>
          let selected_raw := first in
          Some (MatchResult.mk (JpegFileInfo.path jpeg_info)
                               (RawFileInfo.path selected_raw)
                               "basename_only")
      end
  end.

Fixpoint find_matches (fs : FS.t) (reader : ExifReader.t)
    (index : RawFileIndex.t) (jpeg_files : list Path)
    : list MatchResult.t * ExifReader.t :=
  match jpeg_files with
  | [] => ([], reader)
  | jpeg_path :: rest =>
      let '(jpeg_info, reader) := _create_jpeg_info fs reader jpeg_path in
      let '(matches, reader') := find_matches fs reader index rest in
      (match _find_matching_raw index jpeg_info with
       | Some match_result => match_result :: matches
       | None => matches
       end, reader')
  end.

Definition get_match_statistics (matches : list MatchResult.t)
    : Py.dict string Z :=
  let basename_and_datetime_count :=
    Z.of_nat (length (filter (λ m, MatchResult.match_method m
                                   = "basename_and_datetime") matches)) in
  let basename_only_count :=
    Z.of_nat (length (filter (λ m, MatchResult.match_method m = "basename_only")
                             matches)) in
  [("total_matches", Z.of_nat (length matches));
   ("basename_and_datetime_matches", basename_and_datetime_count);
   ("basename_only_matches", basename_only_count)].

End Matcher.

(** ** [src/indexer.py]: [IndexCache] *)

Module IndexCache.

Record t : Type := mk {
  cache_dir : Path;
  md5 : string → string;                          (* [hashlib.md5(...).hexdigest()] *)
  cache_files : gmap Path (option Json.index_data); (* [None]: text [json.load] rejects *)
  global_index : gmap string (option string * Z * string);
  write_fault : Path → option exn;                (* what writing this file raises *)
  now : datetime                                  (* [datetime.now()] *)
}.

Definition get_cache_path (cache : t) (source_dir : Path) : Path :=
  Pathlib.joinpath (cache_dir cache)
    ("index_" +:+ md5 cache (path_str source_dir) +:+ ".json").

Definition global_index_file (cache : t) : Path :=
  Pathlib.joinpath (cache_dir cache) "global_index.json".

Definition load_directory_index (cache : t) (source_dir : Path)
    : option RawFileIndex.t :=
  match cache_files cache !! get_cache_path cache source_dir with
  | None => None
  | Some None => None
  | Some (Some data) => RawFileIndex.from_dict data
  end.

(** Its own failures are logged and go no further. *)
Definition _update_global_index (cache : t) (source_dir : Path)
    (index : RawFileIndex.t) : t :=
  match write_fault cache (global_index_file cache) with
  | Some _ => cache
  | None =>
      mk (cache_dir cache) (md5 cache) (cache_files cache)
         (<[path_str source_dir :=
              (Iso.isoformat <$> RawFileIndex.last_updated index,
               RawFileIndex.file_count index,
               path_str (get_cache_path cache source_dir))]>
            (global_index cache))
         (write_fault cache) (now cache)
  end.

(** The index object is changed before the file is opened; the changed
    object is returned next to the outcome. *)
Definition save_directory_index (cache : t) (source_dir : Path)
    (index : RawFileIndex.t) : result unit * RawFileIndex.t * t :=
  let cache_path := get_cache_path cache source_dir in
  let index :=
    RawFileIndex.mk (RawFileIndex.by_basename index)
                    (RawFileIndex.by_datetime index)
                    (Some source_dir) (Some (now cache))
                    (RawFileIndex.file_count index) in
  match write_fault cache cache_path with
  | Some e =>
      let error_msg :=
        "インデックス保存エラー: " +:+ path_str cache_path +:+ " - " +:+ exn_str e in
      (raise (ExnFrom FileOperationError error_msg e), index, cache)
  | None =>
      let cache :=
        mk (cache_dir cache) (md5 cache)
           (<[cache_path := Some (RawFileIndex.to_dict index)]> (cache_files cache))
           (global_index cache) (write_fault cache) (now cache) in
      (mret (), index, _update_global_index cache source_dir index)
  end.


(** The entries of the global index file, in the order the file has them;
    the cache keeps them as a finite map, and [order] picks the order. A
    global index without entries stands for a file that is missing or holds
    no entry. *)
Definition load_global_index (cache : t) (order : list nat)
    : Py.dict string (option string * Z * string) :=
  Py.shuffle order (map_to_list (global_index cache)).

(** One turn of the loop of [list_indexed_directories]: an entry whose
    [last_updated] is missing, empty or no timestamp adds nothing. *)
Definition directory_of (entry : string * (option string * Z * string))
    : option (Path * datetime * Z) :=
  let '(dir_path, (last_updated, file_count, _)) := entry in
  let path := Path_of dir_path in
  match RawFileIndex.parse_datetime last_updated with
  | Some (Some last_updated) => Some (path, last_updated, file_count)
  | Some None => None
  | None => None
  end.

Definition list_indexed_directories (cache : t) (order : list nat)
    : list (Path * datetime * Z) :=
  let global_index := load_global_index cache order in
  let directories := omap directory_of global_index in
  Py.sort_reverse (λ x y, dt_le x.1.2 y.1.2) directories.

(** [unlink_fault] tells what [unlink] of a file raises, if anything. The
    answer is [False] as well when something raised on the way; the cache
    file is gone then if the failure came after its [unlink]. *)
Definition remove_directory_index (cache : t) (unlink_fault : Path → option exn)
    (source_dir : Path) : bool * t :=
  let found := false in
  let cache_path := get_cache_path cache source_dir in
  let unlinked : result (bool * t) :=
    if decide (is_Some (cache_files cache !! cache_path))
    then match unlink_fault cache_path with
         | Some e => raise e
         | None =>
             mret (true,
                   mk (cache_dir cache) (md5 cache)
                      (delete cache_path (cache_files cache))
                      (global_index cache) (write_fault cache) (now cache))
         end
    else mret (found, cache) in
  match unlinked with
  | inl _ => (false, cache)
  | inr (found, cache) =>
      let dir_key := path_str source_dir in
      if decide (is_Some (global_index cache !! dir_key))
      then match write_fault cache (global_index_file cache) with
           | Some _ => (false, cache)
           | None =>
               (true,
                mk (cache_dir cache) (md5 cache) (cache_files cache)
                   (delete dir_key (global_index cache))
                   (write_fault cache) (now cache))
           end
      else (found, cache)
  end.

(** [cache_dir.glob('*.json')]: the cache files of the directory, and the
    global index file when it has entries. *)
Definition glob_json (cache : t) : list Path :=
  filter (λ p, Pathlib.parent p = path_str (cache_dir cache) ∧
               Pathlib.ends_with ".json" (Pathlib.name p) = true)
         (elements (dom (cache_files cache)))
  ++ (if decide (global_index cache = ∅) then [] else [global_index_file cache]).

(** [cache_file.unlink()] *)
Definition unlink (cache : t) (cache_file : Path) : t :=
  if decide (cache_file = global_index_file cache)
  then mk (cache_dir cache) (md5 cache) (cache_files cache) ∅
          (write_fault cache) (now cache)
  else mk (cache_dir cache) (md5 cache) (delete cache_file (cache_files cache))
          (global_index cache) (write_fault cache) (now cache).

Fixpoint unlink_each (unlink_fault : Path → option exn) (listing : list Path)
    (cache : t) : result unit * t :=
  match listing with
  | [] => (mret (), cache)
  | cache_file :: rest =>
      match unlink_fault cache_file with
      | Some e => (raise e, cache)
      | None => unlink_each unlink_fault rest (unlink cache cache_file)
      end
  end.

(** The files unlinked before a failure stay unlinked. *)
Definition clear_all_cache (cache : t) (unlink_fault : Path → option exn)
    (order : list nat) : result unit * t :=
  match unlink_each unlink_fault (Py.shuffle order (glob_json cache)) cache with
  | (inl e, cache) =>
      let error_msg := "キャッシュクリアエラー: " +:+ exn_str e in
      (raise (ExnFrom FileOperationError error_msg e), cache)
  | (inr _, cache) => (mret (), cache)
  end.
End IndexCache.

(** ** [src/indexer.py]: [Indexer] *)

Module Indexer.

(** What the language leaves open in one call: the order in which the
    three path sets are walked and the order in which the pool's futures
    complete. *)
Record nondet : Type := Nondet {
  deleted_order : list nat;
  candidates_order : list nat;
  new_order : list nat;
  completion_order : list nat
}.

Definition _process_single_file (fs : FS.t) (reader : ExifReader.t)
    (file_path : Path) : option RawFileInfo.t * ExifReader.t :=
  match FS.stat_size fs file_path with
  | None => (None, reader)
  | Some st_size =>
      let basename := FileScanner.get_basename file_path in
      let '(capture_datetime, reader) :=
        ExifReader.read_capture_datetime fs reader file_path in
      (Some (RawFileInfo.mk file_path basename capture_datetime st_size), reader)
  end.

Definition collect (fs : FS.t)
    (st : list RawFileInfo.t * ExifReader.t) (file_path : Path)
    : list RawFileInfo.t * ExifReader.t :=
  let '(processed_infos, reader) := st in
  let '(info, reader) := _process_single_file fs reader file_path in
  (match info with
   | Some info => processed_infos ++ [info]
   | None => processed_infos
   end, reader).

Definition _process_files_parallel (fs : FS.t) (reader : ExifReader.t)
    (completion : list nat) (file_paths : list Path)
    : list RawFileInfo.t * ExifReader.t :=
  foldl (collect fs) ([], reader) (Py.shuffle completion file_paths).

Definition add_all (processed_infos : list RawFileInfo.t)
    (index : RawFileIndex.t) : RawFileIndex.t :=
  foldl (λ index info, RawFileIndex.add info index) index processed_infos.

Definition _build_new_index (fs : FS.t) (reader : ExifReader.t) (nd : nondet)
    (source_dir : Path) (recursive : bool)
    : result RawFileIndex.t * ExifReader.t :=
  match FileScanner.scan_raw_files fs source_dir recursive with
  | inl e => (raise e, reader)
  | inr [] => (mret RawFileIndex.init, reader)
  | inr raw_files =>
      let '(processed_infos, reader) :=
        _process_files_parallel fs reader (completion_order nd) raw_files in
      (mret (add_all processed_infos RawFileIndex.init), reader)
  end.

(** One turn of the loop over the paths found both on disk and in the
    index. *)
Definition check_updated (fs : FS.t)
    (st : RawFileIndex.t * list Path) (file_path : Path)
    : RawFileIndex.t * list Path :=
  let '(index, updated_files) := st in
  match FS.stat_size fs file_path with
  | None => (index, updated_files)
  | Some st_size =>
      let existing_info :=
        list_find (λ info, RawFileInfo.path info = file_path)
                  (RawFileIndex.get_all_files index) in
      match existing_info with
      | Some (_, existing_info) =>
          if decide (RawFileInfo.file_size existing_info ≠ st_size)
          then ((RawFileIndex.remove file_path index).1,
                updated_files ++ [file_path])
          else (index, updated_files)
      | None => (index, updated_files)
      end
  end.

Definition update_index_incrementally (fs : FS.t) (reader : ExifReader.t)
    (nd : nondet) (index : RawFileIndex.t) (source_dir : Path)
    (recursive : bool) : result RawFileIndex.t * ExifReader.t :=
  match FileScanner.scan_raw_files fs source_dir recursive with
  | inl e => (raise e, reader)
  | inr scanned =>
      let current_files : gset Path := list_to_set scanned in
      let existing_files : gset Path :=
        list_to_set (RawFileInfo.path <$> RawFileIndex.get_all_files index) in
      let new_files := current_files ∖ existing_files in
      let deleted_files := existing_files ∖ current_files in
      let potentially_updated_files := current_files ∩ existing_files in
      let index :=
        foldl (λ index deleted_file, (RawFileIndex.remove deleted_file index).1)
              index
              (Py.shuffle (deleted_order nd) (elements deleted_files)) in
      let '(index, updated_files) :=
        foldl (check_updated fs) (index, [])
              (Py.shuffle (candidates_order nd)
                          (elements potentially_updated_files)) in
      let files_to_process :=
        Py.shuffle (new_order nd) (elements new_files) ++ updated_files in
      match files_to_process with
      | [] => (mret index, reader)
      | _ =>
          let '(processed_infos, reader) :=
            _process_files_parallel fs reader (completion_order nd)
                                    files_to_process in
          (mret (add_all processed_infos index), reader)
      end
  end.

(** The [Indexer] object: its reader and its cache. *)
Record t : Type := mk { exif_reader : ExifReader.t; cache : IndexCache.t }.

Definition build_index (fs : FS.t) (self : t) (nd : nondet)
    (source_dir : Path) (recursive : bool) (force_rebuild : bool)
    : result RawFileIndex.t * t :=
  let wrap (e : exn) : exn :=
    ExnFrom ProcessingError
      ("インデックス構築エラー: " +:+ path_str source_dir +:+ " - " +:+ exn_str e) e in
  let existing_index :=
    if force_rebuild then None
    else IndexCache.load_directory_index (cache self) source_dir in
  let '(built, reader) :=
    match existing_index with
    | Some existing_index =>
        update_index_incrementally fs (exif_reader self) nd existing_index
                                   source_dir recursive
    | None => _build_new_index fs (exif_reader self) nd source_dir recursive
    end in
  match built with
  | inl e => (raise (wrap e), mk reader (cache self))
  | inr updated_index =>
      let '(saved, updated_index, cache) :=
        IndexCache.save_directory_index (cache self) source_dir updated_index in
      match saved with
      | inl e => (raise (wrap e), mk reader cache)
      | inr _ => (mret updated_index, mk reader cache)
      end
  end.

(** [clear_cache] *)
Definition clear_cache (self : t) (unlink_fault : Path → option exn)
    (order : list nat) (source_dir : option Path) : result unit * t :=
  match source_dir with
  | Some source_dir =>
      let '(_, cache) :=
        IndexCache.remove_directory_index (cache self) unlink_fault source_dir in
      (mret (), mk (exif_reader self) cache)
  | None =>
      let '(cleared, cache) :=
        IndexCache.clear_all_cache (cache self) unlink_fault order in
      (cleared, mk (exif_reader self) cache)
  end.

End Indexer.

(** ** [src/copier.py] *)

Module Copier.

Definition _check_disk_space (fs : FS.t) (required_bytes : Z) : bool :=
  match FS.free fs with
  | Some free_bytes =>
      let safety_margin := 10 * 1024 * 1024 in
      if decide (free_bytes < required_bytes + safety_margin) then false
      else true
  | None => true
  end.

(** The outer [result] is an exception that leaves the function: one that
    [shutil.copy2] raises and that is neither [PermissionError] nor
    [OSError]. *)
Definition _copy_single_file_with_error (fs : FS.t) (match_ : MatchResult.t)
    (target_dir : Path) : result (string * option string) * FS.t :=
  let source_path := MatchResult.raw_path match_ in
  let target_path := Pathlib.joinpath target_dir (Pathlib.name source_path) in
  if negb (FS.exists_ fs source_path)
  then (mret ("failed", Some "ソースファイルが存在しません"), fs)
  else if FS.exists_ fs target_path
  then (mret ("skipped", None), fs)
  else
    let enough :=
      match FS.stat_size fs source_path with
      | Some source_size => _check_disk_space fs source_size
      | None => true
      end in
    if negb enough
    then (mret ("failed", Some "ディスク容量不足"), fs)
    else
      match FS.copy2 fs source_path target_path with
      | inr fs' => (mret ("success", None), fs')
      | inl e =>
          match exn_cls e with
          | PermissionError =>
              (mret ("failed", Some ("アクセス権限エラー: " +:+ exn_str e)), fs)
          | OSError =>
              (mret ("failed", Some ("ファイル操作エラー: " +:+ exn_str e)), fs)
          | _ => (raise e, fs)
          end
      end.

(** [_copy_single_file]: the same steps, the outcome without the
    message; its last handler takes every other exception of
    [shutil.copy2] as well. *)
Definition _copy_single_file (fs : FS.t) (match_ : MatchResult.t)
    (target_dir : Path) : string * FS.t :=
  let source_path := MatchResult.raw_path match_ in
  let target_path := Pathlib.joinpath target_dir (Pathlib.name source_path) in
  if negb (FS.exists_ fs source_path)
  then ("failed", fs)
  else if FS.exists_ fs target_path
  then ("skipped", fs)
  else
    let enough :=
      match FS.stat_size fs source_path with
      | Some source_size => _check_disk_space fs source_size
      | None => true
      end in
    if negb enough
    then ("failed", fs)
    else
      match FS.copy2 fs source_path target_path with
      | inr fs' => ("success", fs')
      | inl e =>
          match exn_cls e with
          | PermissionError => ("failed", fs)
          | OSError => ("failed", fs)
          | _ => ("failed", fs)
          end
      end.

(** The counters and the error list of the loop *)
Record acc : Type := Acc {
  success_count : Z;
  skipped_count : Z;
  failed_count : Z;
  errors : list (Path * string)
}.

Definition copy_step (target_dir : Path) (st : acc * FS.t)
    (match_ : MatchResult.t) : acc * FS.t :=
  let '(a, fs) := st in
  match _copy_single_file_with_error fs match_ target_dir with
  | (inr (result, error_msg), fs) =>
      if decide (result = "success")
      then (Acc (success_count a + 1) (skipped_count a) (failed_count a)
                (errors a), fs)
      else if decide (result = "skipped")
      then (Acc (success_count a) (skipped_count a + 1) (failed_count a)
                (errors a), fs)
      else (Acc (success_count a) (skipped_count a) (failed_count a + 1)
                (match Py.truthy error_msg with
                 | Some error_msg =>
                     errors a ++ [(MatchResult.raw_path match_, error_msg)]
                 | None => errors a
                 end), fs)
  | (inl e, fs) =>
      let error_msg := "予期しないエラー: " +:+ exn_str e in
      (Acc (success_count a) (skipped_count a) (failed_count a + 1)
           (errors a ++ [(MatchResult.raw_path match_, error_msg)]), fs)
  end.

Definition copy_files (fs : FS.t) (matches : list MatchResult.t)
    (target_dir : Path) : CopyResult.t * FS.t :=
  match FS.mkdir fs target_dir with
  | inl e =>
      let error_msg := "ターゲットディレクトリ作成失敗: " +:+ exn_str e in
      (CopyResult.mk 0 0 (Z.of_nat (length matches)) [(target_dir, error_msg)],
       fs)
  | inr fs =>
      let '(a, fs) := foldl (copy_step target_dir) (Acc 0 0 0 [], fs) matches in
      (CopyResult.mk (success_count a) (skipped_count a) (failed_count a)
                     (errors a), fs)
  end.

End Copier.

(** ** [src/match_manager.py] *)

Module MatchManager.

(** The [MatchManager] object: its cache and its reader; the scanner and
    the copier hold no state. *)
Record t : Type := mk { cache : IndexCache.t; exif_reader : ExifReader.t }.

(** [source_filter and str(source_dir) != source_filter] *)
Definition filtered_out (source_filter : option string) (source_dir : Path)
    : bool :=
  match Py.truthy source_filter with
  | Some source_filter => bool_decide (path_str source_dir ≠ source_filter)
  | None => false
  end.

Definition _get_source_directories (self : t) (order : list nat)
    (source_filter : option string) : list Path :=
  let directories := IndexCache.list_indexed_directories (cache self) order in
  foldl (λ source_dirs '(source_dir, _, _),
           if filtered_out source_filter source_dir then source_dirs
           else source_dirs ++ [source_dir])
        [] directories.

Definition _load_global_index (self : t) (order : list nat)
    (source_filter : option string) : RawFileIndex.t :=
  let directories := IndexCache.list_indexed_directories (cache self) order in
  foldl (λ global_index '(source_dir, _, _),
           if filtered_out source_filter source_dir then global_index
           else
             match IndexCache.load_directory_index (cache self) source_dir with
             | Some dir_index =>
                 foldl (λ global_index raw_info,
                          RawFileIndex.add raw_info global_index)
                       global_index (RawFileIndex.get_all_files dir_index)
             | None => global_index
             end)
        RawFileIndex.init directories.

Definition _check_index_availability (self : t) (order : list nat)
    (source_filter : option string) : bool :=
  let directories := IndexCache.list_indexed_directories (cache self) order in
  match directories with
  | [] => false
  | _ =>
      match Py.truthy source_filter with
      | Some source_filter =>
          let filter_path := Path_of source_filter in
          let matching_dirs :=
            filter (λ d, d = filter_path) (directories.*1.*1) in
          match matching_dirs with
          | [] => false
          | _ => true
          end
      | None => true
      end
  end.

(** The loop over the JPEG files: one call of [find_matches] per file. *)
Definition match_each (fs : FS.t) (index : RawFileIndex.t)
    (st : list MatchResult.t * ExifReader.t) (jpeg_file : Path)
    : list MatchResult.t * ExifReader.t :=
  let '(matches, reader) := st in
  let '(file_matches, reader) :=
    Matcher.find_matches fs reader index [jpeg_file] in
  (matches ++ file_matches, reader).

(** [find_and_copy_matches]. The answer is the [ProcessingStats] the call
    hands to the logger at its end, [None] when it returns before; an
    exception is passed on as it is. The three listings of the cache are
    taken in the same order. *)
Definition find_and_copy_matches (fs : FS.t) (self : t) (order : list nat)
    (target_dir : Path) (recursive : bool) (source_filter : option string)
    : result (option ProcessingStats.t) * FS.t * t :=
  let global_index := _load_global_index self order source_filter in
  if negb (_check_index_availability self order source_filter)
  then (mret None, fs, self)
  else
    match FileScanner.scan_jpeg_files fs target_dir recursive with
    | inl e => (raise e, fs, self)
    | inr [] => (mret None, fs, self)
    | inr jpeg_files =>
        let '(matches, reader) :=
          foldl (match_each fs global_index) ([], exif_reader self) jpeg_files in
        let self := mk (cache self) reader in
        match matches with
        | [] => (mret None, fs, self)
        | _ =>
            let '(copy_result, fs) := Copier.copy_files fs matches target_dir in
            let stats :=
              ProcessingStats.mk
                (RawFileIndex.file_count global_index)
                (Z.of_nat (length jpeg_files))
                (Z.of_nat (length matches))
                (CopyResult.success copy_result)
                (CopyResult.skipped copy_result)
                (CopyResult.failed copy_result)
                (CopyResult.errors copy_result) in
            (mret (Some stats), fs, self)
        end
    end.

End MatchManager.

(** ** Notions used in the statements *)

(** Sequences of [add] and [remove] calls on one index. *)
Inductive op : Type :=
  | Add (info : RawFileInfo.t)
  | Remove (file_path : Path).

Definition apply_op (index : RawFileIndex.t) (o : op) : RawFileIndex.t :=
  match o with
  | Add info => RawFileIndex.add info index
  | Remove file_path => (RawFileIndex.remove file_path index).1
  end.

Definition run (ops : list op) (index : RawFileIndex.t) : RawFileIndex.t :=
  foldl apply_op index ops.

(** The records an operation sequence leaves, in the order they were
    added. *)
Definition live_step (l : list RawFileInfo.t) (o : op) : list RawFileInfo.t :=
  match o with
  | Add info => l ++ [info]
  | Remove file_path => RawFileIndex.keep file_path l
  end.

Definition live (ops : list op) : list RawFileInfo.t := foldl live_step [] ops.

Section bucket_notions.
Context {K : Type} `{EqDecision K}.

(** What the removal loop computes, entry by entry. *)
Definition shrinks (p : Path) (b : list RawFileInfo.t) : bool :=
  (length (RawFileIndex.keep p b) <? length b)%nat.

Fixpoint purge (p : Path) (d : Py.dict K (list RawFileInfo.t))
    : Py.dict K (list RawFileInfo.t) :=
  match d with
  | [] => []
  | (k, b) :: d' =>
      if shrinks p b
      then match RawFileIndex.keep p b with
           | [] => purge p d'
           | b' => (k, b') :: purge p d'
           end
      else (k, RawFileIndex.keep p b) :: purge p d'
  end.

Definition hit (p : Path) (d : Py.dict K (list RawFileInfo.t)) : bool :=
  existsb (λ e, shrinks p e.2) d.

(** The records filed under key [k]. *)
Definition select (key_of : RawFileInfo.t → option K) (k : K)
    (l : list RawFileInfo.t) : list RawFileInfo.t :=
  filter (λ info, key_of info = Some k) l.

Definition bucket_of (b : list RawFileInfo.t) : option (list RawFileInfo.t) :=
  match b with [] => None | _ => Some b end.

(** A lookup map files the records [l]: its keys are distinct, and each key
    holds, in their order, the records of [l] with that key; a key with no
    record is absent. *)
Definition repr (key_of : RawFileInfo.t → option K)
    (d : Py.dict K (list RawFileInfo.t)) (l : list RawFileInfo.t) : Prop :=
  NoDup (Py.keys d) ∧ ∀ k, Py.get d k = bucket_of (select key_of k l).
End bucket_notions.

Definition basename_key (info : RawFileInfo.t) : option string :=
  Some (RawFileInfo.basename info).

Definition index_repr (index : RawFileIndex.t) (l : list RawFileInfo.t) : Prop :=
  repr basename_key (RawFileIndex.by_basename index) l ∧
  repr RawFileInfo.capture_datetime (RawFileIndex.by_datetime index) l.

(** [add] for each record, then [remove(info.path)] for each record. *)
Definition add_then_remove (infos : list RawFileInfo.t) : RawFileIndex.t :=
  run ((Add <$> infos) ++ (Remove ∘ RawFileInfo.path <$> infos)) RawFileIndex.init.

(** The discipline of the indexer: no record is added for a path that has
    a live record. *)
Fixpoint one_record_per_path (l : list RawFileInfo.t) (ops : list op) : bool :=
  match ops with
  | [] => true
  | Add info :: ops' =>
      bool_decide (RawFileInfo.path info ∉ RawFileInfo.path <$> l)
      && one_record_per_path (l ++ [info]) ops'
  | Remove file_path :: ops' =>
      one_record_per_path (RawFileIndex.keep file_path l) ops'
  end.


(** ** Sample data *)

Definition ts_jan_1 : datetime := DT 2024 1 1 10 0 0 0 ↾ I.
Definition ts_jan_2 : datetime := DT 2024 1 2 10 0 0 0 ↾ I.
Definition ts_jan_3 : datetime := DT 2024 1 3 10 0 0 0 ↾ I.

Definition a_cr2 : Path := Path_of "/raw/A.CR2".
Definition b_cr2 : Path := Path_of "/raw/B.CR2".

Definition raw_a : RawFileInfo.t := RawFileInfo.mk a_cr2 "a" (Some ts_jan_1) 100.
Definition raw_b : RawFileInfo.t := RawFileInfo.mk b_cr2 "b" (Some ts_jan_2) 200.

(** A second record for the path of [raw_a], as a cache file edited by hand
    can hold one. *)
Definition raw_a_again : RawFileInfo.t := RawFileInfo.mk a_cr2 "a" None 120.

(** The records of [l] with the given basename, in their order. *)
Definition with_basename (basename : string) (l : list RawFileInfo.t)
    : list RawFileInfo.t :=
  filter (λ info, RawFileInfo.basename info = basename) l.

Definition jpeg_a : JpegFileInfo.t :=
  JpegFileInfo.mk (Path_of "/jpeg/A.JPG") "a" (Some ts_jan_1).
Definition jpeg_a_untimed : JpegFileInfo.t :=
  JpegFileInfo.mk (Path_of "/jpeg/A.JPG") "a" None.

(** An index whose [file_count] has drifted from the number of its records:
    [remove] took two records of one path away. *)
Definition count_drifted : RawFileIndex.t :=
  run [Add raw_a; Add raw_a_again; Add raw_b; Remove a_cr2] RawFileIndex.init.

(** An index whose [file_count] was set before the records were added, as
    the repository's tests build one ([index.file_count = 5], then five
    calls of [add]). *)
Definition preset_count : RawFileIndex.t :=
  run [Add raw_a; Add raw_b]
      (RawFileIndex.mk [] [] (Some (Path_of "/raw")) (Some ts_jan_3) 2).

(** An index built by [add] alone. *)
Definition two_files : RawFileIndex.t :=
  run [Add raw_a; Add raw_b] RawFileIndex.init.

(** The extensions of the two file classes, in lower case. *)
Definition raw_suffixes : list string :=
  [".cr2"; ".cr3"; ".nef"; ".arw"; ".raf"; ".orf"; ".rw2"; ".pef"; ".dng";
   ".rwl"; ".3fr"; ".iiq"].

Definition jpeg_suffixes : list string := [".jpg"; ".jpeg"].

(** Written in lower case throughout, or in upper case throughout. *)
Definition uniform_case (s : string) : Prop := s = Py.lower s ∨ s = Py.upper s.

(** A directory with a mixed-case RAW file next to two others. *)
Definition mixed_fs : FS.t :=
  FS.mk (<[Path_of "/raw/IMG_0001.Cr2" := FS.File 100 None]>
           (<[Path_of "/raw/sub/IMG_0002.cr2" := FS.File 200 (Some ts_jan_1)]>
              (<[Path_of "/raw/IMG_0003.CR2" := FS.File 300 (Some ts_jan_2)]> ∅)))
        {[Path_of "/raw"; Path_of "/raw/sub"]} ∅ (Some 1000000000)
        (λ _, None) (λ _, None).

(** The capture time a reader with this cache reports for a path. *)
Definition known (reader : ExifReader.t) (fs : FS.t) (file_path : Path)
    : option datetime :=
  default (ExifReader.extract fs file_path) (reader !! file_path).

(** The record [_process_single_file] makes of a path. *)
Definition make_info (fs : FS.t) (reader : ExifReader.t) (file_path : Path)
    : option RawFileInfo.t :=
  (λ st_size,
     RawFileInfo.mk file_path (FileScanner.get_basename file_path)
                    (known reader fs file_path) st_size)
    <$> FS.stat_size fs file_path.

(** [fs1] differs from [fs0] by added files, removed files and files of
    another size only: a file of both with the same size is the same file. *)
Definition size_tells (fs0 fs1 : FS.t) : Prop :=
  ∀ p f0 f1,
    FS.files fs0 !! p = Some f0 → FS.files fs1 !! p = Some f1 →
    FS.st_size f0 = FS.st_size f1 → f0 = f1.

(** A source directory before and after an edit: [A.CR2] is untouched,
    [B.CR2] has another size and another capture time, [C.NEF] is gone and
    [D.ARW] is new. *)
Definition raw_dir : Path := Path_of "/raw".

Definition before_fs : FS.t :=
  FS.mk (<[Path_of "/raw/A.CR2" := FS.File 100 (Some ts_jan_1)]>
           (<[Path_of "/raw/B.CR2" := FS.File 200 (Some ts_jan_2)]>
              (<[Path_of "/raw/C.NEF" := FS.File 300 None]> ∅)))
        {[raw_dir]} ∅ (Some 1000000000) (λ _, None) (λ _, None).

Definition after_fs : FS.t :=
  FS.mk (<[Path_of "/raw/A.CR2" := FS.File 100 (Some ts_jan_1)]>
           (<[Path_of "/raw/B.CR2" := FS.File 250 (Some ts_jan_3)]>
              (<[Path_of "/raw/D.ARW" := FS.File 400 (Some ts_jan_3)]> ∅)))
        {[raw_dir]} ∅ (Some 1000000000) (λ _, None) (λ _, None).

(** The same directory after an edit that kept the size of [B.CR2] and
    changed its capture time. *)
Definition same_size_fs : FS.t :=
  FS.mk (<[Path_of "/raw/A.CR2" := FS.File 100 (Some ts_jan_1)]>
           (<[Path_of "/raw/B.CR2" := FS.File 200 (Some ts_jan_3)]>
              (<[Path_of "/raw/C.NEF" := FS.File 300 None]> ∅)))
        {[raw_dir]} ∅ (Some 1000000000) (λ _, None) (λ _, None).

Definition some_order : Indexer.nondet := Indexer.Nondet [1%nat] [2%nat; 0%nat] [3%nat] [5%nat; 1%nat].
Definition given_order : Indexer.nondet := Indexer.Nondet [] [] [] [].

(** The records of a built index, field by field, with the timestamp in
    its textual form. *)
Definition record_view (built : result RawFileIndex.t * ExifReader.t)
    : list (string * string * option string * Z) :=
  match built.1 with
  | inr index =>
      (λ info, (path_str (RawFileInfo.path info), RawFileInfo.basename info,
                Iso.isoformat <$> RawFileInfo.capture_datetime info,
                RawFileInfo.file_size info))
        <$> RawFileIndex.get_all_files index
  | inl _ => []
  end.

(** The index a full build of [before_fs] gives. *)
Definition before_index : RawFileIndex.t :=
  match (Indexer._build_new_index before_fs ExifReader.init some_order raw_dir true).1 with
  | inr index => index
  | inl _ => RawFileIndex.init
  end.

(** The exception a call raised, and the value it returned. *)
Definition raised {A} (r : result A) : option exn :=
  match r with inl e => Some e | inr _ => None end.

Definition returned {A} (r : result A) : option A :=
  match r with inr a => Some a | inl _ => None end.

(** A cache directory on a full disk, and an [Indexer] that uses it. *)
Definition full_disk_cache : IndexCache.t :=
  IndexCache.mk (Path_of "/home/user/.raw_jpeg_matcher/cache") (λ _, "0f3a")
                ∅ ∅ (λ _, Some (Exn OSError "No space left on device")) ts_jan_3.

Definition full_disk_indexer : Indexer.t := Indexer.mk ExifReader.init full_disk_cache.

(** A target directory that already holds [B.CR2], and three matches: one
    to copy, one to skip, and one whose RAW file is gone. *)
Definition copy_fs : FS.t :=
  FS.mk (<[Path_of "/raw/A.CR2" := FS.File 100 (Some ts_jan_1)]>
           (<[Path_of "/raw/B.CR2" := FS.File 200 (Some ts_jan_2)]>
              (<[Path_of "/jpeg/B.CR2" := FS.File 200 (Some ts_jan_2)]> ∅)))
        {[Path_of "/raw"; Path_of "/jpeg"]} ∅ (Some 1000000000)
        (λ _, None) (λ _, None).

Definition copy_matches : list MatchResult.t :=
  [MatchResult.mk (Path_of "/jpeg/A.JPG") (Path_of "/raw/A.CR2") "basename_and_datetime";
   MatchResult.mk (Path_of "/jpeg/B.JPG") (Path_of "/raw/B.CR2") "basename_and_datetime";
   MatchResult.mk (Path_of "/jpeg/C.JPG") (Path_of "/raw/C.CR2") "basename_only"].


(** The scenario of the specification: two RAW files in the source
    directory; in the target directory a JPEG with the capture time of its
    RAW file, one with another capture time, and one without a RAW file. *)
Definition scenario_fs : FS.t :=
  FS.mk (<[Path_of "/src/A.CR2" := FS.File 100 (Some ts_jan_1)]>
           (<[Path_of "/src/B.CR2" := FS.File 200 (Some ts_jan_2)]>
              (<[Path_of "/tgt/A.JPG" := FS.File 10 (Some ts_jan_1)]>
                 (<[Path_of "/tgt/B.JPG" := FS.File 20 (Some ts_jan_3)]>
                    (<[Path_of "/tgt/C.JPG" := FS.File 30 (Some ts_jan_1)]> ∅)))))
        {[Path_of "/src"; Path_of "/tgt"]} ∅ (Some 1000000000)
        (λ _, None) (λ _, None).

(** Index the source directory, match the JPEG files of the target
    directory, copy the matched RAW files there; the answer is the matches,
    the copy result and the entries of the target directory afterwards. *)
Definition match_and_copy (fs : FS.t) (source_dir target_dir : Path)
    : list MatchResult.t * CopyResult.t * list Path :=
  match Indexer._build_new_index fs ExifReader.init given_order source_dir true,
        FileScanner.scan_jpeg_files fs target_dir true with
  | (inr index, reader), inr jpeg_files =>
      let '(matches, _) := Matcher.find_matches fs reader index jpeg_files in
      let '(copy_result, fs) := Copier.copy_files fs matches target_dir in
      (matches, copy_result, Pathlib.sorted (FS.iterdir fs target_dir))
  | _, _ => ([], CopyResult.mk 0 0 0 [], [])
  end.

(** The record [_create_jpeg_info] makes of a path, for a reader with this
    cache. *)
Definition jpeg_info_of (fs : FS.t) (reader : ExifReader.t) (jpeg_path : Path)
    : JpegFileInfo.t :=
  JpegFileInfo.mk jpeg_path (FileScanner.get_basename jpeg_path)
                  (known reader fs jpeg_path).

(** The safety margin of [_check_disk_space]: 10 MiB. *)
Definition safety_margin : Z := 10 * 1024 * 1024.

(** The path a match is copied to. *)
Definition target_of (target_dir : Path) (match_ : MatchResult.t) : Path :=
  Pathlib.joinpath target_dir (Pathlib.name (MatchResult.raw_path match_)).

(** [fs'] is [fs] after some copies into [target_dir]: the files of [fs]
    are there as they were, a new file is the copy of a matched RAW file
    under its name, and the rest of the state is the same but for the free
    space. *)
Definition copied_into (target_dir : Path) (matches : list MatchResult.t)
    (fs fs' : FS.t) : Prop :=
  FS.files fs ⊆ FS.files fs' ∧
  (∀ p f, FS.files fs' !! p = Some f → FS.files fs !! p = None →
     ∃ match_, match_ ∈ matches ∧ p = target_of target_dir match_ ∧
               FS.files fs' !! MatchResult.raw_path match_ = Some f) ∧
  FS.dirs fs' = FS.dirs fs ∧ FS.unreadable fs' = FS.unreadable fs ∧
  FS.mkdir_fault fs' = FS.mkdir_fault fs ∧ FS.copy_fault fs' = FS.copy_fault fs.

(** A match that one more call of the copier does not copy: its target
    exists; or its source is the target itself; or its source is no file;
    or the free space is known and too small for it; or [shutil.copy2]
    fails on it. *)
Definition settled (target_dir : Path) (fs : FS.t) (match_ : MatchResult.t)
    : Prop :=
  FS.exists_ fs (target_of target_dir match_) = true ∨
  target_of target_dir match_ = MatchResult.raw_path match_ ∨
  FS.files fs !! MatchResult.raw_path match_ = None ∨
  (∃ f free, FS.files fs !! MatchResult.raw_path match_ = Some f ∧
             FS.free fs = Some free ∧ free < FS.st_size f + safety_margin) ∨
  is_Some (FS.copy_fault fs (MatchResult.raw_path match_)).

(** No file has a negative size. *)
Definition sizes_nonneg (fs : FS.t) : Prop :=
  ∀ p f, FS.files fs !! p = Some f → 0 ≤ FS.st_size f.

(** The records the cache holds for a directory: those of its cached
    index, none when there is no index to load. *)
Definition cached_records (cache : IndexCache.t) (source_dir : Path)
    : list RawFileInfo.t :=
  match IndexCache.load_directory_index cache source_dir with
  | Some dir_index => RawFileIndex.get_all_files dir_index
  | None => []
  end.

(** A cache directory without faults, and what it holds once the index
    [two_files] of [raw_dir] is saved there. *)
Definition empty_cache : IndexCache.t :=
  IndexCache.mk (Path_of "/home/user/.raw_jpeg_matcher/cache") (λ _, "0f3a")
                ∅ ∅ (λ _, None) ts_jan_3.

Definition saved_cache : IndexCache.t :=
  (IndexCache.save_directory_index empty_cache raw_dir two_files).2.

(** A digest is written without a slash. *)
Definition slash_free (md5 : string → string) : Prop :=
  ∀ s, "/"%char ∉ list_ascii_of_string (md5 s).

(** The record of [C.NEF] in [before_fs], and an [Indexer] with a cache
    without faults. *)
Definition raw_c : RawFileInfo.t :=
  RawFileInfo.mk (Path_of "/raw/C.NEF") "c" None 300.

Definition fresh_indexer : Indexer.t := Indexer.mk ExifReader.init empty_cache.

(** * Properties *)

(** ** Insertion-ordered dictionaries *)

Section dict_facts.
Context {K V : Type} `{EqDecision K}.
Implicit Types (d : Py.dict K V) (k : K) (v : V).

Lemma get_None d k : Py.get d k = None ↔ k ∉ Py.keys d.
Proof.
  unfold Py.keys. induction d as [|[k' v'] d IH]; simpl.
  - split; [intros _; apply not_elem_of_nil | done].
  - rewrite not_elem_of_cons. case_decide; naive_solver.
Qed.

Lemma get_Some_elem d k v : Py.get d k = Some v → (k, v) ∈ d.
Proof.
  induction d as [|[k' v'] d IH]; simpl; [done|].
  case_decide; intros ?; simplify_eq; [left | right; auto].
Qed.

Lemma elem_get d k v : NoDup (Py.keys d) → (k, v) ∈ d → Py.get d k = Some v.
Proof.
  unfold Py.keys. induction d as [|[k' v'] d IH]; simpl.
  - intros _ ?%elem_of_nil. done.
  - intros [Hk Hd]%NoDup_cons [?|Hin]%elem_of_cons; simplify_eq.
    + by rewrite decide_True.
    + rewrite decide_False; [auto|].
      intros ->. apply Hk. apply list_elem_of_fmap. by exists (k, v).
Qed.

Lemma get_app d1 d2 k :
  Py.get (d1 ++ d2) k =
  match Py.get d1 k with Some v => Some v | None => Py.get d2 k end.
Proof.
  induction d1 as [|[k' v'] d1 IH]; simpl; [done|]. by case_decide.
Qed.

Lemma set_app_r d1 d2 k v :
  k ∉ Py.keys d1 → Py.set (d1 ++ d2) k v = d1 ++ Py.set d2 k v.
Proof.
  unfold Py.keys. induction d1 as [|[k' v'] d1 IH]; simpl; [done|].
  intros [? ?]%not_elem_of_cons. rewrite decide_False by done. by rewrite IH.
Qed.

Lemma del_app_r d1 d2 k :
  k ∉ Py.keys d1 → Py.del (d1 ++ d2) k = d1 ++ Py.del d2 k.
Proof.
  unfold Py.keys. induction d1 as [|[k' v'] d1 IH]; simpl; [done|].
  intros [? ?]%not_elem_of_cons. rewrite decide_False by done. by rewrite IH.
Qed.

Lemma get_set d k k' v :
  Py.get (Py.set d k v) k' = if decide (k = k') then Some v else Py.get d k'.
Proof.
  induction d as [|[k0 v0] d IH]; simpl.
  - by case_decide.
  - destruct (decide (k0 = k)) as [->|Hne]; simpl.
    + by destruct (decide (k = k')).
    + rewrite IH. destruct (decide (k0 = k')) as [->|?]; [|done].
      by rewrite decide_False.
Qed.

Lemma set_absent d k v : Py.get d k = None → Py.set d k v = d ++ [(k, v)].
Proof.
  induction d as [|[k0 v0] d IH]; simpl; [done|].
  case_decide; [done|]. intros ?. by rewrite IH.
Qed.

Lemma keys_set_present d k v :
  is_Some (Py.get d k) → Py.keys (Py.set d k v) = Py.keys d.
Proof.
  unfold Py.keys. induction d as [|[k0 v0] d IH]; simpl.
  - by intros [? ?].
  - case_decide; simplify_eq; [done|]. intros ?. cbn. f_equal. by apply IH.
Qed.

Lemma set_set d k v v' : Py.set (Py.set d k v) k v' = Py.set d k v'.
Proof.
  induction d as [|[k0 v0] d IH]; simpl.
  - by rewrite decide_True.
  - case_decide; simpl.
    + by rewrite decide_True.
    + by rewrite decide_False, IH.
Qed.
End dict_facts.

(** ** The buckets of the index *)

Section buckets.
Context {K : Type} `{EqDecision K}.
Implicit Types (d : Py.dict K (list RawFileInfo.t)) (k : K).
Implicit Types (info : RawFileInfo.t) (l b : list RawFileInfo.t).

Lemma append_to_absent d k info :
  Py.get d k = None → RawFileIndex.append_to d k info = d ++ [(k, [info])].
Proof.
  intros Hk. unfold RawFileIndex.append_to. rewrite Hk.
  rewrite get_set, decide_True by done.
  by rewrite set_set, set_absent.
Qed.

Lemma append_to_present d k info b :
  Py.get d k = Some b → RawFileIndex.append_to d k info = Py.set d k (b ++ [info]).
Proof. intros Hk. unfold RawFileIndex.append_to. by rewrite !Hk. Qed.

Lemma append_to_get d k info k' :
  Py.get (RawFileIndex.append_to d k info) k' =
  if decide (k = k') then Some (default [] (Py.get d k) ++ [info])
  else Py.get d k'.
Proof.
  destruct (Py.get d k) as [b|] eqn:Hk.
  - rewrite (append_to_present _ _ _ b) by done. by rewrite get_set.
  - rewrite append_to_absent by done. rewrite get_app. simpl.
    case_decide; simplify_eq; [by rewrite Hk|]. by destruct (Py.get d k').
Qed.

Lemma append_to_keys d k info :
  NoDup (Py.keys d) → NoDup (Py.keys (RawFileIndex.append_to d k info)).
Proof.
  intros Hd. destruct (Py.get d k) as [b|] eqn:Hk.
  - rewrite (append_to_present _ _ _ b), keys_set_present by eauto. done.
  - rewrite append_to_absent by done. unfold Py.keys. rewrite fmap_app.
    apply NoDup_app. split_and!; [done | | apply NoDup_singleton].
    intros k' Hk' ->%list_elem_of_singleton. by apply get_None in Hk.
Qed.

Lemma set_values d k b info :
  Py.get d k = Some b →
  concat (Py.values (Py.set d k (b ++ [info]))) ≡ₚ concat (Py.values d) ++ [info].
Proof.
  unfold Py.values. induction d as [|[k0 b0] d IH]; simpl; [done|].
  case_decide; simplify_eq; simpl.
  - intros [= ->]. rewrite <-!(assoc_L (++)). f_equiv. apply Permutation_app_comm.
  - intros Hk. rewrite IH by done. by rewrite (assoc_L (++)).
Qed.

Lemma append_to_values d k info :
  concat (Py.values (RawFileIndex.append_to d k info))
  ≡ₚ concat (Py.values d) ++ [info].
Proof.
  destruct (Py.get d k) as [b|] eqn:Hk.
  - rewrite (append_to_present _ _ _ b) by done. by apply set_values.
  - rewrite append_to_absent by done. unfold Py.values.
    by rewrite fmap_app, concat_app.
Qed.

Lemma remove_from_fold p (pre s : Py.dict K (list RawFileInfo.t)) removed :
  NoDup (Py.keys (pre ++ s)) →
  foldl (RawFileIndex.remove_step p) (pre ++ s, removed) s
  = (pre ++ purge p s, removed || hit p s).
Proof.
  revert pre removed. induction s as [|[k b] s IH]; intros pre removed Hnd.
  - simpl. by rewrite orb_false_r.
  - assert (k ∉ Py.keys pre ∧ NoDup (Py.keys (pre ++ s))) as [Hk Hnd'].
    { unfold Py.keys in *. rewrite fmap_app in *. simpl in Hnd.
      apply NoDup_app in Hnd as (Hpre & Hdisj & [Hks Hs]%NoDup_cons).
      split; [intros Hin; apply (Hdisj _ Hin); left|].
      apply NoDup_app. split_and!; [done | | done].
      intros x Hx Hxs. apply (Hdisj _ Hx). by right. }
    cbn [foldl]. unfold RawFileIndex.remove_step at 2.
    rewrite set_app_r by done. simpl Py.set. rewrite decide_True by done.
    cbn [purge hit existsb snd]. fold (shrinks p b). fold (hit p s).
    destruct (shrinks p b) eqn:Hsh.
    + destruct (RawFileIndex.keep p b) as [|i b'] eqn:Hb.
      * rewrite del_app_r by done. simpl Py.del. rewrite decide_True by done.
        rewrite IH by done. by rewrite orb_true_r.
      * replace (pre ++ (k, i :: b') :: s) with ((pre ++ [(k, i :: b')]) ++ s)
          by (by rewrite <-(assoc_L (++))).
        rewrite IH.
        -- by rewrite <-(assoc_L (++)), orb_true_r.
        -- unfold Py.keys in *. rewrite !fmap_app in *. simpl.
           by rewrite <-(assoc_L (++)).
    + replace (pre ++ (k, RawFileIndex.keep p b) :: s)
        with ((pre ++ [(k, RawFileIndex.keep p b)]) ++ s)
        by (by rewrite <-(assoc_L (++))).
      rewrite IH.
      * by rewrite <-(assoc_L (++)).
      * unfold Py.keys in *. rewrite !fmap_app in *. simpl.
        by rewrite <-(assoc_L (++)).
Qed.

Lemma remove_from_spec p d removed :
  NoDup (Py.keys d) →
  RawFileIndex.remove_from p d removed = (purge p d, removed || hit p d).
Proof. intros Hd. apply (remove_from_fold p [] d removed Hd). Qed.
End buckets.

Lemma filter_all {A} (P : A → Prop) `{∀ x, Decision (P x)} (l : list A) :
  (∀ x, x ∈ l → P x) → filter P l = l.
Proof.
  induction l as [|a l IH]; intros Hl; [done|].
  rewrite filter_cons_True by (apply Hl; left).
  f_equal. apply IH. intros x Hx. apply Hl. by right.
Qed.

Lemma filter_none {A} (P : A → Prop) `{∀ x, Decision (P x)} (l : list A) :
  (∀ x, x ∈ l → ¬ P x) → filter P l = [].
Proof.
  induction l as [|a l IH]; intros Hl; [done|].
  rewrite filter_cons_False by (apply Hl; left).
  apply IH. intros x Hx. apply Hl. by right.
Qed.

Lemma elem_of_concat {A} (x : A) (ls : list (list A)) :
  x ∈ concat ls ↔ ∃ l, x ∈ l ∧ l ∈ ls.
Proof.
  induction ls as [|l ls IH]; simpl.
  - split; [by intros ?%elem_of_nil | by intros (? & _ & ?%elem_of_nil)].
  - rewrite elem_of_app, IH. setoid_rewrite elem_of_cons. naive_solver.
Qed.

Section repr_facts.
Context {K : Type} `{EqDecision K}.
Implicit Types (d : Py.dict K (list RawFileInfo.t)) (k : K).
Implicit Types (info : RawFileInfo.t) (l b : list RawFileInfo.t).
Implicit Types (key_of : RawFileInfo.t → option K).

Lemma shrinks_true p b :
  shrinks p b = true ↔ ∃ info, info ∈ b ∧ RawFileInfo.path info = p.
Proof.
  unfold shrinks, RawFileIndex.keep. rewrite Nat.ltb_lt. split.
  - induction b as [|i b IH]; simpl; [lia|].
    rewrite filter_cons. case_decide as Hi; simpl.
    + intros Hlt. destruct IH as (j & ? & ?); [lia|].
      exists j. split; [by right|done].
    + intros _. exists i. split; [by left|]. by destruct (decide (RawFileInfo.path i = p)).
  - intros (i & Hi & Hp). eapply length_filter_lt; [done|]. naive_solver.
Qed.

Lemma shrinks_false p b : shrinks p b = false → RawFileIndex.keep p b = b.
Proof.
  intros Hs. unfold RawFileIndex.keep.
  induction b as [|i b IH]; [done|].
  destruct (decide (RawFileInfo.path i = p)) as [Hp|Hp].
  - assert (shrinks p (i :: b) = true) as Ht; [|congruence].
    apply shrinks_true. exists i. split; [by left|done].
  - rewrite filter_cons_True by done. f_equal. apply IH.
    destruct (shrinks p b) eqn:Hb; [|done].
    apply shrinks_true in Hb as (j & ? & ?).
    assert (shrinks p (i :: b) = true) as Ht; [|congruence].
    apply shrinks_true. exists j. split; [by right|done].
Qed.

Lemma keep_app p l1 l2 :
  RawFileIndex.keep p (l1 ++ l2) = RawFileIndex.keep p l1 ++ RawFileIndex.keep p l2.
Proof. apply filter_app. Qed.

Lemma purge_keys_sublist p d : Py.keys (purge p d) `sublist_of` Py.keys d.
Proof.
  unfold Py.keys. induction d as [|[k b] d IH]; simpl; [done|].
  destruct (shrinks p b); [destruct (RawFileIndex.keep p b)|]; simpl;
    by constructor.
Qed.

Lemma purge_values p d :
  concat (Py.values (purge p d)) = RawFileIndex.keep p (concat (Py.values d)).
Proof.
  unfold Py.values.
  induction d as [|[k b] d IH]; csimpl; [done|].
  rewrite keep_app, <-IH.
  destruct (shrinks p b); [destruct (RawFileIndex.keep p b) eqn:Hb|]; by csimpl.
Qed.

Lemma purge_get p d k :
  NoDup (Py.keys d) →
  Py.get (purge p d) k =
  match Py.get d k with
  | Some b => if shrinks p b then bucket_of (RawFileIndex.keep p b)
              else Some (RawFileIndex.keep p b)
  | None => None
  end.
Proof.
  induction d as [|[k0 b0] d IH]; [done|].
  unfold Py.keys at 1. rewrite fmap_cons. fold (Py.keys d).
  intros [Hk0 Hd]%NoDup_cons. specialize (IH Hd). cbn [purge Py.get].
  destruct (decide (k0 = k)) as [->|Hne].
  - destruct (shrinks p b0) eqn:Hs.
    + destruct (RawFileIndex.keep p b0) as [|i b'] eqn:Hb; simpl.
      * apply get_None. intros Hin. apply Hk0.
        eapply elem_of_sublist; [exact Hin | apply purge_keys_sublist].
      * by rewrite decide_True.
    + simpl. by rewrite decide_True.
  - destruct (shrinks p b0); [destruct (RawFileIndex.keep p b0)|]; simpl;
      rewrite ?decide_False by done; done.
Qed.

Lemma hit_true p d :
  hit p d = true ↔
  ∃ info, info ∈ concat (Py.values d) ∧ RawFileInfo.path info = p.
Proof.
  unfold hit, Py.values. induction d as [|[k b] d IH]; simpl.
  - split; [done|]. intros (i & ?%elem_of_nil & _). done.
  - rewrite orb_true_iff, IH, shrinks_true. setoid_rewrite elem_of_app.
    naive_solver.
Qed.

Lemma select_app key_of k l1 l2 :
  select key_of k (l1 ++ l2) = select key_of k l1 ++ select key_of k l2.
Proof. apply filter_app. Qed.

Lemma select_keep key_of k p l :
  select key_of k (RawFileIndex.keep p l) = RawFileIndex.keep p (select key_of k l).
Proof.
  unfold select, RawFileIndex.keep. induction l as [|i l IH]; [done|].
  rewrite !filter_cons. repeat (case_decide; rewrite ?filter_cons); by rewrite IH.
Qed.

Lemma bucket_of_Some b b' : bucket_of b = Some b' → b' = b ∧ b ≠ [].
Proof. destruct b; simpl; [done|]. by intros [= <-]. Qed.

Lemma repr_nil key_of : repr key_of [] [].
Proof. split; [constructor | done]. Qed.

Lemma repr_append key_of d l k info :
  key_of info = Some k →
  repr key_of d l → repr key_of (RawFileIndex.append_to d k info) (l ++ [info]).
Proof.
  intros Hk [Hnd Hget]. split; [by apply append_to_keys|].
  intros k'. rewrite append_to_get, select_app, Hget.
  unfold select at 3. rewrite filter_cons, filter_nil.
  case_decide as Hkk.
  - subst k'. rewrite decide_True by done.
    destruct (select key_of k l); simpl; done.
  - rewrite decide_False by congruence. by rewrite (right_id_L [] (++)).
Qed.

Lemma repr_skip key_of d l info :
  key_of info = None → repr key_of d l → repr key_of d (l ++ [info]).
Proof.
  intros Hk [Hnd Hget]. split; [done|]. intros k.
  rewrite select_app, Hget. unfold select at 3.
  rewrite filter_cons_False, filter_nil by congruence.
  by rewrite (right_id_L [] (++)).
Qed.

Lemma repr_purge key_of d l p :
  repr key_of d l → repr key_of (purge p d) (RawFileIndex.keep p l).
Proof.
  intros [Hnd Hget]. split.
  - exact (sublist_NoDup _ _ Hnd (purge_keys_sublist p d)).
  - intros k. rewrite purge_get, Hget, select_keep by done.
    destruct (select key_of k l) as [|i b] eqn:Hb; simpl; [done|].
    destruct (shrinks p (i :: b)) eqn:Hs; [done|].
    by rewrite (shrinks_false _ _ Hs).
Qed.

Lemma repr_nonempty key_of d l k b : repr key_of d l → (k, b) ∈ d → b ≠ [].
Proof.
  intros [Hnd Hget] Hin. apply elem_get in Hin; [|done].
  rewrite Hget in Hin. by apply bucket_of_Some in Hin as [-> ?].
Qed.

Lemma repr_mem key_of d l info :
  repr key_of d l →
  info ∈ concat (Py.values d) ↔ info ∈ l ∧ is_Some (key_of info).
Proof.
  intros [Hnd Hget]. unfold Py.values. rewrite elem_of_concat. split.
  - intros (b & Hi & (kb & -> & Hkb)%list_elem_of_fmap). destruct kb as [k b].
    apply elem_get in Hkb; [|done]. rewrite Hget in Hkb. simpl in Hi.
    apply bucket_of_Some in Hkb as [-> _].
    apply list_elem_of_filter in Hi as [? ?]. eauto.
  - intros [Hi [k Hk]]. exists (select key_of k l). split.
    + apply list_elem_of_filter. done.
    + apply list_elem_of_fmap. exists (k, select key_of k l). split; [done|].
      apply get_Some_elem. rewrite Hget.
      destruct (select key_of k l) eqn:Hs; [|done].
      assert (info ∈ select key_of k l) as Hin by (by apply list_elem_of_filter).
      rewrite Hs in Hin. by apply elem_of_nil in Hin.
Qed.
End repr_facts.

(** ** [RawFileIndex]: [add] and [remove] against the list of live records *)

Lemma remove_eq p index :
  NoDup (Py.keys (RawFileIndex.by_basename index)) →
  NoDup (Py.keys (RawFileIndex.by_datetime index)) →
  RawFileIndex.remove p index =
  let removed := hit p (RawFileIndex.by_basename index)
                 || hit p (RawFileIndex.by_datetime index) in
  (RawFileIndex.mk (purge p (RawFileIndex.by_basename index))
                   (purge p (RawFileIndex.by_datetime index))
                   (RawFileIndex.source_directory index)
                   (RawFileIndex.last_updated index)
                   (if removed then RawFileIndex.file_count index - 1
                    else RawFileIndex.file_count index),
   removed).
Proof.
  intros Hb Hd. unfold RawFileIndex.remove.
  rewrite (remove_from_spec p _ false Hb). cbn [orb].
  by rewrite (remove_from_spec p _ _ Hd).
Qed.

Lemma index_repr_init : index_repr RawFileIndex.init [].
Proof. split; apply repr_nil. Qed.

Lemma index_repr_add index l info :
  index_repr index l → index_repr (RawFileIndex.add info index) (l ++ [info]).
Proof.
  intros [Hb Hd]. split; simpl.
  - by apply repr_append.
  - destruct (RawFileInfo.capture_datetime info) as [dt|] eqn:Hdt.
    + by apply repr_append.
    + by apply repr_skip.
Qed.

Lemma index_repr_remove index l p :
  index_repr index l →
  index_repr (RawFileIndex.remove p index).1 (RawFileIndex.keep p l).
Proof.
  intros [Hb Hd]. rewrite remove_eq by (apply Hb || apply Hd).
  split; simpl; by apply repr_purge.
Qed.

Lemma index_repr_mem index l info :
  index_repr index l → info ∈ RawFileIndex.get_all_files index ↔ info ∈ l.
Proof.
  intros [Hb _]. unfold RawFileIndex.get_all_files.
  rewrite (repr_mem _ _ _ _ Hb). unfold basename_key. naive_solver.
Qed.

Lemma remove_flag index l p :
  index_repr index l →
  (RawFileIndex.remove p index).2 = true ↔
  ∃ info, info ∈ l ∧ RawFileInfo.path info = p.
Proof.
  intros [Hb Hd]. rewrite remove_eq by (apply Hb || apply Hd). cbn [snd].
  rewrite orb_true_iff, !hit_true. split.
  - intros [(i & Hi & ?)|(i & Hi & ?)]; exists i; split; try done.
    + by apply (repr_mem _ _ _ _ Hb) in Hi as [? _].
    + by apply (repr_mem _ _ _ _ Hd) in Hi as [? _].
  - intros (i & Hi & ?). left. exists i. split; [|done].
    apply (repr_mem _ _ _ _ Hb). split; [done|]. by eexists.
Qed.

Lemma remove_file_count index l p :
  index_repr index l →
  RawFileIndex.file_count (RawFileIndex.remove p index).1 =
  RawFileIndex.file_count index
  - (if (RawFileIndex.remove p index).2 then 1 else 0).
Proof.
  intros [Hb Hd]. rewrite remove_eq by (apply Hb || apply Hd). cbn [fst snd].
  cbn [RawFileIndex.file_count].
  destruct (hit p (RawFileIndex.by_basename index)
            || hit p (RawFileIndex.by_datetime index)); lia.
Qed.

Lemma remove_get_all_files index l p :
  index_repr index l →
  RawFileIndex.get_all_files (RawFileIndex.remove p index).1 =
  RawFileIndex.keep p (RawFileIndex.get_all_files index).
Proof.
  intros [Hb Hd]. rewrite remove_eq by (apply Hb || apply Hd).
  unfold RawFileIndex.get_all_files. simpl. apply purge_values.
Qed.

Lemma add_get_all_files index info :
  RawFileIndex.get_all_files (RawFileIndex.add info index)
  ≡ₚ RawFileIndex.get_all_files index ++ [info].
Proof. unfold RawFileIndex.get_all_files. simpl. apply append_to_values. Qed.

Lemma keep_Permutation p l1 l2 :
  l1 ≡ₚ l2 → RawFileIndex.keep p l1 ≡ₚ RawFileIndex.keep p l2.
Proof. intros H. unfold RawFileIndex.keep. by rewrite H. Qed.

Lemma run_app ops1 ops2 index : run (ops1 ++ ops2) index = run ops2 (run ops1 index).
Proof. apply foldl_app. Qed.

Lemma run_repr_from ops index l :
  index_repr index l → index_repr (run ops index) (foldl live_step l ops).
Proof.
  revert index l. induction ops as [|[info|p] ops IH]; intros index l H; simpl.
  - done.
  - apply IH. by apply index_repr_add.
  - apply IH. by apply index_repr_remove.
Qed.

Lemma run_repr ops : index_repr (run ops RawFileIndex.init) (live ops).
Proof. apply run_repr_from, index_repr_init. Qed.

Lemma run_get_all_files_from ops index l :
  index_repr index l → RawFileIndex.get_all_files index ≡ₚ l →
  RawFileIndex.get_all_files (run ops index) ≡ₚ foldl live_step l ops.
Proof.
  revert index l. induction ops as [|[info|p] ops IH]; intros index l H Hl; simpl.
  - done.
  - apply IH; [by apply index_repr_add|].
    by rewrite add_get_all_files, Hl.
  - apply IH; [by apply index_repr_remove|].
    rewrite (remove_get_all_files _ l) by done. by apply keep_Permutation.
Qed.

Lemma run_get_all_files ops :
  RawFileIndex.get_all_files (run ops RawFileIndex.init) ≡ₚ live ops.
Proof. apply run_get_all_files_from; [apply index_repr_init | done]. Qed.

Lemma repr_nil_inv {K} `{EqDecision K} (key_of : RawFileInfo.t → option K)
    (d : Py.dict K (list RawFileInfo.t)) :
  repr key_of d [] → d = [].
Proof.
  intros [_ Hget]. destruct d as [|[k b] d]; [done|].
  specialize (Hget k). simpl in Hget. by rewrite decide_True in Hget.
Qed.

(** ** The lookup maps under [add] and [remove] *)

(** C9. After any sequence of [add] and [remove] calls on an empty index,
    every key of [by_basename] and every key of [by_datetime] is bound to a
    non-empty list of records. *)
Theorem no_empty_bucket (ops : list op) :
  let index := run ops RawFileIndex.init in
  (∀ basename infos,
     (basename, infos) ∈ RawFileIndex.by_basename index → infos ≠ []) ∧
  (∀ dt infos,
     (dt, infos) ∈ RawFileIndex.by_datetime index → infos ≠ []).
Proof.
  destruct (run_repr ops) as [Hb Hd]. split; intros k b Hin.
  - exact (repr_nonempty _ _ _ _ _ Hb Hin).
  - exact (repr_nonempty _ _ _ _ _ Hd Hin).
Qed.

(** What [remove] does on an index built by [add] and [remove]: every
    record of the path leaves the primary collection and both maps, the
    answer tells whether there was one, and the count goes down by one
    when there was. *)
Lemma remove_reachable (ops : list op) (p : Path) :
  let index := run ops RawFileIndex.init in
  let index' := (RawFileIndex.remove p index).1 in
  let removed := (RawFileIndex.remove p index).2 in
  RawFileIndex.get_all_files index'
    = RawFileIndex.keep p (RawFileIndex.get_all_files index) ∧
  index_repr index' (RawFileIndex.keep p (live ops)) ∧
  (removed = true ↔
     ∃ info, info ∈ RawFileIndex.get_all_files index ∧ RawFileInfo.path info = p) ∧
  RawFileIndex.file_count index'
    = RawFileIndex.file_count index - (if removed then 1 else 0).
Proof.
  pose proof (run_repr ops) as Hr. cbv zeta. split_and!.
  - by eapply remove_get_all_files.
  - by apply index_repr_remove.
  - rewrite (remove_flag _ _ _ Hr).
    by setoid_rewrite (index_repr_mem _ _ _ Hr).
  - by eapply remove_file_count.
Qed.

(** C5, on an index that holds two records of one path: [remove] deletes
    both and answers [True], and [file_count] goes from 3 to 2, while one
    record is left. *)
Theorem remove_duplicate_path_file_count :
  let index := run [Add raw_a; Add raw_a_again; Add raw_b] RawFileIndex.init in
  let index' := (RawFileIndex.remove a_cr2 index).1 in
  RawFileIndex.get_all_files index = [raw_a; raw_a_again; raw_b] ∧
  RawFileIndex.file_count index = 3 ∧
  (RawFileIndex.remove a_cr2 index).2 = true ∧
  RawFileIndex.get_all_files index' = [raw_b] ∧
  RawFileIndex.by_basename index' = [("b", [raw_b])] ∧
  RawFileIndex.by_datetime index' = [(ts_jan_2, [raw_b])] ∧
  RawFileIndex.file_count index' = 2.
Proof. cbv zeta. repeat split; reflexivity. Qed.

Lemma live_adds l infos : foldl live_step l (Add <$> infos) = l ++ infos.
Proof.
  revert l. induction infos as [|i infos IH]; intros l; simpl.
  - by rewrite (right_id_L [] (++)).
  - by rewrite IH, <-(assoc_L (++)).
Qed.

Lemma live_removes l ps :
  foldl live_step l (Remove <$> ps)
  = filter (λ info, RawFileInfo.path info ∉ ps) l.
Proof.
  revert l. induction ps as [|p ps IH]; intros l; simpl.
  - symmetry. apply filter_all. intros ? _. apply not_elem_of_nil.
  - rewrite IH. unfold RawFileIndex.keep. rewrite list_filter_filter.
    apply list_filter_iff. intros i. rewrite not_elem_of_cons. naive_solver.
Qed.

Lemma live_add_then_remove infos :
  live ((Add <$> infos) ++ (Remove ∘ RawFileInfo.path <$> infos)) = [].
Proof.
  unfold live. rewrite foldl_app, live_adds, list_fmap_compose, live_removes.
  simpl. apply filter_none. intros j Hj Hn. apply Hn.
  by apply list_elem_of_fmap_2.
Qed.

(** After the adds and the removes both maps are empty, whatever the
    records. *)
Lemma add_then_remove_maps_empty (infos : list RawFileInfo.t) :
  RawFileIndex.by_basename (add_then_remove infos) = [] ∧
  RawFileIndex.by_datetime (add_then_remove infos) = [].
Proof.
  unfold add_then_remove.
  pose proof (run_repr ((Add <$> infos) ++ (Remove ∘ RawFileInfo.path <$> infos)))
    as [Hb Hd].
  rewrite live_add_then_remove in Hb, Hd.
  split; by eapply repr_nil_inv.
Qed.

Lemma add_all_file_count infos index :
  RawFileIndex.file_count (run (Add <$> infos) index)
  = RawFileIndex.file_count index + Z.of_nat (length infos).
Proof.
  revert index. induction infos as [|i infos IH]; intros index; simpl; [lia|].
  rewrite IH. simpl. lia.
Qed.

Lemma remove_all_file_count ps index l :
  index_repr index l → NoDup ps →
  (∀ p, p ∈ ps → ∃ info, info ∈ l ∧ RawFileInfo.path info = p) →
  RawFileIndex.file_count (run (Remove <$> ps) index)
  = RawFileIndex.file_count index - Z.of_nat (length ps).
Proof.
  revert index l. induction ps as [|p ps IH]; intros index l Hr Hnd Hin; simpl.
  - lia.
  - apply NoDup_cons in Hnd as [Hp Hnd].
    rewrite (IH _ (RawFileIndex.keep p l)); [| by apply index_repr_remove | done |].
    + rewrite (remove_file_count _ l) by done.
      assert ((RawFileIndex.remove p index).2 = true) as ->; [|lia].
      apply (remove_flag _ l); [done|]. apply Hin. by left.
    + intros q Hq. destruct (Hin q) as (i & Hi & Hiq); [by right|].
      exists i. split; [|done]. apply list_elem_of_filter. split; [|done].
      intros Heq. apply Hp. by rewrite <-Heq, Hiq.
Qed.

(** With one record per path, the adds and the removes bring [file_count]
    back to 0. *)
Lemma add_then_remove_distinct (infos : list RawFileInfo.t) :
  NoDup (RawFileInfo.path <$> infos) →
  RawFileIndex.file_count (add_then_remove infos) = 0.
Proof.
  intros Hnd. unfold add_then_remove. rewrite run_app, list_fmap_compose.
  rewrite (remove_all_file_count _ _ infos).
  - rewrite add_all_file_count, length_fmap. simpl. lia.
  - pose proof (run_repr_from (Add <$> infos) _ _ index_repr_init) as H.
    by rewrite live_adds in H.
  - done.
  - intros p (i & -> & Hi)%list_elem_of_fmap. eauto.
Qed.

(** C8, on two records of one path: after both adds and a [remove] for
    each record the two maps are empty and [file_count] is 1; the first
    [remove] answers [True], the second [False]. With a single [remove] of
    the path the count is 1 as well. *)
Theorem add_then_remove_duplicate_path :
  RawFileIndex.by_basename (add_then_remove [raw_a; raw_a_again]) = [] ∧
  RawFileIndex.by_datetime (add_then_remove [raw_a; raw_a_again]) = [] ∧
  RawFileIndex.get_all_files (add_then_remove [raw_a; raw_a_again]) = [] ∧
  RawFileIndex.file_count (add_then_remove [raw_a; raw_a_again]) = 1 ∧
  (RawFileIndex.remove a_cr2 (run [Add raw_a; Add raw_a_again] RawFileIndex.init)).2
    = true ∧
  (RawFileIndex.remove a_cr2
     (run [Add raw_a; Add raw_a_again; Remove a_cr2] RawFileIndex.init)).2 = false ∧
  RawFileIndex.file_count
    (run [Add raw_a; Add raw_a_again; Remove a_cr2] RawFileIndex.init) = 1.
Proof. cbv zeta. repeat split; reflexivity. Qed.

(** ** The matcher *)

Lemma lower_ascii_idemp c : Py.lower_ascii (Py.lower_ascii c) = Py.lower_ascii c.
Proof. by destruct c as [[] [] [] [] [] [] [] []]. Qed.

Lemma lower_idemp s : Py.lower (Py.lower s) = Py.lower s.
Proof. induction s as [|c s IH]; simpl; [done|]. by rewrite lower_ascii_idemp, IH. Qed.

(** The basename [_create_jpeg_info] computes is in lower case. *)
Lemma create_jpeg_info_lower fs reader jpeg_path :
  let jpeg_info := (Matcher._create_jpeg_info fs reader jpeg_path).1 in
  Py.lower (JpegFileInfo.basename jpeg_info) = JpegFileInfo.basename jpeg_info.
Proof.
  unfold Matcher._create_jpeg_info.
  destruct (ExifReader.read_capture_datetime fs reader jpeg_path). simpl.
  apply lower_idemp.
Qed.

Lemma select_basename basename l :
  select basename_key basename l = with_basename basename l.
Proof.
  unfold select, with_basename, basename_key. apply list_filter_iff.
  intros i. naive_solver.
Qed.

Lemma find_by_basename_live ops basename :
  RawFileIndex.find_by_basename (run ops RawFileIndex.init) basename
  = with_basename (Py.lower basename) (live ops).
Proof.
  destruct (run_repr ops) as [[_ Hget] _]. unfold RawFileIndex.find_by_basename.
  rewrite Hget, select_basename. by destruct (with_basename _ _).
Qed.

Lemma head_filter_elem {A} (P : A → Prop) `{∀ x, Decision (P x)} l x l' :
  filter P l = x :: l' → x ∈ l ∧ P x.
Proof.
  intros Hf. assert (x ∈ filter P l) as Hx by (rewrite Hf; left).
  apply list_elem_of_filter in Hx. naive_solver.
Qed.

(** C2. For a JPEG record with a capture timestamp and an index built by
    [add] and [remove], [_find_matching_raw] answers with method
    [basename_and_datetime] exactly when some record of the index has the
    JPEG's basename and a capture timestamp equal to the JPEG's; when no
    record has both, it answers nothing, and it never answers
    [basename_only]. The JPEG's basename is in lower case, as [JpegFileInfo]
    documents and [_create_jpeg_info] ensures. *)
Theorem exact_timestamp_strictness (ops : list op)
    (jpeg_info : JpegFileInfo.t) (jpeg_datetime : datetime) :
  JpegFileInfo.capture_datetime jpeg_info = Some jpeg_datetime →
  Py.lower (JpegFileInfo.basename jpeg_info) = JpegFileInfo.basename jpeg_info →
  let index := run ops RawFileIndex.init in
  let exact raw_info :=
    raw_info ∈ RawFileIndex.get_all_files index ∧
    RawFileInfo.basename raw_info = JpegFileInfo.basename jpeg_info ∧
    RawFileInfo.capture_datetime raw_info = Some jpeg_datetime in
  ((∃ m, Matcher._find_matching_raw index jpeg_info = Some m ∧
         MatchResult.match_method m = "basename_and_datetime")
   ↔ ∃ raw_info, exact raw_info) ∧
  ((¬ ∃ raw_info, exact raw_info) →
   Matcher._find_matching_raw index jpeg_info = None) ∧
  (∀ m, Matcher._find_matching_raw index jpeg_info = Some m →
        MatchResult.match_method m ≠ "basename_only").
Proof.
  intros Hdt Hlow. cbv zeta. unfold Matcher._find_matching_raw.
  rewrite find_by_basename_live, Hlow, Hdt.
  pose proof (λ info, index_repr_mem _ _ info (run_repr ops)) as Hmem.
  set (cands := with_basename (JpegFileInfo.basename jpeg_info) (live ops)).
  set (hits := filter (λ raw_info, RawFileInfo.capture_datetime raw_info
                                    = Some jpeg_datetime) cands).
  assert (∀ raw_info, raw_info ∈ hits ↔
            raw_info ∈ RawFileIndex.get_all_files (run ops RawFileIndex.init) ∧
            RawFileInfo.basename raw_info = JpegFileInfo.basename jpeg_info ∧
            RawFileInfo.capture_datetime raw_info = Some jpeg_datetime) as Hhits.
  { intros r. unfold hits, cands, with_basename.
    rewrite !list_elem_of_filter, Hmem. naive_solver. }
  assert (match cands with
          | [] => None
          | _ :: _ =>
              match hits with
              | selected_raw :: _ =>
                  Some (MatchResult.mk (JpegFileInfo.path jpeg_info)
                          (RawFileInfo.path selected_raw) "basename_and_datetime")
              | [] => None
              end
          end =
          match hits with
          | selected_raw :: _ =>
              Some (MatchResult.mk (JpegFileInfo.path jpeg_info)
                      (RawFileInfo.path selected_raw) "basename_and_datetime")
          | [] => None
          end) as ->.
  { unfold hits. by destruct cands. }
  destruct hits as [|r hits'] eqn:Hh.
  - assert (¬ ∃ raw_info, raw_info ∈ RawFileIndex.get_all_files (run ops RawFileIndex.init) ∧
              RawFileInfo.basename raw_info = JpegFileInfo.basename jpeg_info ∧
              RawFileInfo.capture_datetime raw_info = Some jpeg_datetime) as Hno.
    { intros (r & Hr). apply Hhits in Hr. by apply elem_of_nil in Hr. }
    split_and!; [|done|done]. split; [by intros (? & ? & _)|done].
  - split_and!.
    + split; [|by eauto]. intros _. exists r. apply Hhits. left.
    + intros Hno. exfalso. apply Hno. exists r. apply Hhits. left.
    + by intros m [= <-].
Qed.

Lemma exact_timestamp_strictness_witness :
  (∃ m, Matcher._find_matching_raw (run [Add raw_a; Add raw_b] RawFileIndex.init)
                                   jpeg_a = Some m ∧
        MatchResult.match_method m = "basename_and_datetime")
  ↔ ∃ raw_info,
      raw_info ∈ RawFileIndex.get_all_files (run [Add raw_a; Add raw_b] RawFileIndex.init) ∧
      RawFileInfo.basename raw_info = JpegFileInfo.basename jpeg_a ∧
      RawFileInfo.capture_datetime raw_info = Some ts_jan_1.
Proof.
  exact (proj1 (exact_timestamp_strictness [Add raw_a; Add raw_b] jpeg_a ts_jan_1
                  eq_refl eq_refl)).
Defined.

(** C6. For a JPEG record without a capture timestamp and an index built by
    [add] and [remove]: the candidates of the JPEG's basename are the
    records of the index with that basename, in the order they were added;
    when there is one, [_find_matching_raw] answers the first of them with
    method [basename_only]; when there is none, it answers nothing. *)
Theorem basename_only_fallback (ops : list op) (jpeg_info : JpegFileInfo.t) :
  JpegFileInfo.capture_datetime jpeg_info = None →
  Py.lower (JpegFileInfo.basename jpeg_info) = JpegFileInfo.basename jpeg_info →
  let index := run ops RawFileIndex.init in
  let candidates := with_basename (JpegFileInfo.basename jpeg_info) (live ops) in
  RawFileIndex.find_by_basename index (JpegFileInfo.basename jpeg_info) = candidates ∧
  (∀ raw_info, raw_info ∈ candidates ↔
     raw_info ∈ RawFileIndex.get_all_files index ∧
     RawFileInfo.basename raw_info = JpegFileInfo.basename jpeg_info) ∧
  Matcher._find_matching_raw index jpeg_info =
    match candidates with
    | first :: _ =>
        Some (MatchResult.mk (JpegFileInfo.path jpeg_info)
                             (RawFileInfo.path first) "basename_only")
    | [] => None
    end.
Proof.
  intros Hdt Hlow. cbv zeta. split_and!.
  - by rewrite find_by_basename_live, Hlow.
  - intros r. unfold with_basename.
    rewrite list_elem_of_filter, (index_repr_mem _ _ r (run_repr ops)).
    naive_solver.
  - unfold Matcher._find_matching_raw.
    rewrite find_by_basename_live, Hlow, Hdt. done.
Qed.

Lemma basename_only_fallback_witness :
  Matcher._find_matching_raw
    (run [Add raw_b; Add raw_a_again; Add raw_a; Remove b_cr2] RawFileIndex.init)
    jpeg_a_untimed
  = Some (MatchResult.mk (Path_of "/jpeg/A.JPG") a_cr2 "basename_only").
Proof.
  exact (proj2 (proj2 (basename_only_fallback
                         [Add raw_b; Add raw_a_again; Add raw_a; Remove b_cr2]
                         jpeg_a_untimed eq_refl eq_refl))).
Defined.

(** ** The textual form of timestamps *)

Lemma digit_val_digit (n : N) : (n < 10)%N → Iso.digit_val (Iso.digit n) = Some n.
Proof.
  intros Hn.
  assert (n = 0 ∨ n = 1 ∨ n = 2 ∨ n = 3 ∨ n = 4 ∨ n = 5 ∨ n = 6 ∨ n = 7 ∨
          n = 8 ∨ n = 9)%N as Hcases by lia.
  destruct_or!; subst n; reflexivity.
Qed.

Lemma number_pad2 (n acc : N) :
  (n < 100)%N → Iso.number (Iso.pad2 n) acc = Some (100 * acc + n)%N.
Proof.
  intros Hn. unfold Iso.pad2. cbn [Iso.number].
  rewrite !digit_val_digit by (try apply N.mod_lt; try apply N.Div0.div_lt_upper_bound; lia).
  cbn [mbind option_bind]. f_equal.
  pose proof (N.Div0.div_mod n 10). lia.
Qed.

Lemma number_app (l1 l2 : list ascii) (acc : N) :
  Iso.number (l1 ++ l2) acc = Iso.number l1 acc ≫= Iso.number l2.
Proof.
  revert acc. induction l1 as [|c l1 IH]; intros acc; simpl; [done|].
  destruct (Iso.digit_val c); simpl; [apply IH | done].
Qed.

Lemma number_pad4 (n acc : N) :
  (n < 10000)%N → Iso.number (Iso.pad4 n) acc = Some (10000 * acc + n)%N.
Proof.
  intros Hn. unfold Iso.pad4. rewrite number_app.
  rewrite number_pad2 by (apply N.Div0.div_lt_upper_bound; lia).
  cbn [mbind option_bind]. rewrite number_pad2 by (apply N.mod_lt; lia).
  f_equal. pose proof (N.Div0.div_mod n 100). lia.
Qed.

Lemma number_pad6 (n acc : N) :
  (n < 1000000)%N → Iso.number (Iso.pad6 n) acc = Some (1000000 * acc + n)%N.
Proof.
  intros Hn. unfold Iso.pad6. rewrite number_app.
  rewrite number_pad2 by (apply N.Div0.div_lt_upper_bound; lia).
  cbn [mbind option_bind]. rewrite number_pad4 by (apply N.mod_lt; lia).
  f_equal. pose proof (N.Div0.div_mod n 10000). lia.
Qed.

Lemma field_pad2 (n : N) (r : list ascii) :
  (n < 100)%N → Iso.field 2 (Iso.pad2 n ++ r) = Some (n, r).
Proof.
  intros Hn. unfold Iso.field.
  change (take 2 (Iso.pad2 n ++ r)) with (Iso.pad2 n).
  change (drop 2 (Iso.pad2 n ++ r)) with r.
  rewrite decide_True by done. rewrite number_pad2 by done.
  cbn [mbind option_bind]. repeat f_equal; lia.
Qed.

Lemma field_pad4 (n : N) (r : list ascii) :
  (n < 10000)%N → Iso.field 4 (Iso.pad4 n ++ r) = Some (n, r).
Proof.
  intros Hn. unfold Iso.field.
  change (take 4 (Iso.pad4 n ++ r)) with (Iso.pad4 n).
  change (drop 4 (Iso.pad4 n ++ r)) with r.
  rewrite decide_True by done. rewrite number_pad4 by done.
  cbn [mbind option_bind]. repeat f_equal; lia.
Qed.

Lemma field_pad6 (n : N) :
  (n < 1000000)%N → Iso.field 6 (Iso.pad6 n) = Some (n, []).
Proof.
  intros Hn. unfold Iso.field.
  change (take 6 (Iso.pad6 n)) with (Iso.pad6 n).
  change (drop 6 (Iso.pad6 n)) with (@nil ascii).
  rewrite decide_True by done. rewrite number_pad6 by done.
  cbn [mbind option_bind]. repeat f_equal; lia.
Qed.

Lemma isoformat_nonempty (d : datetime) : Iso.isoformat d ≠ "".
Proof. unfold Iso.isoformat. by destruct d as [[] ?]. Qed.

Lemma fromisoformat_isoformat (d : datetime) :
  Iso.fromisoformat (Iso.isoformat d) = Some d.
Proof.
  destruct d as [[y mo dd h mi sec us] Hv].
  pose proof (bool_decide_unpack _ Hv) as Hval.
  destruct Hval as (Hy & Hmo & Hd & Hh & Hmi & Hs & Hus). simpl in *.
  unfold Iso.fromisoformat, Iso.isoformat. cbn [proj1_sig year month day hour minute second microsecond].
  rewrite list_ascii_of_string_of_list_ascii.
  rewrite field_pad4 by lia. cbn [mbind option_bind app Iso.expect].
  rewrite decide_True by done. cbn [mbind option_bind].
  rewrite field_pad2 by lia. cbn [mbind option_bind app Iso.expect].
  rewrite decide_True by done. cbn [mbind option_bind].
  assert (dd < 100)%N.
  { unfold days_in_month in Hd. repeat case_match; lia. }
  rewrite field_pad2 by lia. cbn [mbind option_bind app Iso.expect].
  rewrite decide_True by done. cbn [mbind option_bind].
  rewrite field_pad2 by lia. cbn [mbind option_bind app Iso.expect].
  rewrite decide_True by done. cbn [mbind option_bind].
  rewrite field_pad2 by lia. cbn [mbind option_bind app Iso.expect].
  rewrite decide_True by done. cbn [mbind option_bind].
  rewrite field_pad2 by lia. cbn [mbind option_bind app Iso.expect].
  assert (match (if (us =? 0)%N then [] else "."%char :: Iso.pad6 us) with
          | [] => Some 0%N
          | c :: r' =>
              if decide (c = "."%char)
              then '(u, r'') ← Iso.field 6 r';
                   match r'' with [] => Some u | _ => None end
              else None
          end = Some us) as ->.
  { destruct (N.eqb_spec us 0) as [->|?]; [done|].
    rewrite decide_True by done. rewrite field_pad6 by lia. done. }
  cbn [mbind option_bind].
  destruct (decide (dt_valid (DT y mo dd h mi sec us))) as [Hv'|Hn].
  - f_equal. by apply dsig_eq.
  - destruct Hn. repeat split; simpl; lia.
Qed.

(** ** Serialization of the index *)

Lemma Path_of_path_str (p : Path) : Path_of (path_str p) = p.
Proof.
  unfold Path_of, path_str. destruct (decide (`p ≠ "")) as [H|H].
  - by apply dsig_eq.
  - destruct H. apply (proj2_dsig p).
Qed.

Lemma truthy_path_str (p : Path) : Py.truthy (Some (path_str p)) = Some (path_str p).
Proof.
  unfold Py.truthy. rewrite decide_False; [done|]. apply (proj2_dsig p).
Qed.

Lemma parse_datetime_isoformat (o : option datetime) :
  RawFileIndex.parse_datetime (Iso.isoformat <$> o) = Some o.
Proof.
  destruct o as [d|]; [|done]. unfold RawFileIndex.parse_datetime, Py.truthy.
  cbn [fmap option_fmap option_map].
  rewrite decide_False by apply isoformat_nonempty.
  by rewrite fromisoformat_isoformat.
Qed.

Lemma add_files_to_dict infos index :
  RawFileIndex.add_files
    (map (λ info,
            Json.mk_file (path_str (RawFileInfo.path info))
                         (RawFileInfo.basename info)
                         (Iso.isoformat <$> RawFileInfo.capture_datetime info)
                         (RawFileInfo.file_size info)) infos) index
  = Some (run (Add <$> infos) index).
Proof.
  revert index. induction infos as [|[p b dt sz] infos IH]; intros index; [done|].
  cbn [map RawFileIndex.add_files]. unfold RawFileIndex.info_of.
  cbn [Json.fd_path Json.fd_basename Json.fd_capture_datetime Json.fd_file_size
       RawFileInfo.path RawFileInfo.basename RawFileInfo.capture_datetime
       RawFileInfo.file_size].
  rewrite parse_datetime_isoformat, Path_of_path_str. cbn [mbind option_bind].
  apply IH.
Qed.

Lemma from_dict_to_dict_eq index count :
  RawFileIndex.from_dict
    (Json.mk_index (Json.source_directory (RawFileIndex.to_dict index))
                   (Json.last_updated (RawFileIndex.to_dict index))
                   count
                   (Json.files (RawFileIndex.to_dict index)))
  = Some (run (Add <$> RawFileIndex.get_all_files index)
              (RawFileIndex.mk [] [] (RawFileIndex.source_directory index)
                               (RawFileIndex.last_updated index) 0)).
Proof.
  unfold RawFileIndex.from_dict, RawFileIndex.to_dict.
  cbn [Json.source_directory Json.last_updated Json.files].
  rewrite parse_datetime_isoformat. cbn [mbind option_bind].
  rewrite add_files_to_dict. do 3 f_equal.
  destruct (RawFileIndex.source_directory index) as [p|]; [|done]. simpl.
  rewrite decide_False by apply (proj2_dsig p). simpl.
  by rewrite Path_of_path_str.
Qed.

Lemma run_source_directory ops index :
  RawFileIndex.source_directory (run ops index) = RawFileIndex.source_directory index.
Proof.
  revert index. induction ops as [|[info|p] ops IH]; intros index; simpl; [done|..].
  - by rewrite IH.
  - rewrite IH. unfold RawFileIndex.remove.
    by repeat (destruct (RawFileIndex.remove_from _ _ _)).
Qed.

(** An index built by [add] alone counts its records. *)
Lemma add_only_file_count (infos : list RawFileInfo.t) :
  let index := run (Add <$> infos) RawFileIndex.init in
  RawFileIndex.file_count index
  = Z.of_nat (length (RawFileIndex.get_all_files index)).
Proof.
  cbv zeta. rewrite add_all_file_count.
  rewrite (run_get_all_files_from _ _ [] index_repr_init) by done.
  by rewrite live_adds.
Qed.

(** C3, as the code has it. For every index, [from_dict(to_dict(index))]
    yields an index with the same records and the same [source_directory];
    its [file_count] is the length of the stored record list, whatever the
    stored count field says, and therefore the [file_count] of the original
    whenever that one equals the number of its records. *)
Theorem from_dict_to_dict (index : RawFileIndex.t) :
  ∃ index',
    RawFileIndex.from_dict (RawFileIndex.to_dict index) = Some index' ∧
    RawFileIndex.get_all_files index' ≡ₚ RawFileIndex.get_all_files index ∧
    RawFileIndex.source_directory index' = RawFileIndex.source_directory index ∧
    RawFileIndex.file_count index'
      = Z.of_nat (length (Json.files (RawFileIndex.to_dict index))) ∧
    (∀ count,
       RawFileIndex.from_dict
         (Json.mk_index (Json.source_directory (RawFileIndex.to_dict index))
                        (Json.last_updated (RawFileIndex.to_dict index))
                        count
                        (Json.files (RawFileIndex.to_dict index)))
       = Some index') ∧
    (RawFileIndex.file_count index
       = Z.of_nat (length (RawFileIndex.get_all_files index)) →
     RawFileIndex.file_count index' = RawFileIndex.file_count index).
Proof.
  eexists. split; [apply (from_dict_to_dict_eq index (RawFileIndex.file_count index))|].
  assert (RawFileIndex.file_count
            (run (Add <$> RawFileIndex.get_all_files index)
               (RawFileIndex.mk [] [] (RawFileIndex.source_directory index)
                  (RawFileIndex.last_updated index) 0))
          = Z.of_nat (length (RawFileIndex.get_all_files index))) as Hcount.
  { rewrite add_all_file_count. simpl. lia. }
  split_and!.
  - rewrite (run_get_all_files_from _ _ []); [by rewrite live_adds | | done].
    split; apply repr_nil.
  - by rewrite run_source_directory.
  - rewrite Hcount. unfold RawFileIndex.to_dict. simpl. by rewrite length_map.
  - intros count. apply from_dict_to_dict_eq.
  - intros Heq. by rewrite Hcount.
Qed.

Lemma from_dict_to_dict_witness :
  RawFileIndex.file_count two_files
    = Z.of_nat (length (RawFileIndex.get_all_files two_files)) ∧
  ∃ index',
    RawFileIndex.from_dict (RawFileIndex.to_dict two_files) = Some index' ∧
    RawFileIndex.file_count index' = RawFileIndex.file_count two_files.
Proof.
  split; [reflexivity|].
  destruct (from_dict_to_dict two_files) as (index' & Heq & _ & _ & _ & _ & Hcount).
  exists index'. split; [exact Heq | exact (Hcount eq_refl)].
Defined.

(** C3 as stated fails on [preset_count]: its [file_count] is 4, that of
    the index read back is 2, the number of its records. *)
Lemma roundtrip_file_count_counterexample :
  RawFileIndex.file_count preset_count = 4 ∧
  RawFileIndex.file_count
    <$> RawFileIndex.from_dict (RawFileIndex.to_dict preset_count) = Some 2 ∧
  ¬ (∃ index',
       RawFileIndex.from_dict (RawFileIndex.to_dict preset_count) = Some index' ∧
       RawFileIndex.file_count index' = RawFileIndex.file_count preset_count).
Proof.
  assert (RawFileIndex.file_count
            <$> RawFileIndex.from_dict (RawFileIndex.to_dict preset_count) = Some 2)
    as H1 by reflexivity.
  split_and!; [reflexivity | exact H1 |].
  intros (index' & Heq & Hc). rewrite Heq in H1. simpl in H1.
  assert (RawFileIndex.file_count preset_count = 4) as H2 by reflexivity.
  congruence.
Qed.

(** The same on [count_drifted], where [remove] let the count drift: 2
    before, 1 after. *)
Example roundtrip_after_remove :
  RawFileIndex.file_count count_drifted = 2 ∧
  RawFileIndex.file_count
    <$> RawFileIndex.from_dict (RawFileIndex.to_dict count_drifted) = Some 1.
Proof. split; reflexivity. Qed.

(** ** The scanner's file classes *)

Lemma upper_lower_ascii c : Py.upper_ascii (Py.lower_ascii c) = Py.upper_ascii c.
Proof. by destruct c as [[] [] [] [] [] [] [] []]. Qed.

Lemma upper_lower s : Py.upper (Py.lower s) = Py.upper s.
Proof. induction s as [|c s IH]; simpl; [done|]. by rewrite upper_lower_ascii, IH. Qed.

Lemma extension_set (extensions : gset string) (lowered : list string) (e : string) :
  (∀ x, x ∈ extensions → Py.lower x ∈ lowered ∧ uniform_case x) →
  (∀ x, x ∈ lowered → x ∈ extensions ∧ Py.upper x ∈ extensions) →
  e ∈ extensions ↔ Py.lower e ∈ lowered ∧ uniform_case e.
Proof.
  intros Hfwd Hbwd. split; [apply Hfwd|].
  intros [Hl [He|He]].
  - rewrite He. by apply Hbwd.
  - rewrite He, <-upper_lower. by apply Hbwd.
Qed.

Lemma raw_extensions_spec (e : string) :
  e ∈ FileScanner.RAW_EXTENSIONS ↔ Py.lower e ∈ raw_suffixes ∧ uniform_case e.
Proof.
  apply extension_set.
  - intros x Hx. unfold FileScanner.RAW_EXTENSIONS in Hx.
    apply elem_of_list_to_set in Hx.
    repeat (apply elem_of_cons in Hx as [->|Hx];
            [split; [compute_done | (by left) || (by right)]|]).
    by apply elem_of_nil in Hx.
  - intros x Hx. unfold raw_suffixes in Hx.
    repeat (apply elem_of_cons in Hx as [->|Hx]; [split; compute_done|]).
    by apply elem_of_nil in Hx.
Qed.

Lemma jpeg_extensions_spec (e : string) :
  e ∈ FileScanner.JPEG_EXTENSIONS ↔ Py.lower e ∈ jpeg_suffixes ∧ uniform_case e.
Proof.
  apply extension_set.
  - intros x Hx. unfold FileScanner.JPEG_EXTENSIONS in Hx.
    apply elem_of_list_to_set in Hx.
    repeat (apply elem_of_cons in Hx as [->|Hx];
            [split; [compute_done | (by left) || (by right)]|]).
    by apply elem_of_nil in Hx.
  - intros x Hx. unfold jpeg_suffixes in Hx.
    repeat (apply elem_of_cons in Hx as [->|Hx]; [split; compute_done|]).
    by apply elem_of_nil in Hx.
Qed.

Lemma scan_spec extensions fs directory recursive files p :
  FileScanner.scan extensions fs directory recursive = inr files →
  p ∈ files ↔
  p ∈ (if recursive then FS.rglob fs directory else FS.iterdir fs directory) ∧
  FS.is_file fs p = true ∧ Pathlib.suffix p ∈ extensions.
Proof.
  unfold FileScanner.scan.
  destruct (PathValidator.validate_directory fs directory) as [e|[]]; [done|].
  simpl. intros [= <-]. unfold Pathlib.sorted.
  rewrite merge_sort_Permutation, list_elem_of_filter. naive_solver.
Qed.

(** C7, as the code has it. A path is a RAW (a JPEG) file exactly when its
    suffix is one of the listed extensions written in lower case throughout
    or in upper case throughout; two paths whose suffixes differ in case
    only and are both so written are classified alike; and
    [scan_raw_files] ([scan_jpeg_files]) returns exactly the regular files
    of the directory that are classified RAW (JPEG). *)
Theorem uniform_case_classification :
  (∀ p, FileScanner.is_raw_file p = true ↔
        Py.lower (Pathlib.suffix p) ∈ raw_suffixes ∧ uniform_case (Pathlib.suffix p)) ∧
  (∀ p, FileScanner.is_jpeg_file p = true ↔
        Py.lower (Pathlib.suffix p) ∈ jpeg_suffixes ∧ uniform_case (Pathlib.suffix p)) ∧
  (∀ p q, Py.lower (Pathlib.suffix p) = Py.lower (Pathlib.suffix q) →
          uniform_case (Pathlib.suffix p) → uniform_case (Pathlib.suffix q) →
          FileScanner.is_raw_file p = FileScanner.is_raw_file q ∧
          FileScanner.is_jpeg_file p = FileScanner.is_jpeg_file q) ∧
  (∀ fs directory recursive files p,
     FileScanner.scan_raw_files fs directory recursive = inr files →
     p ∈ files ↔
     p ∈ (if recursive then FS.rglob fs directory else FS.iterdir fs directory) ∧
     FS.is_file fs p = true ∧ FileScanner.is_raw_file p = true) ∧
  (∀ fs directory recursive files p,
     FileScanner.scan_jpeg_files fs directory recursive = inr files →
     p ∈ files ↔
     p ∈ (if recursive then FS.rglob fs directory else FS.iterdir fs directory) ∧
     FS.is_file fs p = true ∧ FileScanner.is_jpeg_file p = true).
Proof.
  assert (∀ p, FileScanner.is_raw_file p = true ↔
               Py.lower (Pathlib.suffix p) ∈ raw_suffixes ∧
               uniform_case (Pathlib.suffix p)) as Hraw.
  { intros p. unfold FileScanner.is_raw_file.
    by rewrite bool_decide_eq_true, raw_extensions_spec. }
  assert (∀ p, FileScanner.is_jpeg_file p = true ↔
               Py.lower (Pathlib.suffix p) ∈ jpeg_suffixes ∧
               uniform_case (Pathlib.suffix p)) as Hjpeg.
  { intros p. unfold FileScanner.is_jpeg_file.
    by rewrite bool_decide_eq_true, jpeg_extensions_spec. }
  split_and!; [done | done | | |].
  - intros p q Heq Hp Hq. split.
    + apply eq_true_iff_eq. rewrite !Hraw, Heq. naive_solver.
    + apply eq_true_iff_eq. rewrite !Hjpeg, Heq. naive_solver.
  - intros fs directory recursive files p Hscan.
    rewrite (scan_spec _ _ _ _ _ p Hscan).
    unfold FileScanner.is_raw_file. by rewrite bool_decide_eq_true.
  - intros fs directory recursive files p Hscan.
    rewrite (scan_spec _ _ _ _ _ p Hscan).
    unfold FileScanner.is_jpeg_file. by rewrite bool_decide_eq_true.
Qed.

(** C7 as stated fails on mixed case: [.Cr2] and [.cr2], [.Jpg] and [.jpg]
    differ in case only and are classified differently, and a scan leaves
    [IMG_0001.Cr2] out. *)
Lemma mixed_case_counterexample :
  Py.lower (Pathlib.suffix (Path_of "/raw/IMG_0001.Cr2"))
    = Py.lower (Pathlib.suffix (Path_of "/raw/IMG_0001.cr2")) ∧
  FileScanner.is_raw_file (Path_of "/raw/IMG_0001.Cr2") = false ∧
  FileScanner.is_raw_file (Path_of "/raw/IMG_0001.cr2") = true ∧
  Py.lower (Pathlib.suffix (Path_of "/jpeg/IMG_0001.Jpg"))
    = Py.lower (Pathlib.suffix (Path_of "/jpeg/IMG_0001.jpg")) ∧
  FileScanner.is_jpeg_file (Path_of "/jpeg/IMG_0001.Jpg") = false ∧
  FileScanner.is_jpeg_file (Path_of "/jpeg/IMG_0001.jpg") = true ∧
  FileScanner.scan_raw_files mixed_fs (Path_of "/raw") true
    = inr [Path_of "/raw/IMG_0003.CR2"; Path_of "/raw/sub/IMG_0002.cr2"].
Proof. repeat split; compute_done. Qed.

(** ** The copier's counters *)

(** One turn of the copy loop adds one to exactly one counter. *)
Lemma copy_step_one target_dir a fs match_ :
  let a' := (Copier.copy_step target_dir (a, fs) match_).1 in
  (Copier.success_count a' = Copier.success_count a + 1 ∧
   Copier.skipped_count a' = Copier.skipped_count a ∧
   Copier.failed_count a' = Copier.failed_count a) ∨
  (Copier.success_count a' = Copier.success_count a ∧
   Copier.skipped_count a' = Copier.skipped_count a + 1 ∧
   Copier.failed_count a' = Copier.failed_count a) ∨
  (Copier.success_count a' = Copier.success_count a ∧
   Copier.skipped_count a' = Copier.skipped_count a ∧
   Copier.failed_count a' = Copier.failed_count a + 1).
Proof.
  cbv zeta. unfold Copier.copy_step.
  destruct (Copier._copy_single_file_with_error fs match_ target_dir)
    as [[e|[result error_msg]] fs'].
  - right. right. done.
  - repeat case_decide; simpl; auto.
Qed.

Lemma copy_loop_total target_dir matches a fs :
  let a' := (foldl (Copier.copy_step target_dir) (a, fs) matches).1 in
  Copier.success_count a' + Copier.skipped_count a' + Copier.failed_count a'
  = Copier.success_count a + Copier.skipped_count a + Copier.failed_count a
    + Z.of_nat (length matches).
Proof.
  cbv zeta. revert a fs. induction matches as [|m matches IH]; intros a fs.
  - simpl. lia.
  - cbn [foldl].
    pose proof (copy_step_one target_dir a fs m) as Hone. cbv zeta in Hone.
    destruct (Copier.copy_step target_dir (a, fs) m) as [a1 fs1].
    rewrite IH. simpl in Hone. cbn [length]. lia.
Qed.

(** C10. The three counters of the [CopyResult] add up to the number of
    matches given, each match adding one to exactly one of them; and when
    the target directory cannot be created the result is no success, no
    skip, all matches failed and one error entry, for the directory. *)
Theorem copy_outcome_conservation (fs : FS.t) (matches : list MatchResult.t)
    (target_dir : Path) :
  let copy_result := (Copier.copy_files fs matches target_dir).1 in
  CopyResult.success copy_result + CopyResult.skipped copy_result
    + CopyResult.failed copy_result = Z.of_nat (length matches) ∧
  (∀ a fs' match_,
     let a' := (Copier.copy_step target_dir (a, fs') match_).1 in
     (Copier.success_count a' = Copier.success_count a + 1 ∧
      Copier.skipped_count a' = Copier.skipped_count a ∧
      Copier.failed_count a' = Copier.failed_count a) ∨
     (Copier.success_count a' = Copier.success_count a ∧
      Copier.skipped_count a' = Copier.skipped_count a + 1 ∧
      Copier.failed_count a' = Copier.failed_count a) ∨
     (Copier.success_count a' = Copier.success_count a ∧
      Copier.skipped_count a' = Copier.skipped_count a ∧
      Copier.failed_count a' = Copier.failed_count a + 1)) ∧
  (∀ e, FS.mkdir fs target_dir = inl e →
        copy_result =
        CopyResult.mk 0 0 (Z.of_nat (length matches))
          [(target_dir, "ターゲットディレクトリ作成失敗: " +:+ exn_str e)]).
Proof.
  cbv zeta. split_and!.
  - unfold Copier.copy_files. destruct (FS.mkdir fs target_dir) as [e|fs1].
    + simpl. lia.
    + pose proof (copy_loop_total target_dir matches (Copier.Acc 0 0 0 []) fs1) as Ht.
      cbv zeta in Ht.
      destruct (foldl (Copier.copy_step target_dir) (Copier.Acc 0 0 0 [], fs1) matches)
        as [a fs2].
      simpl in *. lia.
  - intros a fs' match_. apply copy_step_one.
  - intros e He. unfold Copier.copy_files. by rewrite He.
Qed.

(** One match copied, one skipped, one failed. *)
Example copy_files_sample :
  (Copier.copy_files copy_fs copy_matches (Path_of "/jpeg")).1
  = CopyResult.mk 1 1 1 [(Path_of "/raw/C.CR2", "ソースファイルが存在しません")] ∧
  FS.is_file (Copier.copy_files copy_fs copy_matches (Path_of "/jpeg")).2
             (Path_of "/jpeg/A.CR2") = true.
Proof. split; compute_done. Qed.

(** ** Building and updating the index *)

Lemma shuffle_Permutation {A} (choice : list nat) (l : list A) :
  Py.shuffle choice l ≡ₚ l.
Proof.
  revert l. induction choice as [|n choice IH]; intros l; simpl; [done|].
  destruct (l !! (n mod length l)%nat) as [x|] eqn:Hx.
  - rewrite IH. symmetry. by apply delete_Permutation.
  - destruct l as [|a l]; [done|]. apply lookup_ge_None in Hx.
    pose proof (Nat.mod_upper_bound n (length (a :: l))) as Hlt.
    simpl in *. lia.
Qed.

(** Every order is the enumeration some choice sequence gives. *)
Lemma shuffle_complete {A} (l l' : list A) :
  l ≡ₚ l' → ∃ choice, Py.shuffle choice l = l'.
Proof.
  revert l. induction l' as [|x l' IH]; intros l Hl.
  - apply Permutation_nil_r in Hl as ->. by exists [].
  - assert (x ∈ l) as Hx by (rewrite Hl; left).
    apply list_elem_of_lookup in Hx as [i Hi].
    destruct (IH (delete i l)) as [choice Hc].
    { apply (Permutation_cons_inv (a := x)).
      by rewrite <-(delete_Permutation l i x Hi). }
    exists (i :: choice). simpl.
    rewrite Nat.mod_small by (by eapply lookup_lt_Some).
    by rewrite Hi, Hc.
Qed.

Lemma read_spec fs reader p :
  ExifReader.read_capture_datetime fs reader p
  = (known reader fs p, <[p := known reader fs p]> reader).
Proof.
  unfold ExifReader.read_capture_datetime, known.
  destruct (reader !! p) as [c|] eqn:Hc; simpl; [|done].
  by rewrite insert_id.
Qed.

Lemma known_insert reader fs fs' p q :
  known (<[p := known reader fs p]> reader) fs' q
  = if decide (p = q) then known reader fs p else known reader fs' q.
Proof.
  unfold known at 1. rewrite lookup_insert. by case_decide.
Qed.

Lemma make_info_insert reader fs p q :
  make_info fs (<[p := known reader fs p]> reader) q = make_info fs reader q.
Proof.
  unfold make_info. rewrite known_insert. case_decide; by subst.
Qed.

Lemma process_single_spec fs reader p :
  Indexer._process_single_file fs reader p
  = (make_info fs reader p,
     if FS.stat_size fs p then <[p := known reader fs p]> reader else reader).
Proof.
  unfold Indexer._process_single_file, make_info.
  destruct (FS.stat_size fs p) as [sz|]; [|done].
  by rewrite read_spec.
Qed.

Lemma omap_ext_fun {A B} (f g : A → option B) (l : list A) :
  (∀ x, f x = g x) → omap f l = omap g l.
Proof.
  intros Hfg. induction l as [|a l IH]; [done|].
  cbn [omap list_omap]. by rewrite Hfg, IH.
Qed.

(** The records of a batch and what the reader knows after it. *)
Lemma collect_spec fs ps acc reader :
  ∃ reader',
    foldl (Indexer.collect fs) (acc, reader) ps
    = (acc ++ omap (make_info fs reader) ps, reader') ∧
    ∀ fs' q,
      known reader' fs' q =
      if decide (q ∈ ps ∧ is_Some (FS.stat_size fs q)) then known reader fs q
      else known reader fs' q.
Proof.
  revert acc reader. induction ps as [|p ps IH]; intros acc reader.
  - exists reader. split; [simpl; by rewrite (right_id_L [] (++))|].
    intros fs' q. rewrite decide_False; [done|]. intros [?%elem_of_nil _]. done.
  - cbn [foldl]. unfold Indexer.collect at 2. rewrite process_single_spec.
    cbn [omap list_omap].
    destruct (make_info fs reader p) as [info|] eqn:Hinfo.
    + assert (is_Some (FS.stat_size fs p)) as [sz Hst].
      { unfold make_info in Hinfo. by destruct (FS.stat_size fs p). }
      rewrite Hst.
      destruct (IH (acc ++ [info]) (<[p := known reader fs p]> reader))
        as (reader' & Heq & Hk).
      exists reader'. split.
      * rewrite Heq, <-(assoc_L (++)). simpl. do 3 f_equal.
        apply omap_ext_fun. intros q. apply make_info_insert.
      * intros fs' q. rewrite Hk, !known_insert.
        destruct (decide (p = q)) as [->|Hne].
        -- rewrite (decide_True (P := q ∈ q :: ps ∧ _))
             by (split; [left | by rewrite Hst]).
           by case_decide.
        -- apply decide_ext. rewrite elem_of_cons. naive_solver.
    + assert (FS.stat_size fs p = None) as Hst.
      { unfold make_info in Hinfo. by destruct (FS.stat_size fs p). }
      rewrite Hst.
      destruct (IH acc reader) as (reader' & Heq & Hk).
      exists reader'. split; [done|].
      intros fs' q. rewrite Hk. apply decide_ext. rewrite elem_of_cons.
      split; [naive_solver|]. intros [[->|?] Hs]; [|done].
      rewrite Hst in Hs. by destruct Hs.
Qed.

Lemma process_files_spec fs reader completion ps :
  ∃ infos reader',
    Indexer._process_files_parallel fs reader completion ps = (infos, reader') ∧
    infos ≡ₚ omap (make_info fs reader) ps ∧
    ∀ fs' q,
      known reader' fs' q =
      if decide (q ∈ ps ∧ is_Some (FS.stat_size fs q)) then known reader fs q
      else known reader fs' q.
Proof.
  unfold Indexer._process_files_parallel.
  destruct (collect_spec fs (Py.shuffle completion ps) [] reader)
    as (reader' & Heq & Hk).
  eexists _, reader'. split; [exact Heq|]. split.
  - simpl. by rewrite shuffle_Permutation.
  - intros fs' q. rewrite Hk. apply decide_ext.
    by rewrite shuffle_Permutation.
Qed.

Lemma add_all_run infos index :
  Indexer.add_all infos index = run (Add <$> infos) index.
Proof.
  revert index. induction infos as [|i infos IH]; intros index; [done|].
  simpl. apply IH.
Qed.

Lemma add_all_repr infos index l :
  index_repr index l → index_repr (Indexer.add_all infos index) (l ++ infos).
Proof.
  intros H. rewrite add_all_run, <-live_adds. by apply run_repr_from.
Qed.

Lemma repr_values_Permutation {K} `{EqDecision K}
    (key_of : RawFileInfo.t → option K) (d : Py.dict K (list RawFileInfo.t))
    (l : list RawFileInfo.t) :
  (∀ info, is_Some (key_of info)) →
  repr key_of d l → concat (Py.values d) ≡ₚ l.
Proof.
  intros Htot. revert l. induction d as [|[k b] d IH]; intros l [Hnd Hget].
  - destruct l as [|i l]; [done|]. destruct (Htot i) as [k Hk].
    specialize (Hget k). unfold select in Hget.
    rewrite filter_cons_True in Hget by done. done.
  - unfold Py.keys in Hnd. rewrite fmap_cons in Hnd.
    apply NoDup_cons in Hnd as [Hk Hnd]. fold (Py.keys d) in Hk, Hnd.
    pose proof (Hget k) as Hb. simpl in Hb. rewrite decide_True in Hb by done.
    symmetry in Hb. apply bucket_of_Some in Hb as [-> _].
    unfold Py.values. csimpl. fold (Py.values d).
    rewrite (IH (filter (λ info, ¬ key_of info = Some k) l)).
    + apply filter_app_complement.
    + split; [done|]. intros k'. destruct (decide (k = k')) as [<-|Hne].
      * rewrite (proj2 (get_None d k)) by done.
        unfold select. rewrite (filter_none _ (filter _ l)); [done|].
        intros x [? _]%list_elem_of_filter. done.
      * specialize (Hget k'). simpl in Hget. rewrite decide_False in Hget by done.
        rewrite Hget. unfold select. f_equal. symmetry.
        apply list_filter_filter_l. intros x Hx ?. congruence.
Qed.

Lemma index_repr_Permutation index l :
  index_repr index l → RawFileIndex.get_all_files index ≡ₚ l.
Proof.
  intros [Hb _]. apply (repr_values_Permutation basename_key); [|done].
  intros info. by eexists.
Qed.

Lemma NoDup_fmap_eq {A B} (f : A → B) (l : list A) (x y : A) :
  NoDup (f <$> l) → x ∈ l → y ∈ l → f x = f y → x = y.
Proof.
  induction l as [|a l IH]; [by intros _ ?%elem_of_nil|].
  rewrite fmap_cons, NoDup_cons, !elem_of_cons.
  intros [Ha Hnd] [->|Hx] [->|Hy] Hf; auto.
  - destruct Ha. rewrite Hf. by apply list_elem_of_fmap_2.
  - destruct Ha. rewrite <-Hf. by apply list_elem_of_fmap_2.
Qed.

Lemma keep_paths_NoDup p l :
  NoDup (RawFileInfo.path <$> l) → NoDup (RawFileInfo.path <$> RawFileIndex.keep p l).
Proof.
  intros Hnd. eapply sublist_NoDup; [exact Hnd|].
  apply fmap_sublist, sublist_filter.
Qed.

Lemma remove_all_run ps index :
  foldl (λ index deleted_file, (RawFileIndex.remove deleted_file index).1) index ps
  = run (Remove <$> ps) index.
Proof.
  revert index. induction ps as [|p ps IH]; intros index; [done|]. simpl. apply IH.
Qed.

Lemma remove_all_repr ps index l :
  index_repr index l →
  index_repr
    (foldl (λ index deleted_file, (RawFileIndex.remove deleted_file index).1) index ps)
    (filter (λ info, RawFileInfo.path info ∉ ps) l).
Proof.
  intros H. rewrite remove_all_run, <-live_removes. by apply run_repr_from.
Qed.

(** The loop over the paths found both on disk and in the index: it takes
    out the records whose size differs from the size on disk, and lists
    their paths. *)
Lemma check_loop fs cs index upd l :
  index_repr index l → NoDup (RawFileInfo.path <$> l) → NoDup cs →
  (∀ p, p ∈ cs → is_Some (FS.stat_size fs p)) →
  ∃ index' upd',
    foldl (Indexer.check_updated fs) (index, upd) cs = (index', upd ++ upd') ∧
    index_repr index' (filter (λ info, RawFileInfo.path info ∉ upd') l) ∧
    NoDup upd' ∧
    ∀ p, p ∈ upd' ↔
         p ∈ cs ∧ ∃ info st_size,
           info ∈ l ∧ RawFileInfo.path info = p ∧
           FS.stat_size fs p = Some st_size ∧
           RawFileInfo.file_size info ≠ st_size.
Proof.
  revert index upd l. induction cs as [|p cs IH]; intros index upd l Hr Hl Hcs Hst.
  - exists index, []. rewrite (right_id_L [] (++)). split_and!; [done | | constructor |].
    + rewrite filter_all; [done|]. intros ? _. apply not_elem_of_nil.
    + intros p. split; [by intros ?%elem_of_nil | by intros [?%elem_of_nil _]].
  - apply NoDup_cons in Hcs as [Hp Hcs].
    destruct (Hst p) as [sz Hsz]; [by left|].
    assert (∀ q, q ∈ cs → is_Some (FS.stat_size fs q)) as Hst'.
    { intros q Hq. apply Hst. by right. }
    cbn [foldl]. unfold Indexer.check_updated at 2. rewrite Hsz.
    destruct (list_find (λ info, RawFileInfo.path info = p)
                        (RawFileIndex.get_all_files index))
      as [[i r]|] eqn:Hfind.
    + apply list_find_Some in Hfind as (Hi & Hrp & _).
      assert (r ∈ l) as Hrl.
      { apply (index_repr_mem _ _ _ Hr). by eapply list_elem_of_lookup_2. }
      destruct (decide (RawFileInfo.file_size r ≠ sz)) as [Hne|Heq].
      * destruct (IH (RawFileIndex.remove p index).1 (upd ++ [p])
                     (RawFileIndex.keep p l))
          as (index' & upd' & Hfold & Hr' & Hnd' & Hmem);
          [by apply index_repr_remove | by apply keep_paths_NoDup | done | done |].
        exists index', (p :: upd'). split_and!.
        -- rewrite Hfold. by rewrite <-(assoc_L (++)).
        -- replace (filter (λ info, RawFileInfo.path info ∉ p :: upd') l)
             with (filter (λ info, RawFileInfo.path info ∉ upd') (RawFileIndex.keep p l));
             [done|].
           unfold RawFileIndex.keep. rewrite list_filter_filter.
           apply list_filter_iff. intros x. rewrite not_elem_of_cons. naive_solver.
        -- apply NoDup_cons. split; [|done]. intros Hin. apply Hmem in Hin as [? _]. done.
        -- intros q. rewrite elem_of_cons, Hmem, elem_of_cons. split.
           ++ intros [->|[Hq (x & s & Hx & Hxq & Hs & Hxs)]].
              ** split; [by left|]. by exists r, sz.
              ** split; [by right|]. exists x, s. split_and!; try done.
                 by apply list_elem_of_filter in Hx as [_ ?].
           ++ intros [[->|Hq] (x & s & Hx & Hxq & Hs & Hxs)]; [by left|].
              right. split; [done|]. exists x, s. split_and!; try done.
              apply list_elem_of_filter. split; [|done]. intros Heq. apply Hp.
              by rewrite <-Heq, Hxq.
      * destruct (IH index upd l) as (index' & upd' & Hfold & Hr' & Hnd' & Hmem);
          [done..|].
        exists index', upd'. split_and!; [done..|].
        intros q. rewrite Hmem, elem_of_cons. split; [naive_solver|].
        intros [[->|Hq] (x & s & Hx & Hxq & Hs & Hxs)]; [|naive_solver].
        exfalso. assert (x = r) as ->.
        { eapply (NoDup_fmap_eq RawFileInfo.path); [exact Hl|done|done|congruence]. }
        apply Heq. intros ?. apply Hxs. congruence.
    + destruct (IH index upd l) as (index' & upd' & Hfold & Hr' & Hnd' & Hmem);
        [done..|].
      exists index', upd'. split_and!; [done..|].
      intros q. rewrite Hmem, elem_of_cons. split; [naive_solver|].
      intros [[->|Hq] (x & s & Hx & Hxq & Hs & Hxs)]; [|naive_solver].
      exfalso. apply list_find_None in Hfind.
      rewrite Forall_forall in Hfind. apply (Hfind x); [|done].
      by apply (index_repr_mem _ _ _ Hr).
Qed.

Lemma filter_ext_elem {A} (P Q : A → Prop) `{∀ x, Decision (P x)}
    `{∀ x, Decision (Q x)} (l : list A) :
  (∀ x, x ∈ l → P x ↔ Q x) → filter P l = filter Q l.
Proof.
  induction l as [|a l IH]; intros Hl; [done|].
  rewrite !filter_cons.
  rewrite IH by (intros x Hx; apply Hl; by right).
  apply decide_ext. apply Hl. by left.
Qed.

Lemma scan_facts extensions fs directory recursive files :
  FileScanner.scan extensions fs directory recursive = inr files →
  NoDup files ∧ ∀ p, p ∈ files → is_Some (FS.stat_size fs p).
Proof.
  intros Hscan. split.
  - revert Hscan. unfold FileScanner.scan.
    destruct (PathValidator.validate_directory fs directory) as [e|[]]; [done|].
    simpl. intros [= <-]. unfold Pathlib.sorted. rewrite merge_sort_Permutation.
    apply NoDup_filter. destruct recursive; apply NoDup_filter, NoDup_elements.
  - intros p Hp. apply (scan_spec _ _ _ _ _ p Hscan) in Hp as (_ & Hfile & _).
    unfold FS.is_file in Hfile. apply bool_decide_eq_true in Hfile.
    apply elem_of_dom in Hfile as [f Hf]. unfold FS.stat_size. rewrite Hf. by eexists.
Qed.

Lemma make_info_Some fs reader p info :
  make_info fs reader p = Some info ↔
  ∃ st_size, FS.stat_size fs p = Some st_size ∧
    info = RawFileInfo.mk p (FileScanner.get_basename p) (known reader fs p) st_size.
Proof.
  unfold make_info. destruct (FS.stat_size fs p) as [sz|]; simpl; naive_solver.
Qed.

Lemma make_info_path fs reader p info :
  make_info fs reader p = Some info → RawFileInfo.path info = p.
Proof. intros (sz & _ & ->)%make_info_Some. done. Qed.

Lemma omap_make_info_paths fs reader (ps : list Path) :
  RawFileInfo.path <$> omap (make_info fs reader) ps
  = filter (λ p, is_Some (FS.stat_size fs p)) ps.
Proof.
  induction ps as [|p ps IH]; [done|]. cbn [omap list_omap]. rewrite filter_cons.
  destruct (make_info fs reader p) as [info|] eqn:Hi.
  - apply make_info_Some in Hi as (sz & Hsz & ->).
    rewrite decide_True by (rewrite Hsz; eauto). rewrite fmap_cons. by rewrite IH.
  - rewrite decide_False; [apply IH|]. intros [sz Hsz].
    unfold make_info in Hi. by rewrite Hsz in Hi.
Qed.

Lemma omap_make_info_NoDup fs reader (ps : list Path) :
  NoDup ps → NoDup (RawFileInfo.path <$> omap (make_info fs reader) ps).
Proof. intros Hps. rewrite omap_make_info_paths. by apply NoDup_filter. Qed.

Lemma build_spec fs reader nd source_dir recursive files :
  FileScanner.scan_raw_files fs source_dir recursive = inr files →
  ∃ index reader' infos,
    Indexer._build_new_index fs reader nd source_dir recursive = (inr index, reader') ∧
    index_repr index infos ∧
    infos ≡ₚ omap (make_info fs reader) files ∧
    ∀ fs' q,
      known reader' fs' q =
      if decide (q ∈ files ∧ is_Some (FS.stat_size fs q)) then known reader fs q
      else known reader fs' q.
Proof.
  intros Hscan. unfold Indexer._build_new_index. rewrite Hscan.
  destruct files as [|f files].
  - exists RawFileIndex.init, reader, []. split_and!; [done | apply index_repr_init | done |].
    intros fs' q. rewrite decide_False; [done|]. by intros [?%elem_of_nil _].
  - destruct (process_files_spec fs reader (Indexer.completion_order nd) (f :: files))
      as (infos & reader' & Heq & Hperm & Hk).
    rewrite Heq. exists (Indexer.add_all infos RawFileIndex.init), reader', infos.
    split_and!; [done | | done | done].
    apply (add_all_repr infos _ []), index_repr_init.
Qed.

Lemma update_spec fs reader nd index l source_dir recursive files :
  index_repr index l → NoDup (RawFileInfo.path <$> l) →
  FileScanner.scan_raw_files fs source_dir recursive = inr files →
  ∃ index' reader' upd news infos,
    Indexer.update_index_incrementally fs reader nd index source_dir recursive
      = (inr index', reader') ∧
    index_repr index'
      (filter (λ info, RawFileInfo.path info ∈ files ∧ RawFileInfo.path info ∉ upd) l
       ++ infos) ∧
    infos ≡ₚ omap (make_info fs reader) (news ++ upd) ∧
    NoDup news ∧ (∀ p, p ∈ news ↔ p ∈ files ∧ p ∉ RawFileInfo.path <$> l) ∧
    NoDup upd ∧
    (∀ p, p ∈ upd ↔
          p ∈ files ∧ ∃ info st_size,
            info ∈ l ∧ RawFileInfo.path info = p ∧
            FS.stat_size fs p = Some st_size ∧
            RawFileInfo.file_size info ≠ st_size) ∧
    ∀ fs' q,
      known reader' fs' q =
      if decide (q ∈ news ++ upd ∧ is_Some (FS.stat_size fs q)) then known reader fs q
      else known reader fs' q.
Proof.
  intros Hr Hl Hscan. destruct (scan_facts _ _ _ _ _ Hscan) as [Hfiles Hstat].
  unfold Indexer.update_index_incrementally. rewrite Hscan.
  set (current := list_to_set files : gset Path).
  set (existing := list_to_set (RawFileInfo.path <$> RawFileIndex.get_all_files index)
                   : gset Path).
  assert (∀ p, p ∈ existing ↔ p ∈ RawFileInfo.path <$> l) as Hex.
  { intros p. unfold existing. rewrite elem_of_list_to_set.
    by rewrite (index_repr_Permutation _ _ Hr). }
  assert (∀ p, p ∈ current ↔ p ∈ files) as Hcur.
  { intros p. unfold current. by rewrite elem_of_list_to_set. }
  set (dels := Py.shuffle (Indexer.deleted_order nd) (elements (existing ∖ current))).
  set (cands := Py.shuffle (Indexer.candidates_order nd) (elements (current ∩ existing))).
  set (news := Py.shuffle (Indexer.new_order nd) (elements (current ∖ existing))).
  assert (∀ p, p ∈ dels ↔ p ∈ RawFileInfo.path <$> l ∧ p ∉ files) as Hdels.
  { intros p. unfold dels.
    rewrite shuffle_Permutation, elem_of_elements, elem_of_difference, Hex, Hcur. done. }
  assert (NoDup cands ∧ ∀ p, p ∈ cands ↔ p ∈ files ∧ p ∈ RawFileInfo.path <$> l)
    as [Hcands_nd Hcands].
  { unfold cands. split.
    - rewrite shuffle_Permutation. apply NoDup_elements.
    - intros p. rewrite shuffle_Permutation, elem_of_elements, elem_of_intersection,
        Hex, Hcur. done. }
  assert (NoDup news ∧ ∀ p, p ∈ news ↔ p ∈ files ∧ p ∉ RawFileInfo.path <$> l)
    as [Hnews_nd Hnews].
  { unfold news. split.
    - rewrite shuffle_Permutation. apply NoDup_elements.
    - intros p. rewrite shuffle_Permutation, elem_of_elements, elem_of_difference,
        Hex, Hcur. done. }
  set (la := filter (λ info, RawFileInfo.path info ∉ dels) l).
  pose proof (remove_all_repr dels index l Hr) as Hra. fold la in Hra.
  assert (NoDup (RawFileInfo.path <$> la)) as Hla.
  { eapply sublist_NoDup; [exact Hl|]. apply fmap_sublist, sublist_filter. }
  destruct (check_loop fs cands _ [] la Hra Hla Hcands_nd)
    as (index_b & upd & Hloop & Hrb & Hupd_nd & Hupd).
  { intros p Hp. apply Hstat. by apply Hcands. }
  rewrite Hloop. cbn [app].
  assert (∀ info, info ∈ la ↔ info ∈ l ∧ RawFileInfo.path info ∈ files) as Hla_mem.
  { intros info. unfold la. rewrite list_elem_of_filter, Hdels. split.
    - intros [Hnd Hin]. split; [done|].
      destruct (decide (RawFileInfo.path info ∈ files)); [done|].
      destruct Hnd. split; [by apply list_elem_of_fmap_2|done].
    - naive_solver. }
  assert (filter (λ info, RawFileInfo.path info ∉ upd) la
          = filter (λ info, RawFileInfo.path info ∈ files ∧ RawFileInfo.path info ∉ upd) l)
    as Hkept.
  { unfold la. rewrite list_filter_filter. apply filter_ext_elem. intros info Hin.
    rewrite Hdels. split; [|naive_solver].
    intros [Hu Hd]. split; [|done].
    destruct (decide (RawFileInfo.path info ∈ files)); [done|].
    destruct Hd. split; [by apply list_elem_of_fmap_2|done]. }
  rewrite Hkept in Hrb.
  assert (∀ p, p ∈ upd ↔
               p ∈ files ∧ ∃ info st_size,
                 info ∈ l ∧ RawFileInfo.path info = p ∧
                 FS.stat_size fs p = Some st_size ∧
                 RawFileInfo.file_size info ≠ st_size) as Hupd'.
  { intros p. rewrite Hupd, Hcands. split.
    - intros [[Hf _] (info & sz & Hi & ? & ? & ?)]. split; [done|].
      exists info, sz. split_and!; try done. by apply Hla_mem in Hi as [? _].
    - intros [Hf (info & sz & Hi & Hp & ? & ?)]. split.
      + split; [done|]. rewrite <-Hp. by apply list_elem_of_fmap_2.
      + exists info, sz. split_and!; try done. apply Hla_mem. split; [done|].
        by rewrite Hp. }
  destruct (news ++ upd) as [|f rest] eqn:Hproc.
  - exists index_b, reader, upd, news, []. rewrite (right_id_L [] (++)).
    split_and!; try done.
    + by rewrite Hproc.
    + intros fs' q. rewrite decide_False; [done|]. rewrite Hproc.
      by intros [?%elem_of_nil _].
  - destruct (process_files_spec fs reader (Indexer.completion_order nd) (f :: rest))
      as (infos & reader' & Heq & Hperm & Hk).
    rewrite Heq. exists (Indexer.add_all infos index_b), reader', upd, news, infos.
    rewrite Hproc. split_and!; try done. by apply add_all_repr.
Qed.

(** The records a differential update leaves are those of a full build,
    provided the readers agree on the capture times as stated. *)
Lemma records_agree fs0 fs1 reader0 reader_u reader_r
    (files0 files1 : list Path) l0 (upd news : list Path) :
  NoDup files0 → NoDup files1 →
  (∀ p, p ∈ files0 → is_Some (FS.stat_size fs0 p)) →
  (∀ p, p ∈ files1 → is_Some (FS.stat_size fs1 p)) →
  l0 ≡ₚ omap (make_info fs0 reader0) files0 →
  NoDup news → (∀ p, p ∈ news ↔ p ∈ files1 ∧ p ∉ RawFileInfo.path <$> l0) →
  NoDup upd →
  (∀ p, p ∈ upd ↔
        p ∈ files1 ∧ ∃ info st_size,
          info ∈ l0 ∧ RawFileInfo.path info = p ∧
          FS.stat_size fs1 p = Some st_size ∧
          RawFileInfo.file_size info ≠ st_size) →
  (∀ p, p ∈ files0 → p ∈ files1 → FS.stat_size fs0 p = FS.stat_size fs1 p →
        known reader0 fs0 p = known reader_r fs1 p) →
  (∀ p, p ∈ files1 → p ∉ files0 ∨ FS.stat_size fs0 p ≠ FS.stat_size fs1 p →
        known reader_u fs1 p = known reader_r fs1 p) →
  filter (λ info, RawFileInfo.path info ∈ files1 ∧ RawFileInfo.path info ∉ upd) l0
    ++ omap (make_info fs1 reader_u) (news ++ upd)
  ≡ₚ omap (make_info fs1 reader_r) files1.
Proof.
  intros Hf0 Hf1 Hs0 Hs1 Hl0 Hnews_nd Hnews Hupd_nd Hupd Hsame Hdiff.
  assert (∀ info, info ∈ l0 ↔
            ∃ p st_size, p ∈ files0 ∧ FS.stat_size fs0 p = Some st_size ∧
              info = RawFileInfo.mk p (FileScanner.get_basename p)
                                    (known reader0 fs0 p) st_size) as Hl0_mem.
  { intros info. rewrite Hl0, list_elem_of_omap.
    setoid_rewrite make_info_Some. naive_solver. }
  assert (∀ p, p ∈ RawFileInfo.path <$> l0 ↔ p ∈ files0) as Hpaths.
  { intros p. rewrite Hl0, omap_make_info_paths, list_elem_of_filter. naive_solver. }
  assert (NoDup (RawFileInfo.path <$> l0)) as Hl0_nd.
  { rewrite Hl0. by apply omap_make_info_NoDup. }
  assert (∀ p, p ∈ news ++ upd → p ∈ files1 ∧
               known reader_u fs1 p = known reader_r fs1 p) as Hproc.
  { intros p [Hp|Hp]%elem_of_app.
    - apply Hnews in Hp as [Hp1 Hp0]. split; [done|]. apply Hdiff; [done|].
      left. by rewrite <-Hpaths.
    - apply Hupd in Hp as [Hp1 (info & sz & Hi & Hip & Hsz & Hne)].
      split; [done|]. apply Hdiff; [done|]. right.
      apply Hl0_mem in Hi as (p0 & sz0 & Hp0 & Hsz0 & ->). simpl in *. subst p0.
      rewrite Hsz0, Hsz. congruence. }
  assert (NoDup (news ++ upd)) as Hnu.
  { apply NoDup_app. split_and!; [done | | done].
    intros p Hp Hu. apply Hnews in Hp as [_ Hp]. apply Hp.
    apply Hupd in Hu as [_ (info & _ & Hi & <- & _)]. by apply list_elem_of_fmap_2. }
  apply NoDup_Permutation.
  - apply NoDup_app. split_and!.
    + apply NoDup_filter. by eapply NoDup_fmap_1.
    + intros info [[_ Hnu'] Hin]%list_elem_of_filter
        (p & Hp & Hmk)%list_elem_of_omap.
      apply make_info_path in Hmk. subst p.
      apply elem_of_app in Hp as [Hp|Hp]; [|done].
      apply Hnews in Hp as [_ Hp]. apply Hp. by apply list_elem_of_fmap_2.
    + eapply NoDup_fmap_1. by apply omap_make_info_NoDup.
  - eapply NoDup_fmap_1. by apply omap_make_info_NoDup.
  - intros info. rewrite elem_of_app, list_elem_of_filter, !list_elem_of_omap. split.
    + intros [[[Hin1 Hnu'] Hin]|(p & Hp & Hmk)].
      * apply Hl0_mem in Hin as (p & sz0 & Hp0 & Hsz0 & ->). simpl in *.
        exists p. split; [done|]. destruct (Hs1 p Hin1) as [sz1 Hsz1].
        apply make_info_Some. exists sz1. split; [done|].
        assert (sz0 = sz1) as <-.
        { destruct (decide (sz0 = sz1)) as [|Hne]; [done|]. destruct Hnu'.
          apply Hupd. split; [done|].
          exists (RawFileInfo.mk p (FileScanner.get_basename p)
                                 (known reader0 fs0 p) sz0), sz1.
          split_and!; [apply Hl0_mem; eauto | done | done | done]. }
        f_equal. apply Hsame; [done|done|congruence].
      * destruct (Hproc p Hp) as [Hp1 Hk]. exists p. split; [done|].
        rewrite <-Hmk. unfold make_info. by rewrite Hk.
    + intros (p & Hp1 & Hmk).
      destruct (decide (p ∈ news ++ upd)) as [Hp|Hp].
      * right. exists p. split; [done|]. destruct (Hproc p Hp) as [_ Hk].
        rewrite <-Hmk. unfold make_info. by rewrite Hk.
      * left. apply make_info_Some in Hmk as (sz1 & Hsz1 & ->). simpl.
        rewrite not_elem_of_app in Hp. destruct Hp as [Hpn Hpu].
        assert (p ∈ files0) as Hp0.
        { apply Hpaths. destruct (decide (p ∈ RawFileInfo.path <$> l0)); [done|].
          destruct Hpn. by apply Hnews. }
        destruct (Hs0 p Hp0) as [sz0 Hsz0].
        assert (sz0 = sz1) as <-.
        { destruct (decide (sz0 = sz1)) as [|Hne]; [done|]. destruct Hpu.
          apply Hupd. split; [done|].
          exists (RawFileInfo.mk p (FileScanner.get_basename p)
                                 (known reader0 fs0 p) sz0), sz1.
          split_and!; [apply Hl0_mem; eauto | done | done | done]. }
        split; [done|]. apply Hl0_mem. exists p, sz0. split_and!; [done|done|].
        f_equal. symmetry. apply Hsame; [done|done|congruence].
Qed.

Lemma validate_scan fs source_dir recursive :
  PathValidator.validate_directory fs source_dir = inr () →
  ∃ files, FileScanner.scan_raw_files fs source_dir recursive = inr files.
Proof.
  intros Hv. unfold FileScanner.scan_raw_files, FileScanner.scan. rewrite Hv.
  by eexists.
Qed.

Lemma known_empty fs p : known ∅ fs p = ExifReader.extract fs p.
Proof. unfold known. by rewrite lookup_empty. Qed.

(** C1. Let the source directory be valid in the file system states [fs0]
    and [fs1]. A full build on [fs0] followed by a differential update
    against [fs1] returns an index with the same records as a full build
    on [fs1] returns, in whatever order sets are walked and futures
    complete: (1) when one [Indexer], with its reader, makes the three
    calls, whatever its reader has cached before; (2) when each call has a
    fresh reader, provided [fs1] differs from [fs0] by added files, removed
    files and files of another size only. *)
Theorem differential_update_equivalence (fs0 fs1 : FS.t)
    (nd0 nd1 nd2 : Indexer.nondet) (source_dir : Path) (recursive : bool) :
  PathValidator.validate_directory fs0 source_dir = inr () →
  PathValidator.validate_directory fs1 source_dir = inr () →
  (∀ reader0, ∃ index0 reader1 index1 reader2 index2 reader3,
     Indexer._build_new_index fs0 reader0 nd0 source_dir recursive
       = (inr index0, reader1) ∧
     Indexer.update_index_incrementally fs1 reader1 nd1 index0 source_dir recursive
       = (inr index1, reader2) ∧
     Indexer._build_new_index fs1 reader2 nd2 source_dir recursive
       = (inr index2, reader3) ∧
     RawFileIndex.get_all_files index1 ≡ₚ RawFileIndex.get_all_files index2) ∧
  (size_tells fs0 fs1 →
   ∃ index0 reader1 index1 reader2 index2 reader3,
     Indexer._build_new_index fs0 ExifReader.init nd0 source_dir recursive
       = (inr index0, reader1) ∧
     Indexer.update_index_incrementally fs1 ExifReader.init nd1 index0
                                        source_dir recursive
       = (inr index1, reader2) ∧
     Indexer._build_new_index fs1 ExifReader.init nd2 source_dir recursive
       = (inr index2, reader3) ∧
     RawFileIndex.get_all_files index1 ≡ₚ RawFileIndex.get_all_files index2).
Proof.
  intros Hv0 Hv1.
  destruct (validate_scan fs0 source_dir recursive Hv0) as [files0 Hscan0].
  destruct (validate_scan fs1 source_dir recursive Hv1) as [files1 Hscan1].
  destruct (scan_facts _ _ _ _ _ Hscan0) as [Hnd0 Hst0].
  destruct (scan_facts _ _ _ _ _ Hscan1) as [Hnd1 Hst1].
  split.
  - intros reader0.
    destruct (build_spec fs0 reader0 nd0 _ _ _ Hscan0)
      as (index0 & reader1 & l0 & Hb0 & Hr0 & Hl0 & Hk1).
    assert (NoDup (RawFileInfo.path <$> l0)) as Hl0_nd.
    { rewrite Hl0. by apply omap_make_info_NoDup. }
    destruct (update_spec fs1 reader1 nd1 index0 l0 _ _ _ Hr0 Hl0_nd Hscan1)
      as (index1 & reader2 & upd & news & infos & Hu & Hr1 & Hinfos & Hnews_nd &
          Hnews & Hupd_nd & Hupd & Hk2).
    destruct (build_spec fs1 reader2 nd2 _ _ _ Hscan1)
      as (index2 & reader3 & l2 & Hb2 & Hr2 & Hl2 & _).
    exists index0, reader1, index1, reader2, index2, reader3.
    split_and!; [done..|].
    rewrite (index_repr_Permutation _ _ Hr1), (index_repr_Permutation _ _ Hr2).
    rewrite Hinfos, Hl2.
    apply (records_agree fs0 fs1 reader0 reader1 reader2 files0 files1); try done.
    + intros p Hp0 Hp1 Hsz. rewrite Hk2, Hk1.
      destruct (decide (p ∈ news ++ upd ∧ _)); rewrite decide_True; auto.
    + intros p Hp1 _. rewrite Hk2. by case_decide.
  - intros Htells.
    destruct (build_spec fs0 ExifReader.init nd0 _ _ _ Hscan0)
      as (index0 & reader1 & l0 & Hb0 & Hr0 & Hl0 & _).
    assert (NoDup (RawFileInfo.path <$> l0)) as Hl0_nd.
    { rewrite Hl0. by apply omap_make_info_NoDup. }
    destruct (update_spec fs1 ExifReader.init nd1 index0 l0 _ _ _ Hr0 Hl0_nd Hscan1)
      as (index1 & reader2 & upd & news & infos & Hu & Hr1 & Hinfos & Hnews_nd &
          Hnews & Hupd_nd & Hupd & _).
    destruct (build_spec fs1 ExifReader.init nd2 _ _ _ Hscan1)
      as (index2 & reader3 & l2 & Hb2 & Hr2 & Hl2 & _).
    exists index0, reader1, index1, reader2, index2, reader3.
    split_and!; [done..|].
    rewrite (index_repr_Permutation _ _ Hr1), (index_repr_Permutation _ _ Hr2).
    rewrite Hinfos, Hl2.
    apply (records_agree fs0 fs1 ExifReader.init ExifReader.init ExifReader.init
                         files0 files1); try done.
    intros p Hp0 Hp1 Hsz. unfold ExifReader.init.
    rewrite (known_empty fs0), (known_empty fs1). unfold ExifReader.extract.
    destruct (Hst0 p Hp0) as [s0 Hs0]. destruct (Hst1 p Hp1) as [s1 Hs1].
    unfold FS.stat_size in Hsz, Hs0, Hs1.
    destruct (FS.files fs0 !! p) as [f0|] eqn:Hf0; [|done].
    destruct (FS.files fs1 !! p) as [f1|] eqn:Hf1; [|done].
    simpl in Hsz. injection Hsz as Hsz.
    by rewrite (Htells p f0 f1 Hf0 Hf1 Hsz).
Qed.

Lemma before_after_size_tells : size_tells before_fs after_fs.
Proof.
  intros p f0 f1 H0 H1 Hs. unfold before_fs in H0. simpl in H0.
  repeat (apply lookup_insert_Some in H0 as [[<- <-]|[_ H0]]);
    try (by rewrite lookup_empty in H0);
    vm_compute in H1; simplify_eq; by (reflexivity || vm_compute in Hs).
Qed.

Lemma differential_update_equivalence_witness :
  size_tells before_fs after_fs ∧
  ∃ index0 reader1 index1 reader2 index2 reader3,
    Indexer._build_new_index before_fs ExifReader.init some_order raw_dir true
      = (inr index0, reader1) ∧
    Indexer.update_index_incrementally after_fs ExifReader.init given_order index0
                                       raw_dir true
      = (inr index1, reader2) ∧
    Indexer._build_new_index after_fs ExifReader.init some_order raw_dir true
      = (inr index2, reader3) ∧
    RawFileIndex.get_all_files index1 ≡ₚ RawFileIndex.get_all_files index2.
Proof.
  split; [exact before_after_size_tells|].
  exact (proj2 (differential_update_equivalence before_fs after_fs
                  some_order given_order some_order raw_dir true eq_refl eq_refl)
               before_after_size_tells).
Defined.

(** The update of [before_index] against [after_fs], and the full build of
    [after_fs]. *)
Example update_before_after :
  record_view (Indexer.update_index_incrementally after_fs ExifReader.init some_order
                 before_index raw_dir true)
  = [("/raw/A.CR2", "a", Some "2024-01-01T10:00:00", 100);
     ("/raw/B.CR2", "b", Some "2024-01-03T10:00:00", 250);
     ("/raw/D.ARW", "d", Some "2024-01-03T10:00:00", 400)] ∧
  record_view (Indexer._build_new_index after_fs ExifReader.init some_order raw_dir true)
  = [("/raw/D.ARW", "d", Some "2024-01-03T10:00:00", 400);
     ("/raw/B.CR2", "b", Some "2024-01-03T10:00:00", 250);
     ("/raw/A.CR2", "a", Some "2024-01-01T10:00:00", 100)].
Proof. split; compute_done. Qed.

(** Outside the scope of C1: an edit that keeps the size of a file is not
    seen by an update with a fresh reader, since only sizes are compared;
    the record of [B.CR2] keeps the capture time of the first build. *)
Example same_size_edit_not_seen :
  record_view (Indexer.update_index_incrementally same_size_fs ExifReader.init
                 some_order before_index raw_dir true)
  = [("/raw/C.NEF", "c", None, 300);
     ("/raw/B.CR2", "b", Some "2024-01-02T10:00:00", 200);
     ("/raw/A.CR2", "a", Some "2024-01-01T10:00:00", 100)] ∧
  record_view (Indexer._build_new_index same_size_fs ExifReader.init some_order
                 raw_dir true)
  = [("/raw/C.NEF", "c", None, 300);
     ("/raw/B.CR2", "b", Some "2024-01-03T10:00:00", 200);
     ("/raw/A.CR2", "a", Some "2024-01-01T10:00:00", 100)].
Proof. split; compute_done. Qed.

(** ** [build_index] and the cache write *)

Lemma update_returns fs reader nd index source_dir recursive files :
  FileScanner.scan_raw_files fs source_dir recursive = inr files →
  ∃ index' reader',
    Indexer.update_index_incrementally fs reader nd index source_dir recursive
    = (inr index', reader').
Proof.
  intros Hscan. unfold Indexer.update_index_incrementally. rewrite Hscan.
  destruct (foldl (Indexer.check_updated fs) _ _) as [index_b upd].
  destruct (_ ++ upd) as [|f rest]; [by eexists _, _|].
  destruct (Indexer._process_files_parallel _ _ _ _). by eexists _, _.
Qed.

Lemma build_returns fs reader nd source_dir recursive files :
  FileScanner.scan_raw_files fs source_dir recursive = inr files →
  ∃ index' reader',
    Indexer._build_new_index fs reader nd source_dir recursive = (inr index', reader').
Proof.
  intros Hscan.
  destruct (build_spec fs reader nd _ _ _ Hscan) as (index & reader' & _ & H & _).
  by exists index, reader'.
Qed.

(** C4, as the code has it. When the source directory is valid, so that the
    full build or the differential update returns an index, and the write of
    the cache file raises [e], [build_index] raises [ProcessingError],
    chained to the [FileOperationError] that [save_directory_index] raised
    from [e]; it returns no index. *)
Theorem build_index_persistence_failure (fs : FS.t) (self : Indexer.t)
    (nd : Indexer.nondet) (source_dir : Path) (recursive force_rebuild : bool)
    (e : exn) :
  PathValidator.validate_directory fs source_dir = inr () →
  IndexCache.write_fault (Indexer.cache self)
    (IndexCache.get_cache_path (Indexer.cache self) source_dir) = Some e →
  let construction :=
    match (if force_rebuild then None
           else IndexCache.load_directory_index (Indexer.cache self) source_dir) with
    | Some existing_index =>
        Indexer.update_index_incrementally fs (Indexer.exif_reader self) nd
          existing_index source_dir recursive
    | None =>
        Indexer._build_new_index fs (Indexer.exif_reader self) nd source_dir recursive
    end in
  let save_error :=
    ExnFrom FileOperationError
      ("インデックス保存エラー: "
       +:+ path_str (IndexCache.get_cache_path (Indexer.cache self) source_dir)
       +:+ " - " +:+ exn_str e) e in
  (∃ updated_index, construction.1 = inr updated_index) ∧
  (Indexer.build_index fs self nd source_dir recursive force_rebuild).1
  = raise (ExnFrom ProcessingError
             ("インデックス構築エラー: " +:+ path_str source_dir +:+ " - "
              +:+ exn_str save_error) save_error) ∧
  returned (Indexer.build_index fs self nd source_dir recursive force_rebuild).1 = None.
Proof.
  intros Hv Hw. cbv zeta.
  destruct (validate_scan fs source_dir recursive Hv) as [files Hscan].
  assert (∃ updated_index reader,
            match (if force_rebuild then None
                   else IndexCache.load_directory_index (Indexer.cache self) source_dir) with
            | Some existing_index =>
                Indexer.update_index_incrementally fs (Indexer.exif_reader self) nd
                  existing_index source_dir recursive
            | None =>
                Indexer._build_new_index fs (Indexer.exif_reader self) nd source_dir
                  recursive
            end = (inr updated_index, reader)) as (updated_index & reader & Hc).
  { destruct (if force_rebuild then None else _) as [existing|].
    - by eapply update_returns.
    - by eapply build_returns. }
  assert ((Indexer.build_index fs self nd source_dir recursive force_rebuild).1
          = raise (ExnFrom ProcessingError
                     ("インデックス構築エラー: " +:+ path_str source_dir +:+ " - "
                      +:+ exn_str
                            (ExnFrom FileOperationError
                               ("インデックス保存エラー: "
                                +:+ path_str (IndexCache.get_cache_path
                                                (Indexer.cache self) source_dir)
                                +:+ " - " +:+ exn_str e) e))
                     (ExnFrom FileOperationError
                        ("インデックス保存エラー: "
                         +:+ path_str (IndexCache.get_cache_path
                                         (Indexer.cache self) source_dir)
                         +:+ " - " +:+ exn_str e) e))) as Hraise.
  { unfold Indexer.build_index. rewrite Hc.
    unfold IndexCache.save_directory_index. rewrite Hw. done. }
  split_and!.
  - exists updated_index. by rewrite Hc.
  - exact Hraise.
  - by rewrite Hraise.
Qed.

Lemma build_index_persistence_failure_witness :
  raised (Indexer.build_index before_fs full_disk_indexer some_order raw_dir true true).1
  = Some
      (ExnFrom ProcessingError
         "インデックス構築エラー: /raw - インデックス保存エラー: /home/user/.raw_jpeg_matcher/cache/index_0f3a.json - No space left on device"
         (ExnFrom FileOperationError
            "インデックス保存エラー: /home/user/.raw_jpeg_matcher/cache/index_0f3a.json - No space left on device"
            (Exn OSError "No space left on device"))).
Proof.
  pose proof (proj1 (proj2 (build_index_persistence_failure before_fs full_disk_indexer
                       some_order raw_dir true true
                       (Exn OSError "No space left on device") eq_refl eq_refl)))
    as H.
  cbv zeta in H. rewrite H. reflexivity.
Defined.

(** C4 as stated fails: the full build of [before_fs] returns an index, the
    cache write fails, and [build_index] returns nothing; what it raises is
    of class [ProcessingError], as for a source directory that does not
    exist. *)
Lemma persistence_failure_counterexample :
  returned (Indexer._build_new_index before_fs ExifReader.init some_order raw_dir true).1
    = Some before_index ∧
  returned (Indexer.build_index before_fs full_disk_indexer some_order raw_dir true true).1
    = None ∧
  exn_cls <$> raised (Indexer.build_index before_fs full_disk_indexer some_order
                        raw_dir true true).1
    = Some ProcessingError ∧
  exn_cls <$> raised (Indexer.build_index before_fs full_disk_indexer some_order
                        (Path_of "/missing") true true).1
    = Some ProcessingError.
Proof. repeat split; reflexivity. Qed.

(** ** The scenario of the specification, end to end *)

(** [A.CR2] is matched by basename and capture time and copied; [B.JPG]
    has another capture time than [B.CR2] and is left unmatched; [C.JPG]
    has no RAW file. *)
Example end_to_end_scenario :
  match_and_copy scenario_fs (Path_of "/src") (Path_of "/tgt")
  = ([MatchResult.mk (Path_of "/tgt/A.JPG") (Path_of "/src/A.CR2")
                     "basename_and_datetime"],
     CopyResult.mk 1 0 0 [],
     [Path_of "/tgt/A.CR2"; Path_of "/tgt/A.JPG"; Path_of "/tgt/B.JPG";
      Path_of "/tgt/C.JPG"]).
Proof. compute_done. Qed.

(** * Further properties of the code *)

(** ** [RawFileIndex]: the count, the lookups and [remove] *)

Lemma keep_length_le p l : (length (RawFileIndex.keep p l) ≤ length l)%nat.
Proof. apply length_filter. Qed.

Lemma keep_length_lt p l info :
  info ∈ l → RawFileInfo.path info = p →
  (length (RawFileIndex.keep p l) < length l)%nat.
Proof.
  intros Hin Hp. unfold RawFileIndex.keep.
  eapply length_filter_lt; [exact Hin|]. naive_solver.
Qed.

Lemma file_count_bound_from ops index l :
  index_repr index l →
  Z.of_nat (length l) ≤ RawFileIndex.file_count index →
  Z.of_nat (length (foldl live_step l ops))
    ≤ RawFileIndex.file_count (run ops index).
Proof.
  revert index l. induction ops as [|[info|p] ops IH]; intros index l Hr Hle; simpl.
  - done.
  - apply IH; [by apply index_repr_add|]. rewrite length_app. simpl. lia.
  - apply IH; [by apply index_repr_remove|].
    rewrite (remove_file_count _ l) by done.
    destruct (RawFileIndex.remove p index).2 eqn:Hflag.
    + apply (remove_flag _ l) in Hflag as (info & Hin & Hp); [|done].
      pose proof (keep_length_lt p l info Hin Hp). lia.
    + pose proof (keep_length_le p l). lia.
Qed.

(** X1. [file_count] never falls below the number of records held. *)
Theorem file_count_never_undercounts (ops : list op) :
  let index := run ops RawFileIndex.init in
  Z.of_nat (length (RawFileIndex.get_all_files index))
    ≤ RawFileIndex.file_count index.
Proof.
  cbv zeta. rewrite (run_get_all_files ops).
  apply (file_count_bound_from ops RawFileIndex.init []); [apply index_repr_init | done].
Qed.

Lemma keep_one p l info :
  NoDup (RawFileInfo.path <$> l) → info ∈ l → RawFileInfo.path info = p →
  S (length (RawFileIndex.keep p l)) = length l.
Proof.
  intros Hnd Hin Hp. induction l as [|a l IH]; [by apply elem_of_nil in Hin|].
  rewrite fmap_cons in Hnd. apply NoDup_cons in Hnd as [Ha Hnd].
  unfold RawFileIndex.keep in *. rewrite filter_cons.
  apply elem_of_cons in Hin as [->|Hin].
  - rewrite decide_False by naive_solver. simpl. f_equal.
    f_equal. apply filter_all. intros x Hx Hxp. apply Ha.
    rewrite Hp, <-Hxp. by apply list_elem_of_fmap_2.
  - rewrite decide_True.
    + simpl. f_equal. by apply IH.
    + intros Hap. apply Ha. rewrite Hap, <-Hp. by apply list_elem_of_fmap_2.
Qed.

Lemma keep_absent p l :
  p ∉ RawFileInfo.path <$> l → RawFileIndex.keep p l = l.
Proof.
  intros Hp. apply filter_all. intros x Hx Hxp. apply Hp.
  rewrite <-Hxp. by apply list_elem_of_fmap_2.
Qed.

Lemma file_count_exact_from ops index l :
  index_repr index l → NoDup (RawFileInfo.path <$> l) →
  RawFileIndex.file_count index = Z.of_nat (length l) →
  one_record_per_path l ops = true →
  RawFileIndex.file_count (run ops index)
    = Z.of_nat (length (foldl live_step l ops)) ∧
  NoDup (RawFileInfo.path <$> foldl live_step l ops).
Proof.
  revert index l. induction ops as [|[info|p] ops IH]; intros index l Hr Hnd Hc Hd;
    simpl in *.
  - done.
  - apply andb_true_iff in Hd as [Hfresh Hd]. apply bool_decide_eq_true in Hfresh.
    apply IH; [by apply index_repr_add | | | done].
    + rewrite fmap_app. apply NoDup_app. split_and!; [done | | apply NoDup_singleton].
      intros x Hx ->%list_elem_of_singleton. done.
    + rewrite length_app. simpl. lia.
  - apply IH; [by apply index_repr_remove | by apply keep_paths_NoDup | | done].
    rewrite (remove_file_count _ l) by done.
    destruct (RawFileIndex.remove p index).2 eqn:Hflag.
    + apply (remove_flag _ l) in Hflag as (info & Hin & Hp); [|done].
      pose proof (keep_one p l info Hnd Hin Hp). lia.
    + rewrite keep_absent; [lia|].
      intros (info & Hp & Hin)%list_elem_of_fmap.
      assert ((RawFileIndex.remove p index).2 = true) as Ht; [|congruence].
      apply (remove_flag _ l); [done|]. by exists info.
Qed.

(** X2. When no record is added for a path that has a live record,
    [file_count] is the number of records held and the records have
    distinct paths. *)
Theorem file_count_exact (ops : list op) :
  one_record_per_path [] ops = true →
  let index := run ops RawFileIndex.init in
  RawFileIndex.file_count index
    = Z.of_nat (length (RawFileIndex.get_all_files index)) ∧
  NoDup (RawFileInfo.path <$> RawFileIndex.get_all_files index).
Proof.
  intros Hd. cbv zeta. rewrite (run_get_all_files ops).
  apply (file_count_exact_from ops RawFileIndex.init []);
    [apply index_repr_init | constructor | done | done].
Qed.

Lemma file_count_exact_witness :
  one_record_per_path [] [Add raw_a; Add raw_b; Remove a_cr2; Add raw_a_again] = true ∧
  RawFileIndex.file_count
    (run [Add raw_a; Add raw_b; Remove a_cr2; Add raw_a_again] RawFileIndex.init)
  = Z.of_nat (length (RawFileIndex.get_all_files
       (run [Add raw_a; Add raw_b; Remove a_cr2; Add raw_a_again] RawFileIndex.init))).
Proof.
  split; [reflexivity|].
  exact (proj1 (file_count_exact [Add raw_a; Add raw_b; Remove a_cr2; Add raw_a_again]
                  eq_refl)).
Defined.

Lemma find_by_datetime_live ops dt :
  RawFileIndex.find_by_datetime (run ops RawFileIndex.init) dt
  = filter (λ info, RawFileInfo.capture_datetime info = Some dt) (live ops).
Proof.
  destruct (run_repr ops) as [_ [_ Hget]]. unfold RawFileIndex.find_by_datetime.
  rewrite Hget. unfold select. by destruct (filter _ _).
Qed.

Lemma lower_upper_ascii c : Py.lower_ascii (Py.upper_ascii c) = Py.lower_ascii c.
Proof. by destruct c as [[] [] [] [] [] [] [] []]. Qed.

Lemma lower_upper s : Py.lower (Py.upper s) = Py.lower s.
Proof. induction s as [|c s IH]; simpl; [done|]. by rewrite lower_upper_ascii, IH. Qed.

(** X3. On an index built by [add] and [remove], [find_by_basename]
    returns the records whose basename is the query in lower case, in the
    order they were added; a record filed under a basename with an
    upper-case letter is returned for no query. *)
Theorem find_by_basename_exact (ops : list op) (basename : string) :
  let index := run ops RawFileIndex.init in
  RawFileIndex.find_by_basename index basename
    = filter (λ info, RawFileInfo.basename info = Py.lower basename) (live ops) ∧
  (∀ info, info ∈ RawFileIndex.find_by_basename index basename ↔
           info ∈ RawFileIndex.get_all_files index ∧
           RawFileInfo.basename info = Py.lower basename) ∧
  RawFileIndex.find_by_basename index (Py.upper basename)
    = RawFileIndex.find_by_basename index basename ∧
  (∀ info, Py.lower (RawFileInfo.basename info) ≠ RawFileInfo.basename info →
           info ∉ RawFileIndex.find_by_basename index basename).
Proof.
  cbv zeta. rewrite !find_by_basename_live. unfold with_basename.
  assert (∀ info,
            info ∈ filter (λ info, RawFileInfo.basename info = Py.lower basename)
                          (live ops) ↔
            info ∈ RawFileIndex.get_all_files (run ops RawFileIndex.init) ∧
            RawFileInfo.basename info = Py.lower basename) as Hmem.
  { intros info.
    rewrite list_elem_of_filter, (index_repr_mem _ _ info (run_repr ops)).
    naive_solver. }
  split_and!; [done | done | |].
  - by rewrite lower_upper.
  - intros info Hup Hin. apply Hmem in Hin as [_ Hb]. apply Hup.
    rewrite Hb. apply lower_idemp.
Qed.

(** X4. [find_by_datetime] returns the records with that capture time, in
    the order they were added, and [find_by_basename_and_datetime] those of
    them whose basename is the query in lower case. *)
Theorem find_by_datetime_exact (ops : list op) (basename : string) (dt : datetime) :
  let index := run ops RawFileIndex.init in
  RawFileIndex.find_by_datetime index dt
    = filter (λ info, RawFileInfo.capture_datetime info = Some dt) (live ops) ∧
  (∀ info, info ∈ RawFileIndex.find_by_datetime index dt ↔
           info ∈ RawFileIndex.get_all_files index ∧
           RawFileInfo.capture_datetime info = Some dt) ∧
  RawFileIndex.find_by_basename_and_datetime index basename dt
    = filter (λ info, RawFileInfo.basename info = Py.lower basename)
             (RawFileIndex.find_by_datetime index dt) ∧
  (∀ info, info ∈ RawFileIndex.find_by_basename_and_datetime index basename dt ↔
           info ∈ RawFileIndex.get_all_files index ∧
           RawFileInfo.basename info = Py.lower basename ∧
           RawFileInfo.capture_datetime info = Some dt).
Proof.
  cbv zeta. rewrite find_by_datetime_live.
  assert (RawFileIndex.find_by_basename_and_datetime (run ops RawFileIndex.init)
            basename dt
          = filter (λ info, RawFileInfo.basename info = Py.lower basename)
              (filter (λ info, RawFileInfo.capture_datetime info = Some dt) (live ops)))
    as Hboth.
  { unfold RawFileIndex.find_by_basename_and_datetime.
    rewrite find_by_basename_live. unfold with_basename.
    transitivity (filter (λ info, RawFileInfo.capture_datetime info = Some dt)
                    (filter (λ info, RawFileInfo.basename info = Py.lower basename)
                            (live ops))).
    - by destruct (filter _ (live ops)).
    - rewrite !list_filter_filter. apply list_filter_iff. naive_solver. }
  pose proof (λ info, index_repr_mem _ _ info (run_repr ops)) as Hmem.
  split_and!; [done | | done |].
  - intros info. rewrite list_elem_of_filter, Hmem. naive_solver.
  - intros info. rewrite Hboth, !list_elem_of_filter, Hmem. naive_solver.
Qed.

Lemma purge_miss {K} `{EqDecision K} p (d : Py.dict K (list RawFileInfo.t)) :
  hit p d = false → purge p d = d.
Proof.
  unfold hit. induction d as [|[k b] d IH]; [done|]. cbn [existsb snd purge].
  fold (shrinks p b). intros [Hs Hd]%orb_false_iff. rewrite Hs.
  by rewrite (shrinks_false _ _ Hs), IH.
Qed.

Lemma remove_miss index l p :
  index_repr index l → p ∉ RawFileInfo.path <$> l →
  RawFileIndex.remove p index = (index, false).
Proof.
  intros Hr Hp.
  assert ((RawFileIndex.remove p index).2 = false) as Hflag.
  { destruct (RawFileIndex.remove p index).2 eqn:Hf; [|done].
    apply (remove_flag _ l) in Hf as (info & Hin & Hip); [|done].
    destruct Hp. rewrite <-Hip. by apply list_elem_of_fmap_2. }
  destruct Hr as [Hb Hd]. rewrite remove_eq in Hflag |- * by (apply Hb || apply Hd).
  cbn [snd] in Hflag. rewrite Hflag.
  apply orb_false_iff in Hflag as [H1 H2].
  rewrite (purge_miss _ _ H1), (purge_miss _ _ H2). by destruct index.
Qed.

(** X5. [remove] of a path that has no record answers [False] and leaves
    the index as it is; so a second [remove] of the same path does nothing. *)
Theorem remove_absent_path (ops : list op) (file_path : Path) :
  let index := run ops RawFileIndex.init in
  (file_path ∉ RawFileInfo.path <$> RawFileIndex.get_all_files index →
   RawFileIndex.remove file_path index = (index, false)) ∧
  RawFileIndex.remove file_path (RawFileIndex.remove file_path index).1
    = ((RawFileIndex.remove file_path index).1, false).
Proof.
  cbv zeta. pose proof (run_repr ops) as Hr. split.
  - intros Hp. apply (remove_miss _ (live ops)); [done|].
    by rewrite <-(index_repr_Permutation _ _ Hr).
  - apply (remove_miss _ (RawFileIndex.keep file_path (live ops)));
      [by apply index_repr_remove|].
    intros (info & Hp & [Hne _]%list_elem_of_filter)%list_elem_of_fmap. done.
Qed.

(** ** Reading an index back *)




Lemma find_by_basename_repr index l basename :
  index_repr index l →
  RawFileIndex.find_by_basename index basename
  = filter (λ info, RawFileInfo.basename info = Py.lower basename) l.
Proof.
  intros [[_ Hget] _]. unfold RawFileIndex.find_by_basename.
  rewrite Hget, select_basename. unfold with_basename. by destruct (filter _ _).
Qed.




(** ** The scanner: what a scan returns *)

Lemma validate_directory_ok fs path :
  PathValidator.validate_directory fs path = inr () ↔
  FS.is_dir fs path = true ∧ path ∉ FS.unreadable fs.
Proof.
  unfold PathValidator.validate_directory, FS.exists_.
  destruct (FS.is_file fs path), (FS.is_dir fs path); simpl;
    try case_bool_decide; naive_solver.
Qed.

Lemma validate_directory_error fs path e :
  PathValidator.validate_directory fs path = inl e → exn_cls e = ValidationError.
Proof.
  unfold PathValidator.validate_directory.
  repeat (case_match; try done); by intros [= <-].
Qed.

Lemma parts_le_total l1 l2 : Pathlib.parts_le l1 l2 = true ∨ Pathlib.parts_le l2 l1 = true.
Proof.
  revert l2. induction l1 as [|a l1 IH]; intros [|b l2]; simpl; auto.
  rewrite (String.compare_antisym b a).
  destruct (String.compare a b); simpl; auto.
Qed.

Lemma path_le_total : Total Pathlib.path_le.
Proof. intros p q. apply parts_le_total. Qed.

(** X7. A scan raises [ValidationError] unless the directory exists, is a
    directory and can be read. Otherwise it returns, in ascending order and
    without repetition, regular files whose suffix is one of the
    extensions. *)
Theorem scan_result (extensions : gset string) (fs : FS.t) (directory : Path)
    (recursive : bool) :
  match FileScanner.scan extensions fs directory recursive with
  | inl e =>
      ¬ (FS.is_dir fs directory = true ∧ directory ∉ FS.unreadable fs) ∧
      exn_cls e = ValidationError ∧
      PathValidator.validate_directory fs directory = inl e
  | inr files =>
      FS.is_dir fs directory = true ∧ directory ∉ FS.unreadable fs ∧
      NoDup files ∧ Sorted Pathlib.path_le files ∧
      ∀ file_path, file_path ∈ files →
        FS.is_file fs file_path = true ∧ Pathlib.suffix file_path ∈ extensions
  end.
Proof.
  destruct (FileScanner.scan extensions fs directory recursive) as [e|files] eqn:Hscan.
  - unfold FileScanner.scan in Hscan.
    destruct (PathValidator.validate_directory fs directory) as [e'|[]] eqn:Hv;
      [|done].
    simpl in Hscan. injection Hscan as ->. split_and!; [|by eapply validate_directory_error|done].
    rewrite <-validate_directory_ok, Hv. done.
  - destruct (scan_facts _ _ _ _ _ Hscan) as [Hnd _].
    assert (PathValidator.validate_directory fs directory = inr ()) as Hv.
    { unfold FileScanner.scan in Hscan.
      by destruct (PathValidator.validate_directory fs directory) as [e'|[]]. }
    apply validate_directory_ok in Hv as [Hd Hr]. split_and!; [done..| |].
    + unfold FileScanner.scan in Hscan.
      destruct (PathValidator.validate_directory fs directory) as [e'|[]]; [done|].
      simpl in Hscan. injection Hscan as <-. apply (@Sorted_merge_sort _ Pathlib.path_le _ path_le_total).
    + intros p Hp. by apply (scan_spec _ _ _ _ _ p Hscan) in Hp as (_ & ? & ?).
Qed.

(** X8. No path is both a RAW file and a JPEG file, so that no file is
    returned by both a RAW scan and a JPEG scan. *)
Theorem raw_and_jpeg_are_disjoint :
  (∀ file_path, FileScanner.is_raw_file file_path = true →
                FileScanner.is_jpeg_file file_path = false) ∧
  (∀ fs raw_dir jpeg_dir recursive recursive' raw_files jpeg_files,
     FileScanner.scan_raw_files fs raw_dir recursive = inr raw_files →
     FileScanner.scan_jpeg_files fs jpeg_dir recursive' = inr jpeg_files →
     ∀ file_path, file_path ∈ raw_files → file_path ∉ jpeg_files).
Proof.
  assert (∀ e, e ∈ FileScanner.RAW_EXTENSIONS → e ∉ FileScanner.JPEG_EXTENSIONS) as Hd.
  { intros e Hr Hj. unfold FileScanner.RAW_EXTENSIONS in Hr.
    apply elem_of_list_to_set in Hr.
    repeat (apply elem_of_cons in Hr as [->|Hr]; [by vm_compute in Hj|]).
    by apply elem_of_nil in Hr. }
  split.
  - intros p. unfold FileScanner.is_raw_file, FileScanner.is_jpeg_file.
    rewrite bool_decide_eq_true, bool_decide_eq_false. apply Hd.
  - intros fs d1 d2 r1 r2 raws jpegs H1 H2 p Hp Hq.
    apply (scan_spec _ _ _ _ _ p H1) in Hp as (_ & _ & Hp).
    apply (scan_spec _ _ _ _ _ p H2) in Hq as (_ & _ & Hq).
    by apply (Hd _ Hp).
Qed.

(** ** The basename of a file name *)

Lemma rfind_None c s : Pathlib.rfind c s = None ↔ c ∉ list_ascii_of_string s.
Proof.
  induction s as [|a s IH]; simpl.
  - split; [intros _; apply not_elem_of_nil | done].
  - rewrite not_elem_of_cons, <-IH.
    destruct (Pathlib.rfind c s); [naive_solver|]. case_decide; naive_solver.
Qed.

Lemma append_nil_l s : "" +:+ s = s.
Proof. reflexivity. Qed.

Lemma append_cons a s t : String a s +:+ t = String a (s +:+ t).
Proof. reflexivity. Qed.

Lemma rfind_app c s1 s2 :
  Pathlib.rfind c (s1 +:+ s2) =
  match Pathlib.rfind c s2 with
  | Some i => Some (String.length s1 + i)%nat
  | None => Pathlib.rfind c s1
  end.
Proof.
  induction s1 as [|a s1 IH]; rewrite ?append_nil_l, ?append_cons; simpl.
  - by destruct (Pathlib.rfind c s2).
  - rewrite IH. by destruct (Pathlib.rfind c s2).
Qed.

Lemma rfind_last c s1 s2 :
  c ∉ list_ascii_of_string s2 →
  Pathlib.rfind c (s1 +:+ String c s2) = Some (String.length s1).
Proof.
  intros Hc%rfind_None. rewrite rfind_app. simpl. rewrite Hc, decide_True by done.
  f_equal. lia.
Qed.

Lemma length_append s1 s2 :
  String.length (s1 +:+ s2) = (String.length s1 + String.length s2)%nat.
Proof.
  induction s1 as [|a s1 IH]; rewrite ?append_nil_l, ?append_cons; simpl; [done|].
  by rewrite IH.
Qed.

Lemma substring_all s : substring 0 (String.length s) s = s.
Proof. induction s as [|a s IH]; simpl; [done|]. by rewrite IH. Qed.

Lemma substring_head s1 s2 : substring 0 (String.length s1) (s1 +:+ s2) = s1.
Proof.
  induction s1 as [|a s1 IH]; rewrite ?append_nil_l, ?append_cons; simpl;
    [by destruct s2|].
  by rewrite IH.
Qed.

Lemma substring_tail s1 s2 :
  substring (String.length s1) (String.length s2) (s1 +:+ s2) = s2.
Proof.
  induction s1 as [|a s1 IH]; rewrite ?append_nil_l, ?append_cons; simpl;
    [apply substring_all | done].
Qed.

Lemma path_str_joinpath directory name :
  path_str (Pathlib.joinpath directory name) = path_str directory +:+ "/" +:+ name.
Proof.
  unfold Pathlib.joinpath, Path_of.
  destruct (decide (path_str directory +:+ "/" +:+ name ≠ "")) as [H|H]; [done|].
  destruct H. pose proof (proj2_dsig directory) as Hd. unfold path_str.
  by destruct (`directory).
Qed.

Lemma name_joinpath directory name :
  "/"%char ∉ list_ascii_of_string name →
  Pathlib.name (Pathlib.joinpath directory name) = name.
Proof.
  intros Hn. unfold Pathlib.name. rewrite path_str_joinpath.
  change (path_str directory +:+ "/" +:+ name)
    with (path_str directory +:+ String "/" name).
  rewrite rfind_last by done.
  replace (String.length (path_str directory +:+ String "/" name)
           - S (String.length (path_str directory)))%nat
    with (String.length name) by (rewrite length_append; simpl; lia).
  replace (path_str directory +:+ String "/" name)
    with ((path_str directory +:+ "/") +:+ name).
  - replace (S (String.length (path_str directory)))
      with (String.length (path_str directory +:+ "/"))
      by (rewrite length_append; simpl; lia).
    apply substring_tail.
  - induction (path_str directory) as [|a s IH];
      rewrite ?append_nil_l, ?append_cons; [done|]. by rewrite IH.
Qed.



(** ** The reader's cache *)

(** X10. After [read_capture_datetime] the path is cached, whether or not
    the file exists; every later read of it by the same reader gives the
    same answer, whatever has become of the file, and leaves the cache as it
    is. A path read for the first time adds one entry, a cached one none.
    After [clear_cache] the cache is empty and a read looks at the file
    again. *)
Theorem reader_cache_is_sticky (fs fs' : FS.t) (reader : ExifReader.t)
    (file_path : Path) :
  let capture_datetime := (ExifReader.read_capture_datetime fs reader file_path).1 in
  let reader' := (ExifReader.read_capture_datetime fs reader file_path).2 in
  ExifReader.is_cached reader' file_path = true ∧
  ExifReader.read_capture_datetime fs' reader' file_path = (capture_datetime, reader') ∧
  (ExifReader.is_cached reader file_path = false →
   capture_datetime = ExifReader.extract fs file_path ∧
   ExifReader.get_cache_size reader' = ExifReader.get_cache_size reader + 1) ∧
  (ExifReader.is_cached reader file_path = true → reader' = reader) ∧
  ExifReader.get_cache_size (ExifReader.clear_cache reader') = 0 ∧
  ExifReader.is_cached (ExifReader.clear_cache reader') file_path = false ∧
  (ExifReader.read_capture_datetime fs' (ExifReader.clear_cache reader') file_path).1
    = ExifReader.extract fs' file_path.
Proof.
  cbv zeta. unfold ExifReader.is_cached, ExifReader.get_cache_size,
    ExifReader.clear_cache.
  rewrite !bool_decide_eq_true, !bool_decide_eq_false, !elem_of_dom.
  rewrite (read_spec fs reader). cbn [fst snd]. split_and!.
  - rewrite lookup_insert_eq. by eexists.
  - unfold ExifReader.read_capture_datetime. by rewrite lookup_insert_eq.
  - intros Hn. apply eq_None_not_Some in Hn. unfold known. rewrite Hn. simpl.
    split; [done|]. rewrite map_size_insert_None by done. lia.
  - intros [c Hc]. unfold known. rewrite Hc. simpl. by apply insert_id.
  - by rewrite map_size_empty.
  - rewrite lookup_empty. by intros [? ?].
  - unfold ExifReader.read_capture_datetime. by rewrite lookup_empty.
Qed.

(** ** Matching the files of a directory *)

Lemma create_jpeg_info_spec fs reader jpeg_path :
  Matcher._create_jpeg_info fs reader jpeg_path
  = (jpeg_info_of fs reader jpeg_path,
     <[jpeg_path := known reader fs jpeg_path]> reader).
Proof. unfold Matcher._create_jpeg_info. by rewrite read_spec. Qed.

Lemma jpeg_info_of_insert fs reader p q :
  jpeg_info_of fs (<[p := known reader fs p]> reader) q = jpeg_info_of fs reader q.
Proof. unfold jpeg_info_of. rewrite known_insert. case_decide; by subst. Qed.

(** What [find_matches] computes: each file is looked up with the capture
    time the reader had or finds for it. *)
Lemma find_matches_omap fs reader index jpeg_files :
  (Matcher.find_matches fs reader index jpeg_files).1
  = omap (λ jpeg_path,
            Matcher._find_matching_raw index (jpeg_info_of fs reader jpeg_path))
         jpeg_files.
Proof.
  revert reader. induction jpeg_files as [|p ps IH]; intros reader; [done|].
  cbn [Matcher.find_matches]. rewrite create_jpeg_info_spec.
  specialize (IH (<[p := known reader fs p]> reader)).
  destruct (Matcher.find_matches fs _ index ps) as [matches reader'].
  cbn [fst] in *. cbn [omap list_omap]. rewrite IH.
  rewrite (omap_ext_fun _ (λ jpeg_path,
             Matcher._find_matching_raw index (jpeg_info_of fs reader jpeg_path)))
    by (intros q; by rewrite jpeg_info_of_insert).
  by destruct (Matcher._find_matching_raw index (jpeg_info_of fs reader p)).
Qed.

Lemma find_matching_raw_jpeg_path index jpeg_info m :
  Matcher._find_matching_raw index jpeg_info = Some m →
  MatchResult.jpeg_path m = JpegFileInfo.path jpeg_info.
Proof.
  unfold Matcher._find_matching_raw.
  repeat (case_match; try done); by intros [= <-].
Qed.

Lemma omap_sublist {A B} (f : A → option B) (g : B → A) (l : list A) :
  (∀ x y, f x = Some y → g y = x) → g <$> omap f l `sublist_of` l.
Proof.
  intros Hfg. induction l as [|a l IH]; [done|]. cbn [omap list_omap].
  destruct (f a) as [b|] eqn:Hb.
  - rewrite fmap_cons, (Hfg _ _ Hb). by constructor.
  - by constructor.
Qed.

(** The answer for one JPEG record, on an index built by [add] and
    [remove]. *)
Lemma find_matching_raw_spec ops jpeg_info :
  Py.lower (JpegFileInfo.basename jpeg_info) = JpegFileInfo.basename jpeg_info →
  let index := run ops RawFileIndex.init in
  let fits raw_info :=
    raw_info ∈ RawFileIndex.get_all_files index ∧
    RawFileInfo.basename raw_info = JpegFileInfo.basename jpeg_info ∧
    (∀ dt, JpegFileInfo.capture_datetime jpeg_info = Some dt →
           RawFileInfo.capture_datetime raw_info = Some dt) in
  (∀ m, Matcher._find_matching_raw index jpeg_info = Some m →
        MatchResult.jpeg_path m = JpegFileInfo.path jpeg_info ∧
        MatchResult.match_method m
          = (if JpegFileInfo.capture_datetime jpeg_info
             then "basename_and_datetime" else "basename_only") ∧
        ∃ raw_info, fits raw_info ∧ MatchResult.raw_path m = RawFileInfo.path raw_info) ∧
  (is_Some (Matcher._find_matching_raw index jpeg_info) ↔ ∃ raw_info, fits raw_info).
Proof.
  intros Hlow. cbv zeta.
  pose proof (λ info, index_repr_mem _ _ info (run_repr ops)) as Hmem.
  unfold Matcher._find_matching_raw. rewrite find_by_basename_live, Hlow.
  unfold with_basename.
  set (cands := filter (λ info, RawFileInfo.basename info
                                = JpegFileInfo.basename jpeg_info) (live ops)).
  assert (∀ r, r ∈ cands ↔
               r ∈ RawFileIndex.get_all_files (run ops RawFileIndex.init) ∧
               RawFileInfo.basename r = JpegFileInfo.basename jpeg_info) as Hc.
  { intros r. unfold cands. rewrite list_elem_of_filter, Hmem. naive_solver. }
  destruct (JpegFileInfo.capture_datetime jpeg_info) as [jd|] eqn:Hjd.
  - set (hits := filter (λ raw_info, RawFileInfo.capture_datetime raw_info = Some jd)
                        cands).
    assert (∀ r, r ∈ hits ↔ r ∈ cands ∧ RawFileInfo.capture_datetime r = Some jd)
      as Hh by (intros r; unfold hits; rewrite list_elem_of_filter; naive_solver).
    assert (match cands with
            | [] => None
            | _ :: _ =>
                match hits with
                | selected_raw :: _ =>
                    Some (MatchResult.mk (JpegFileInfo.path jpeg_info)
                            (RawFileInfo.path selected_raw) "basename_and_datetime")
                | [] => None
                end
            end =
            match hits with
            | selected_raw :: _ =>
                Some (MatchResult.mk (JpegFileInfo.path jpeg_info)
                        (RawFileInfo.path selected_raw) "basename_and_datetime")
            | [] => None
            end) as ->.
    { unfold hits. by destruct cands. }
    destruct hits as [|r hits'] eqn:Hhits.
    + split; [done|]. split; [by intros [? ?]|].
      intros (r & Hr & Hb & Hd). exfalso.
      assert (r ∈ []) as Hin; [|by apply elem_of_nil in Hin].
      apply Hh. split; [apply Hc; done | by apply Hd].
    + assert (r ∈ cands ∧ RawFileInfo.capture_datetime r = Some jd) as [Hrc Hrd]
        by (apply Hh; left).
      apply Hc in Hrc as [Hr1 Hr2]. split.
      * intros m [= <-]. simpl. split_and!; [done..|].
        exists r. split_and!; [done | done | | done]. by intros dt [= <-].
      * split; [|by eauto]. intros _. exists r. split_and!; [done..|].
        by intros dt [= <-].
  - destruct cands as [|r cands'] eqn:Hcands.
    + split; [done|]. split; [by intros [? ?]|].
      intros (r & Hr & Hb & _). exfalso.
      assert (r ∈ []) as Hin; [|by apply elem_of_nil in Hin]. by apply Hc.
    + assert (r ∈ RawFileIndex.get_all_files (run ops RawFileIndex.init) ∧
              RawFileInfo.basename r = JpegFileInfo.basename jpeg_info) as [Hr1 Hr2]
        by (apply Hc; left).
      split.
      * intros m [= <-]. simpl. split_and!; [done..|].
        exists r. split_and!; done.
      * split; [|by eauto]. intros _. exists r. split_and!; done.
Qed.

(** X11. [find_matches] on an index built by [add] and [remove]: it
    answers at most one match per JPEG file, in the order of the files; a
    match names a record of the index that has the basename of the JPEG
    file and, when the JPEG file has a capture time, that capture time; and
    a JPEG file gets a match exactly when the index holds such a record. *)
Theorem find_matches_exact (fs : FS.t) (reader : ExifReader.t) (ops : list op)
    (jpeg_files : list Path) :
  let index := run ops RawFileIndex.init in
  let matches := (Matcher.find_matches fs reader index jpeg_files).1 in
  let fits jpeg_path raw_info :=
    raw_info ∈ RawFileIndex.get_all_files index ∧
    RawFileInfo.basename raw_info = FileScanner.get_basename jpeg_path ∧
    (∀ dt, known reader fs jpeg_path = Some dt →
           RawFileInfo.capture_datetime raw_info = Some dt) in
  MatchResult.jpeg_path <$> matches `sublist_of` jpeg_files ∧
  (∀ m, m ∈ matches →
        MatchResult.jpeg_path m ∈ jpeg_files ∧
        MatchResult.match_method m
          = (if known reader fs (MatchResult.jpeg_path m)
             then "basename_and_datetime" else "basename_only") ∧
        ∃ raw_info, fits (MatchResult.jpeg_path m) raw_info ∧
                    MatchResult.raw_path m = RawFileInfo.path raw_info) ∧
  (∀ jpeg_path, jpeg_path ∈ jpeg_files →
     (∃ m, m ∈ matches ∧ MatchResult.jpeg_path m = jpeg_path) ↔
     ∃ raw_info, fits jpeg_path raw_info).
Proof.
  cbv zeta. rewrite find_matches_omap.
  assert (∀ p, Py.lower (JpegFileInfo.basename (jpeg_info_of fs reader p))
               = JpegFileInfo.basename (jpeg_info_of fs reader p)) as Hlow.
  { intros p. apply lower_idemp. }
  split_and!.
  - apply omap_sublist. intros p m Hm.
    by apply find_matching_raw_jpeg_path in Hm.
  - intros m (p & Hp & Hm)%list_elem_of_omap.
    destruct (find_matching_raw_spec ops (jpeg_info_of fs reader p) (Hlow p))
      as [Hsound _].
    destruct (Hsound m Hm) as (Hjp & Hmeth & r & Hr & Hrp). simpl in *.
    rewrite Hjp. split_and!; [done | done |]. by exists r.
  - intros p Hp.
    destruct (find_matching_raw_spec ops (jpeg_info_of fs reader p) (Hlow p))
      as [Hsound Hiff].
    simpl in Hiff. rewrite <-Hiff. split.
    + intros (m & (q & Hq & Hm)%list_elem_of_omap & Hmp).
      pose proof (find_matching_raw_jpeg_path _ _ _ Hm) as Hjq. simpl in Hjq.
      assert (q = p) as -> by congruence. by eexists.
    + intros [m Hm]. exists m. split.
      * apply list_elem_of_omap. by exists p.
      * by apply find_matching_raw_jpeg_path in Hm.
Qed.

Lemma find_matches_cons fs reader index p ps :
  Matcher.find_matches fs reader index (p :: ps)
  = let '(m1, reader1) := Matcher.find_matches fs reader index [p] in
    let '(m2, reader2) := Matcher.find_matches fs reader1 index ps in
    (m1 ++ m2, reader2).
Proof.
  cbn [Matcher.find_matches].
  destruct (Matcher._create_jpeg_info fs reader p) as [info reader1].
  destruct (Matcher.find_matches fs reader1 index ps) as [m2 reader2].
  by destruct (Matcher._find_matching_raw index info).
Qed.

Lemma match_each_loop fs index acc reader jpeg_files :
  foldl (MatchManager.match_each fs index) (acc, reader) jpeg_files
  = (acc ++ (Matcher.find_matches fs reader index jpeg_files).1,
     (Matcher.find_matches fs reader index jpeg_files).2).
Proof.
  revert acc reader. induction jpeg_files as [|p ps IH]; intros acc reader.
  - simpl. by rewrite (right_id_L [] (++)).
  - cbn [foldl]. rewrite find_matches_cons. unfold MatchManager.match_each at 2.
    destruct (Matcher.find_matches fs reader index [p]) as [m1 reader1].
    rewrite IH.
    destruct (Matcher.find_matches fs reader1 index ps) as [m2 reader2].
    simpl. by rewrite (assoc_L (++)).
Qed.

(** X12. [find_matches] on a list is [find_matches] on its parts, one
    after the other with the same reader; so the loop of
    [find_and_copy_matches], which calls it once per JPEG file, gathers the
    matches of one call on all the files. *)
Theorem find_matches_one_by_one (fs : FS.t) (reader : ExifReader.t)
    (index : RawFileIndex.t) (jpeg_files more_files : list Path) :
  Matcher.find_matches fs reader index (jpeg_files ++ more_files)
  = (let '(matches, reader) := Matcher.find_matches fs reader index jpeg_files in
     let '(more, reader) := Matcher.find_matches fs reader index more_files in
     (matches ++ more, reader)) ∧
  foldl (MatchManager.match_each fs index) ([], reader) jpeg_files
  = Matcher.find_matches fs reader index jpeg_files.
Proof.
  split.
  - revert reader. induction jpeg_files as [|p ps IH]; intros reader.
    + simpl. by destruct (Matcher.find_matches fs reader index more_files).
    + rewrite <-app_comm_cons, (find_matches_cons _ _ _ p (ps ++ more_files)),
        (find_matches_cons _ _ _ p ps).
      destruct (Matcher.find_matches fs reader index [p]) as [m1 reader1].
      rewrite IH.
      destruct (Matcher.find_matches fs reader1 index ps) as [m2 reader2].
      destruct (Matcher.find_matches fs reader2 index more_files) as [m3 reader3].
      by rewrite (assoc_L (++)).
  - rewrite match_each_loop. simpl.
    by destruct (Matcher.find_matches fs reader index jpeg_files).
Qed.

Lemma filter_two_length {A} (P Q : A → Prop) `{∀ x, Decision (P x)}
    `{∀ x, Decision (Q x)} (l : list A) :
  (∀ x, x ∈ l → P x → Q x → False) →
  (length (filter P l) + length (filter Q l) ≤ length l)%nat ∧
  ((∀ x, x ∈ l → P x ∨ Q x) →
   (length (filter P l) + length (filter Q l) = length l)%nat).
Proof.
  induction l as [|a l IH]; intros Hd; [done|].
  destruct IH as [IH1 IH2]; [intros x Hx; apply Hd; by right|].
  rewrite !filter_cons. assert (P a → Q a → False) as Ha by (apply Hd; left).
  split.
  - repeat case_decide; simpl; try lia. naive_solver.
  - intros Hall. destruct (Hall a) as [HP|HQ]; [by left| |].
    + rewrite decide_True by done. rewrite decide_False by naive_solver. simpl.
      rewrite <-IH2; [lia|]. intros x Hx. apply Hall. by right.
    + rewrite decide_False by naive_solver. rewrite decide_True by done. simpl.
      rewrite <-IH2; [lia|]. intros x Hx. apply Hall. by right.
Qed.

(** X13. In the statistics of [get_match_statistics] the two method counts
    never exceed the total, and for the matches [find_matches] returns they
    add up to it. *)
Theorem match_statistics_add_up (matches : list MatchResult.t) :
  let stats := Matcher.get_match_statistics matches in
  ∃ with_datetime basename_only,
    Py.get stats "total_matches" = Some (Z.of_nat (length matches)) ∧
    Py.get stats "basename_and_datetime_matches" = Some with_datetime ∧
    Py.get stats "basename_only_matches" = Some basename_only ∧
    0 ≤ with_datetime ∧ 0 ≤ basename_only ∧
    with_datetime + basename_only ≤ Z.of_nat (length matches) ∧
    (∀ fs reader index jpeg_files,
       matches = (Matcher.find_matches fs reader index jpeg_files).1 →
       with_datetime + basename_only = Z.of_nat (length matches)).
Proof.
  cbv zeta. unfold Matcher.get_match_statistics. eexists _, _.
  split_and!; [reflexivity | reflexivity | reflexivity | lia | lia | |].
  - pose proof (filter_two_length
                  (λ m, MatchResult.match_method m = "basename_and_datetime")
                  (λ m, MatchResult.match_method m = "basename_only") matches) as [H _].
    { intros m _ H1 H2. congruence. }
    lia.
  - intros fs reader index jpeg_files ->. rewrite find_matches_omap.
    pose proof (filter_two_length
                  (λ m, MatchResult.match_method m = "basename_and_datetime")
                  (λ m, MatchResult.match_method m = "basename_only")
                  (omap (λ jpeg_path, Matcher._find_matching_raw index
                                        (jpeg_info_of fs reader jpeg_path))
                        jpeg_files)) as [_ H].
    { intros m _ H1 H2. congruence. }
    rewrite <-H; [lia|].
    intros m (p & _ & Hm)%list_elem_of_omap. revert Hm.
    unfold Matcher._find_matching_raw.
    repeat (case_match; try done); intros [= <-]; simpl; auto.
Qed.

(** ** The copier: what a copy changes *)

Lemma exists_files fs p f : FS.files fs !! p = Some f → FS.exists_ fs p = true.
Proof.
  intros Hf. unfold FS.exists_, FS.is_file. rewrite bool_decide_eq_true_2; [done|].
  apply elem_of_dom. by eexists.
Qed.

Lemma exists_false fs p : FS.exists_ fs p = false → FS.files fs !! p = None.
Proof.
  unfold FS.exists_, FS.is_file. intros [H _]%orb_false_iff.
  apply bool_decide_eq_false in H. by apply not_elem_of_dom.
Qed.

(** One call of [_copy_single_file_with_error]: either it copies, into a
    path that did not exist, a file for which the free space, when known,
    leaves the margin; or it leaves the file system as it is and answers
    [skipped], [failed] with a message, or raises. *)
Lemma copy_single_cases fs match_ target_dir :
  let source_path := MatchResult.raw_path match_ in
  let target_path := target_of target_dir match_ in
  let outcome := (Copier._copy_single_file_with_error fs match_ target_dir).1 in
  let fs' := (Copier._copy_single_file_with_error fs match_ target_dir).2 in
  (outcome = inr ("success", None) ∧
   FS.exists_ fs target_path = false ∧
   ∃ f, FS.files fs !! source_path = Some f ∧
        FS.copy_fault fs source_path = None ∧
        (∀ free, FS.free fs = Some free → FS.st_size f + safety_margin ≤ free) ∧
        fs' = FS.mk (<[target_path := f]> (FS.files fs)) (FS.dirs fs)
                    (FS.unreadable fs) ((λ b, b - FS.st_size f) <$> FS.free fs)
                    (FS.mkdir_fault fs) (FS.copy_fault fs)) ∨
  (fs' = fs ∧ settled target_dir fs match_ ∧
   (outcome = inr ("skipped", None) ∨
    (∃ error_msg, outcome = inr ("failed", Some error_msg) ∧ error_msg ≠ "") ∨
    (∃ e, outcome = inl e))).
Proof.
  cbv zeta. unfold Copier._copy_single_file_with_error, settled, target_of.
  set (src := MatchResult.raw_path match_).
  set (dst := Pathlib.joinpath target_dir (Pathlib.name src)).
  destruct (FS.exists_ fs src) eqn:Hsrc; simpl.
  2:{ right. split; [done|]. split; [apply exists_false in Hsrc; auto|].
      right. left. by eexists. }
  destruct (FS.exists_ fs dst) eqn:Hdst; simpl.
  { right. split; [done|]. split; [auto|]. by left. }
  destruct (FS.stat_size fs src) as [sz|] eqn:Hsz.
  - unfold FS.stat_size in Hsz. destruct (FS.files fs !! src) as [f|] eqn:Hf; [|done].
    simpl in Hsz. injection Hsz as <-.
    unfold Copier._check_disk_space.
    destruct (FS.free fs) as [fr|] eqn:Hfr.
    + case_decide as Hlt; simpl.
      { right. split; [done|]. split.
        - do 3 right. left. exists f, fr. unfold safety_margin. done.
        - right. left. by eexists. }
      unfold FS.copy2. destruct (FS.copy_fault fs src) as [e|] eqn:He; simpl.
      { assert (is_Some (Some e)) as Hsome by (by eexists).
        destruct (exn_cls e); simpl; right; (split; [done|]);
          (split; [by do 4 right|]); right;
          try (right; by eexists); left; eexists; (split; [done|]); done. }
      rewrite Hf. simpl. left. split_and!; [done..|].
      exists f. split_and!; [done | done | | by rewrite Hfr].
      intros ? [= <-]. unfold safety_margin. lia.
    + simpl. unfold FS.copy2.
      destruct (FS.copy_fault fs src) as [e|] eqn:He; simpl.
      { assert (is_Some (Some e)) as Hsome by (by eexists).
        destruct (exn_cls e); simpl; right; (split; [done|]);
          (split; [by do 4 right|]); right;
          try (right; by eexists); left; eexists; (split; [done|]); done. }
      rewrite Hf. simpl. left. split_and!; [done..|].
      exists f. split_and!; [done | done | done | by rewrite Hfr].
  - simpl. unfold FS.copy2.
    destruct (FS.copy_fault fs src) as [e|] eqn:He; simpl.
    { assert (is_Some (Some e)) as Hsome by (by eexists).
      destruct (exn_cls e); simpl; right; (split; [done|]);
        (split; [by do 4 right|]); right;
        try (right; by eexists); left; eexists; (split; [done|]); done. }
    unfold FS.stat_size in Hsz. destruct (FS.files fs !! src) as [f|] eqn:Hf; [done|].
    simpl. right. split; [done|]. split; [auto|]. right. left. by eexists.
Qed.

Lemma copy_step_cases target_dir a fs match_ :
  let a' := (Copier.copy_step target_dir (a, fs) match_).1 in
  let fs' := (Copier.copy_step target_dir (a, fs) match_).2 in
  (a' = Copier.Acc (Copier.success_count a + 1) (Copier.skipped_count a)
                   (Copier.failed_count a) (Copier.errors a) ∧
   FS.exists_ fs (target_of target_dir match_) = false ∧
   ∃ f, FS.files fs !! MatchResult.raw_path match_ = Some f ∧
        FS.copy_fault fs (MatchResult.raw_path match_) = None ∧
        (∀ free, FS.free fs = Some free → FS.st_size f + safety_margin ≤ free) ∧
        fs' = FS.mk (<[target_of target_dir match_ := f]> (FS.files fs)) (FS.dirs fs)
                    (FS.unreadable fs) ((λ b, b - FS.st_size f) <$> FS.free fs)
                    (FS.mkdir_fault fs) (FS.copy_fault fs)) ∨
  (fs' = fs ∧ settled target_dir fs match_ ∧
   (a' = Copier.Acc (Copier.success_count a) (Copier.skipped_count a + 1)
                    (Copier.failed_count a) (Copier.errors a) ∨
    ∃ error_msg,
      error_msg ≠ "" ∧
      a' = Copier.Acc (Copier.success_count a) (Copier.skipped_count a)
                      (Copier.failed_count a + 1)
                      (Copier.errors a ++ [(MatchResult.raw_path match_, error_msg)]))).
Proof.
  cbv zeta. pose proof (copy_single_cases fs match_ target_dir) as H.
  cbv zeta in H. unfold Copier.copy_step.
  destruct (Copier._copy_single_file_with_error fs match_ target_dir)
    as [outcome fs1]. cbn [fst snd] in H.
  destruct H as [(-> & Hdst & f & Hf & Hcf & Hfree & ->)
                |(-> & Hset & [->|[(msg & -> & Hmsg)|[e ->]]])].
  - left. simpl. split_and!; [done..|]. by exists f.
  - right. simpl. split_and!; [done..|]. by left.
  - right. rewrite decide_False by done. rewrite decide_False by done.
    cbn [fst snd]. split_and!; [done..|]. right. exists msg. split; [done|].
    unfold Py.truthy. by rewrite decide_False.
  - right. simpl. split_and!; [done..|]. right. eexists. split; [|done]. done.
Qed.

Lemma copied_into_refl target_dir matches fs : copied_into target_dir matches fs fs.
Proof. split_and!; try done. intros p f Hf Hn. congruence. Qed.

Lemma copied_into_step target_dir match_ matches fs f :
  FS.exists_ fs (target_of target_dir match_) = false →
  FS.files fs !! MatchResult.raw_path match_ = Some f →
  copied_into target_dir (match_ :: matches) fs
    (FS.mk (<[target_of target_dir match_ := f]> (FS.files fs)) (FS.dirs fs)
           (FS.unreadable fs) ((λ b, b - FS.st_size f) <$> FS.free fs)
           (FS.mkdir_fault fs) (FS.copy_fault fs)).
Proof.
  intros Hdst%exists_false Hf. split_and!; try done; simpl.
  - by apply insert_subseteq.
  - intros p g Hg Hn. apply lookup_insert_Some in Hg as [[<- <-]|[_ Hg]]; [|congruence].
    exists match_. split_and!; [left | done |].
    rewrite lookup_insert_ne; [done|]. intros Heq. congruence.
Qed.

Lemma copied_into_trans target_dir match_ matches fs fs1 fs2 :
  copied_into target_dir (match_ :: matches) fs fs1 →
  copied_into target_dir matches fs1 fs2 →
  copied_into target_dir (match_ :: matches) fs fs2.
Proof.
  intros (Hs1 & Hn1 & Hd1 & Hu1 & Hm1 & Hc1) (Hs2 & Hn2 & Hd2 & Hu2 & Hm2 & Hc2).
  split_and!; try congruence.
  - by etrans.
  - intros p f Hf Hn. destruct (FS.files fs1 !! p) as [f1|] eqn:Hp1.
    + pose proof (lookup_weaken _ _ _ _ Hp1 Hs2) as Hp2.
      assert (f1 = f) as -> by congruence.
      destruct (Hn1 p f Hp1 Hn) as (m & Hm & Hp & Hsrc).
      exists m. split_and!; [done..|]. by eapply lookup_weaken.
    + destruct (Hn2 p f Hf Hp1) as (m & Hm & Hp & Hsrc).
      exists m. split_and!; [by right | done | done].
Qed.

Lemma copied_into_weaken target_dir match_ matches fs fs' :
  copied_into target_dir matches fs fs' →
  copied_into target_dir (match_ :: matches) fs fs'.
Proof.
  intros (Hs & Hn & ? & ? & ? & ?). split_and!; try done.
  intros p f Hf Hnone. destruct (Hn p f Hf Hnone) as (m & Hm & ?).
  exists m. split; [by right | done].
Qed.

(** The copy loop, from any state of the counters and of the file
    system. *)
Lemma copy_loop_inv target_dir matches a fs :
  let a' := (foldl (Copier.copy_step target_dir) (a, fs) matches).1 in
  let fs' := (foldl (Copier.copy_step target_dir) (a, fs) matches).2 in
  copied_into target_dir matches fs fs' ∧
  Z.of_nat (size (FS.files fs'))
    = Z.of_nat (size (FS.files fs))
      + (Copier.success_count a' - Copier.success_count a) ∧
  (∃ errors,
     Copier.errors a' = Copier.errors a ++ errors ∧
     Z.of_nat (length errors) = Copier.failed_count a' - Copier.failed_count a ∧
     ∀ p error_msg, (p, error_msg) ∈ errors →
       p ∈ MatchResult.raw_path <$> matches ∧ error_msg ≠ "") ∧
  match FS.free fs with
  | Some free => ∃ free', FS.free fs' = Some free' ∧ Z.min free safety_margin ≤ free'
  | None => FS.free fs' = None
  end.
Proof.
  cbv zeta. revert a fs. induction matches as [|m matches IH]; intros a fs.
  - simpl. split_and!.
    + apply copied_into_refl.
    + lia.
    + exists []. rewrite (right_id_L [] (++)). split_and!; [done | simpl; lia |].
      by intros ? ? ?%elem_of_nil.
    + destruct (FS.free fs) as [fr|]; [|done]. exists fr. split; [done|lia].
  - cbn [foldl]. pose proof (copy_step_cases target_dir a fs m) as Hstep.
    cbv zeta in Hstep.
    destruct (Copier.copy_step target_dir (a, fs) m) as [a1 fs1].
    cbn [fst snd] in Hstep. specialize (IH a1 fs1).
    destruct (foldl (Copier.copy_step target_dir) (a1, fs1) matches) as [a2 fs2].
    cbn [fst snd] in *.
    destruct IH as (Hinto & Hsize & (errs & Herrs & Hlen & Hmem) & Hfree).
    destruct Hstep as [(-> & Hdst & f & Hf & _ & Hmargin & ->)|(-> & _ & Hcount)].
    + simpl in *. split_and!.
      * eapply copied_into_trans; [by apply copied_into_step | done].
      * rewrite Hsize, map_size_insert_None by (by apply exists_false). lia.
      * exists errs. split_and!; [done | lia |].
        intros p msg Hin. destruct (Hmem p msg Hin) as [Hp ?].
        split; [|done]. apply elem_of_cons. by right.
      * destruct (FS.free fs) as [fr|] eqn:Hfr; simpl in *; [|done].
        destruct Hfree as (fr' & Hfr' & Hle). exists fr'. split; [done|].
        specialize (Hmargin fr eq_refl). lia.
    + split_and!.
      * by apply copied_into_weaken.
      * destruct Hcount as [->|(msg & _ & ->)]; simpl in *; lia.
      * destruct Hcount as [->|(msg & Hmsg & ->)]; simpl in *.
        -- exists errs. split_and!; [done | lia |].
           intros p e Hin. destruct (Hmem p e Hin) as [Hp ?].
           split; [|done]. apply elem_of_cons. by right.
        -- exists ((MatchResult.raw_path m, msg) :: errs). split_and!.
           ++ by rewrite Herrs, <-(assoc_L (++)).
           ++ simpl length. lia.
           ++ intros p e [[= -> ->]|Hin]%elem_of_cons.
              ** split; [|done]. apply elem_of_cons. by left.
              ** destruct (Hmem p e Hin) as [Hp ?].
                 split; [|done]. apply elem_of_cons. by right.
      * done.
Qed.

Lemma mkdir_ok fs target_dir fs1 :
  FS.mkdir fs target_dir = inr fs1 →
  FS.mkdir_fault fs target_dir = None ∧ FS.is_file fs target_dir = false ∧
  fs1 = FS.mk (FS.files fs) ({[target_dir]} ∪ FS.dirs fs) (FS.unreadable fs)
              (FS.free fs) (FS.mkdir_fault fs) (FS.copy_fault fs).
Proof.
  unfold FS.mkdir. destruct (FS.mkdir_fault fs target_dir); [done|].
  destruct (FS.is_file fs target_dir); [done|]. by intros [= <-].
Qed.

(** X14. [copy_files] leaves every file that was there as it was; a file
    that is new is the copy of a matched RAW file, in the target directory
    under the name of the RAW file; and the number of new files is the
    number of successes. *)
Theorem copy_never_overwrites (fs : FS.t) (matches : list MatchResult.t)
    (target_dir : Path) :
  let copy_result := (Copier.copy_files fs matches target_dir).1 in
  let fs' := (Copier.copy_files fs matches target_dir).2 in
  (∀ p f, FS.files fs !! p = Some f → FS.files fs' !! p = Some f) ∧
  (∀ p f, FS.files fs' !! p = Some f → FS.files fs !! p = None →
     ∃ match_,
       match_ ∈ matches ∧
       p = Pathlib.joinpath target_dir (Pathlib.name (MatchResult.raw_path match_)) ∧
       FS.files fs' !! MatchResult.raw_path match_ = Some f) ∧
  Z.of_nat (size (FS.files fs'))
    = Z.of_nat (size (FS.files fs)) + CopyResult.success copy_result.
Proof.
  cbv zeta. unfold Copier.copy_files.
  destruct (FS.mkdir fs target_dir) as [e|fs1] eqn:Hmk.
  - simpl. split_and!; [done | congruence | lia].
  - apply mkdir_ok in Hmk as (_ & _ & ->).
    pose proof (copy_loop_inv target_dir matches (Copier.Acc 0 0 0 [])
                  (FS.mk (FS.files fs) ({[target_dir]} ∪ FS.dirs fs) (FS.unreadable fs)
                         (FS.free fs) (FS.mkdir_fault fs) (FS.copy_fault fs))) as H.
    cbv zeta in H.
    destruct (foldl (Copier.copy_step target_dir) _ matches) as [a fs2].
    cbn [fst snd] in *. destruct H as ((Hsub & Hnew & _) & Hsize & _).
    simpl in *. split_and!.
    + intros p f Hf. by eapply lookup_weaken.
    + exact Hnew.
    + lia.
Qed.

(** X15. When the target directory can be made, [copy_files] lists one
    error for every failed match: the path of a matched RAW file, with a
    message that is not empty. *)
Theorem copy_errors_account_for_failures (fs : FS.t) (matches : list MatchResult.t)
    (target_dir : Path) :
  let copy_result := (Copier.copy_files fs matches target_dir).1 in
  match FS.mkdir fs target_dir with
  | inr _ =>
      Z.of_nat (length (CopyResult.errors copy_result))
        = CopyResult.failed copy_result ∧
      ∀ p error_msg, (p, error_msg) ∈ CopyResult.errors copy_result →
        p ∈ MatchResult.raw_path <$> matches ∧ error_msg ≠ ""
  | inl _ =>
      length (CopyResult.errors copy_result) = 1%nat ∧
      CopyResult.failed copy_result = Z.of_nat (length matches)
  end.
Proof.
  cbv zeta. unfold Copier.copy_files.
  destruct (FS.mkdir fs target_dir) as [e|fs1] eqn:Hmk; [done|].
  pose proof (copy_loop_inv target_dir matches (Copier.Acc 0 0 0 []) fs1) as H.
  cbv zeta in H.
  destruct (foldl (Copier.copy_step target_dir) _ matches) as [a fs2].
  cbn [fst snd] in *. destruct H as (_ & _ & (errs & Herrs & Hlen & Hmem) & _).
  simpl in *. subst errs. split; [lia | done].
Qed.



(** *** Copying a second time *)

Lemma substring_S n m a s : substring (S n) m (String a s) = substring n m s.
Proof. done. Qed.

Lemma name_tail c s :
  c ∉ list_ascii_of_string
        (match Pathlib.rfind c s with
         | Some i => substring (S i) (String.length s - S i) s
         | None => s
         end).
Proof.
  induction s as [|a s IH]; [apply not_elem_of_nil|].
  cbn [Pathlib.rfind]. destruct (Pathlib.rfind c s) as [i|] eqn:Hr.
  - rewrite substring_S. exact IH.
  - case_decide as Hac.
    + rewrite substring_S. simpl String.length.
      replace (S (String.length s) - 1)%nat with (String.length s) by lia.
      rewrite substring_all. by apply rfind_None.
    + simpl. rewrite not_elem_of_cons. split; [done|]. by apply rfind_None.
Qed.

Lemma name_no_slash p : "/"%char ∉ list_ascii_of_string (Pathlib.name p).
Proof. apply name_tail. Qed.

Lemma target_of_target target_dir match_ match_' :
  MatchResult.raw_path match_ = target_of target_dir match_' →
  target_of target_dir match_ = MatchResult.raw_path match_.
Proof.
  intros Heq. unfold target_of at 1. rewrite Heq at 1. unfold target_of.
  rewrite name_joinpath by apply name_no_slash. by rewrite Heq.
Qed.

Lemma joinpath_ne directory name : Pathlib.joinpath directory name ≠ directory.
Proof.
  intros Heq. apply (f_equal path_str) in Heq. rewrite path_str_joinpath in Heq.
  apply (f_equal String.length) in Heq. rewrite length_append in Heq.
  simpl in Heq. lia.
Qed.

Lemma settled_no_copy target_dir a fs match_ :
  settled target_dir fs match_ →
  (Copier.copy_step target_dir (a, fs) match_).2 = fs ∧
  Copier.success_count (Copier.copy_step target_dir (a, fs) match_).1
    = Copier.success_count a.
Proof.
  intros Hset. pose proof (copy_step_cases target_dir a fs match_) as H.
  cbv zeta in H.
  destruct H as [(_ & Hdst & f & Hf & Hcf & Hfree & _)|(-> & _ & [->|(? & _ & ->)])];
    [|done..].
  exfalso. destruct Hset as [Hex|[Heq|[Hnone|[(g & fr & Hg & Hfr & Hlt)|[e He]]]]].
  - congruence.
  - rewrite Heq in Hdst. apply exists_files in Hf. congruence.
  - congruence.
  - specialize (Hfree fr Hfr). assert (g = f) as -> by congruence. lia.
  - congruence.
Qed.

Lemma settled_stable target_dir fs match_ other f :
  sizes_nonneg fs →
  FS.exists_ fs (target_of target_dir other) = false →
  FS.files fs !! MatchResult.raw_path other = Some f →
  settled target_dir fs match_ →
  settled target_dir
    (FS.mk (<[target_of target_dir other := f]> (FS.files fs)) (FS.dirs fs)
           (FS.unreadable fs) ((λ b, b - FS.st_size f) <$> FS.free fs)
           (FS.mkdir_fault fs) (FS.copy_fault fs)) match_.
Proof.
  intros Hnn Hdst Hf Hset. pose proof (exists_false _ _ Hdst) as Hdn.
  unfold settled in *. cbn [FS.files FS.free FS.copy_fault].
  destruct Hset as [Hex|[Heq|[Hnone|[(g & fr & Hg & Hfr & Hlt)|He]]]].
  - left. unfold FS.exists_, FS.is_file, FS.is_dir in *. cbn [FS.files FS.dirs].
    apply orb_true_iff in Hex as [Hex|Hex]; apply orb_true_iff; [left|by right].
    apply bool_decide_eq_true in Hex. apply bool_decide_eq_true.
    rewrite dom_insert. set_solver.
  - auto.
  - destruct (decide (target_of target_dir other = MatchResult.raw_path match_))
      as [Heq|Hne].
    + right. left. by eapply target_of_target.
    + do 2 right. left. by rewrite lookup_insert_ne.
  - do 3 right. left. exists g, (fr - FS.st_size f). split_and!.
    + rewrite lookup_insert_ne; [done|]. congruence.
    + by rewrite Hfr.
    + specialize (Hnn _ _ Hf). lia.
  - by do 4 right.
Qed.

Lemma sizes_nonneg_step target_dir fs other f :
  sizes_nonneg fs → FS.files fs !! MatchResult.raw_path other = Some f →
  sizes_nonneg
    (FS.mk (<[target_of target_dir other := f]> (FS.files fs)) (FS.dirs fs)
           (FS.unreadable fs) ((λ b, b - FS.st_size f) <$> FS.free fs)
           (FS.mkdir_fault fs) (FS.copy_fault fs)).
Proof.
  intros Hnn Hf p g. cbn [FS.files].
  intros [[_ <-]|[_ Hg]]%lookup_insert_Some; eauto.
Qed.

Lemma settled_after_step target_dir a fs match_ :
  settled target_dir (Copier.copy_step target_dir (a, fs) match_).2 match_.
Proof.
  pose proof (copy_step_cases target_dir a fs match_) as H. cbv zeta in H.
  destruct H as [(_ & Hdst & f & Hf & Hcf & Hfree & ->)|(-> & Hset & _)]; [|done].
  left. apply (exists_files _ _ f). simpl. by rewrite lookup_insert_eq.
Qed.

Lemma first_run_settles target_dir matches done_ a fs :
  sizes_nonneg fs →
  (∀ m, m ∈ done_ → settled target_dir fs m) →
  ∀ m, m ∈ done_ ++ matches →
       settled target_dir (foldl (Copier.copy_step target_dir) (a, fs) matches).2 m.
Proof.
  revert done_ a fs. induction matches as [|x matches IH]; intros done_ a fs Hnn Hdone m.
  - rewrite (right_id_L [] (++)). apply Hdone.
  - intros Hm. cbn [foldl].
    pose proof (settled_after_step target_dir a fs x) as Hx.
    pose proof (copy_step_cases target_dir a fs x) as Hstep. cbv zeta in Hstep.
    destruct (Copier.copy_step target_dir (a, fs) x) as [a1 fs1]. cbn [fst snd] in *.
    apply (IH (done_ ++ [x]) a1 fs1).
    + destruct Hstep as [(_ & Hdst & f & Hf & _ & _ & ->)|(-> & _)]; [|done].
      by apply sizes_nonneg_step.
    + intros y [Hy|Hy%list_elem_of_singleton]%elem_of_app; [|by subst y].
      destruct Hstep as [(_ & Hdst & f & Hf & _ & _ & ->)|(-> & _)]; [|by apply Hdone].
      apply settled_stable; auto.
    + by rewrite <-(assoc_L (++)).
Qed.

Lemma second_run_idle target_dir matches a fs :
  (∀ m, m ∈ matches → settled target_dir fs m) →
  (foldl (Copier.copy_step target_dir) (a, fs) matches).2 = fs ∧
  Copier.success_count (foldl (Copier.copy_step target_dir) (a, fs) matches).1
    = Copier.success_count a.
Proof.
  revert a. induction matches as [|x matches IH]; intros a Hset; [done|].
  cbn [foldl].
  destruct (settled_no_copy target_dir a fs x) as [Hfs Hs]; [apply Hset; left|].
  destruct (Copier.copy_step target_dir (a, fs) x) as [a1 fs1]. cbn [fst snd] in *.
  subst fs1. rewrite <-Hs. apply IH. intros m Hm. apply Hset. by right.
Qed.

(** X17. Copying the same matches a second time copies nothing and
    leaves the file system as the first run left it. *)
Theorem copy_again_copies_nothing (fs : FS.t) (matches : list MatchResult.t)
    (target_dir : Path) :
  sizes_nonneg fs →
  let fs' := (Copier.copy_files fs matches target_dir).2 in
  CopyResult.success (Copier.copy_files fs' matches target_dir).1 = 0 ∧
  (Copier.copy_files fs' matches target_dir).2 = fs'.
Proof.
  intros Hnn. cbv zeta.
  destruct (FS.mkdir fs target_dir) as [e|fs1] eqn:Hmk.
  - assert (Copier.copy_files fs matches target_dir
            = (CopyResult.mk 0 0 (Z.of_nat (length matches))
                 [(target_dir, "ターゲットディレクトリ作成失敗: " +:+ exn_str e)], fs))
      as Hrun by (unfold Copier.copy_files; by rewrite Hmk).
    rewrite Hrun. cbn [snd]. by rewrite Hrun.
  - pose proof Hmk as Hmk'. apply mkdir_ok in Hmk' as (Hfault & Hfile & Hfs1).
    assert (sizes_nonneg fs1) as Hnn1 by (by subst fs1).
    pose proof (first_run_settles target_dir matches [] (Copier.Acc 0 0 0 []) fs1 Hnn1)
      as Hsettled.
    pose proof (copy_loop_inv target_dir matches (Copier.Acc 0 0 0 []) fs1) as Hinv.
    cbv zeta in Hinv.
    assert ((Copier.copy_files fs matches target_dir).2
            = (foldl (Copier.copy_step target_dir) (Copier.Acc 0 0 0 [], fs1) matches).2)
      as Hrun.
    { unfold Copier.copy_files. rewrite Hmk. by destruct (foldl _ _ matches). }
    rewrite Hrun.
    destruct (foldl (Copier.copy_step target_dir) (Copier.Acc 0 0 0 [], fs1) matches)
      as [a fs2].
    cbn [fst snd] in *.
    destruct Hinv as ((Hsub & Hnew & Hdirs & Hunr & Hmf & Hcf) & _).
    assert (FS.mkdir fs2 target_dir = inr fs2) as Hmk2.
    { assert (FS.is_file fs2 target_dir = false) as Hfile2.
      { apply bool_decide_eq_false. intros [f Hf]%elem_of_dom.
        apply bool_decide_eq_false in Hfile.
        destruct (FS.files fs1 !! target_dir) as [g|] eqn:Hg.
        - apply Hfile. apply elem_of_dom. subst fs1. by eexists.
        - destruct (Hnew target_dir f Hf Hg) as (m & _ & Heq & _).
          symmetry in Heq. by apply joinpath_ne in Heq. }
      unfold FS.mkdir. rewrite Hfile2.
      replace (FS.mkdir_fault fs2 target_dir) with (@None exn)
        by (rewrite Hmf; subst fs1; done).
      simpl. f_equal. destruct fs2 as [files2 dirs2 unr2 free2 mf2 cf2].
      simpl in *. f_equal. subst dirs2 fs1. simpl. apply leibniz_equiv. set_solver. }
    unfold Copier.copy_files. rewrite Hmk2.
    destruct (second_run_idle target_dir matches (Copier.Acc 0 0 0 []) fs2) as [Hfs Hs].
    { intros m Hm. apply Hsettled; [by intros ? ?%elem_of_nil | done]. }
    destruct (foldl (Copier.copy_step target_dir) (Copier.Acc 0 0 0 [], fs2) matches)
      as [a' fs3].
    simpl in *. done.
Qed.

Lemma copy_fs_sizes : sizes_nonneg copy_fs.
Proof.
  intros p f. unfold copy_fs. cbn [FS.files].
  intros H. repeat (apply lookup_insert_Some in H as [[_ <-]|[_ H]]; [simpl; lia|]).
  by rewrite lookup_empty in H.
Qed.

Lemma copy_again_copies_nothing_witness :
  sizes_nonneg copy_fs ∧
  CopyResult.success
    (Copier.copy_files (Copier.copy_files copy_fs copy_matches (Path_of "/jpeg")).2
                       copy_matches (Path_of "/jpeg")).1 = 0.
Proof.
  split; [exact copy_fs_sizes|].
  exact (proj1 (copy_again_copies_nothing copy_fs copy_matches (Path_of "/jpeg")
                  copy_fs_sizes)).
Defined.

(** X18. [_copy_single_file] and [_copy_single_file_with_error] do the
    same to the file system and answer the same outcome; the second gives a
    message exactly with [failed]; and where the second lets an exception
    of [shutil.copy2] pass that is neither [PermissionError] nor [OSError],
    the first answers [failed]. *)
Theorem copy_single_file_agree (fs : FS.t) (match_ : MatchResult.t)
    (target_dir : Path) :
  let plain := Copier._copy_single_file fs match_ target_dir in
  let with_error := Copier._copy_single_file_with_error fs match_ target_dir in
  plain.2 = with_error.2 ∧
  plain.1 ∈ ["success"; "skipped"; "failed"] ∧
  match with_error.1 with
  | inr (result, error_msg) =>
      plain.1 = result ∧ (is_Some error_msg ↔ result = "failed")
  | inl e =>
      plain.1 = "failed" ∧ exn_cls e ≠ PermissionError ∧ exn_cls e ≠ OSError
  end.
Proof.
  cbv zeta. unfold Copier._copy_single_file, Copier._copy_single_file_with_error.
  destruct (FS.exists_ fs (MatchResult.raw_path match_)); simpl.
  2:{ split_and!; [done | set_solver | done |]. split; [done|]. by eexists. }
  destruct (FS.exists_ fs _); simpl.
  { split_and!; [done | set_solver | done |]. split; [by intros [? ?]|done]. }
  destruct (negb _); simpl.
  { split_and!; [done | set_solver | done |]. split; [done|]. by eexists. }
  destruct (FS.copy2 fs _ _) as [e|fs'] eqn:Hcopy; simpl.
  - destruct (exn_cls e) eqn:Hcls; simpl;
      (split; [done|]); (split; [set_solver|]);
      first [ by (split; [done|]; split; [done | by eexists])
            | by (split; [done|]; split; congruence) ].
  - split_and!; [done | set_solver | done |]. split; [by intros [? ?]|done].
Qed.

(** ** The cache of indexes *)

Lemma bucket_filter {K} `{EqDecision K} (key_of : RawFileInfo.t → option K)
    (d : Py.dict K (list RawFileInfo.t)) (l : list RawFileInfo.t) (k : K) :
  repr key_of d l →
  filter (λ info, key_of info = Some k) (concat (Py.values d))
  = default [] (Py.get d k).
Proof.
  intros [Hnd Hget].
  assert (∀ k' b, (k', b) ∈ d → ∀ info, info ∈ b → key_of info = Some k') as Hkeys.
  { intros k' b Hin info Hi. apply elem_get in Hin; [|done].
    rewrite Hget in Hin. apply bucket_of_Some in Hin as [-> _].
    by apply list_elem_of_filter in Hi as [? _]. }
  clear Hget. induction d as [|[k0 b0] d IH]; [done|].
  unfold Py.keys in Hnd. rewrite fmap_cons in Hnd.
  apply NoDup_cons in Hnd as [Hk0 Hnd]. fold (Py.keys d) in Hk0, Hnd.
  unfold Py.values. csimpl. fold (Py.values d). rewrite filter_app.
  rewrite IH; [|done|intros k' b Hin; apply Hkeys; by right].
  case_decide as Hk.
  - subst k0. rewrite (proj2 (get_None d k)) by done. simpl.
    rewrite (right_id_L [] (++)). apply filter_all.
    intros info Hi. apply (Hkeys k b0); [by left|done].
  - rewrite filter_none; [done|].
    intros info Hi Hki. apply Hk.
    assert (key_of info = Some k0) as Hk0' by (apply (Hkeys k0 b0); [by left|done]).
    congruence.
Qed.

Lemma find_by_basename_all_files index l basename :
  index_repr index l →
  RawFileIndex.find_by_basename index basename
  = filter (λ info, RawFileInfo.basename info = Py.lower basename)
           (RawFileIndex.get_all_files index).
Proof.
  intros [Hb _]. unfold RawFileIndex.find_by_basename, RawFileIndex.get_all_files.
  rewrite <-(bucket_filter basename_key _ l) by done.
  apply list_filter_iff. intros info. unfold basename_key.
  split; [by intros [= ->] | by intros ->].
Qed.

Lemma find_matching_raw_ext index index' jpeg_info :
  (∀ basename, RawFileIndex.find_by_basename index' basename
               = RawFileIndex.find_by_basename index basename) →
  Matcher._find_matching_raw index' jpeg_info
  = Matcher._find_matching_raw index jpeg_info.
Proof. intros H. unfold Matcher._find_matching_raw. by rewrite H. Qed.

Lemma run_adds_last_updated infos base :
  RawFileIndex.last_updated (run (Add <$> infos) base) = RawFileIndex.last_updated base.
Proof.
  revert base. induction infos as [|i infos IH]; intros base; [done|].
  simpl. by rewrite IH.
Qed.

(** What [from_dict] makes of what [to_dict] wrote, for an index that
    files its records well. *)
Lemma reload_spec index l count :
  index_repr index l →
  ∃ loaded,
    RawFileIndex.from_dict
      (Json.mk_index (Json.source_directory (RawFileIndex.to_dict index))
                     (Json.last_updated (RawFileIndex.to_dict index))
                     count (Json.files (RawFileIndex.to_dict index)))
      = Some loaded ∧
    index_repr loaded (RawFileIndex.get_all_files index) ∧
    RawFileIndex.source_directory loaded = RawFileIndex.source_directory index ∧
    RawFileIndex.last_updated loaded = RawFileIndex.last_updated index ∧
    RawFileIndex.file_count loaded
      = Z.of_nat (length (RawFileIndex.get_all_files index)) ∧
    ∀ basename, RawFileIndex.find_by_basename loaded basename
                = RawFileIndex.find_by_basename index basename.
Proof.
  intros Hr. eexists. split; [apply from_dict_to_dict_eq|].
  assert (index_repr
            (run (Add <$> RawFileIndex.get_all_files index)
               (RawFileIndex.mk [] [] (RawFileIndex.source_directory index)
                  (RawFileIndex.last_updated index) 0))
            (RawFileIndex.get_all_files index)) as Hr'.
  { rewrite <-(live_adds [] (RawFileIndex.get_all_files index)) at 2.
    apply run_repr_from. split; apply repr_nil. }
  split_and!.
  - done.
  - by rewrite run_source_directory.
  - by rewrite run_adds_last_updated.
  - rewrite add_all_file_count. simpl. lia.
  - intros basename. rewrite (find_by_basename_repr _ _ _ Hr').
    symmetry. by eapply find_by_basename_all_files.
Qed.

Lemma update_global_index_fields cache source_dir index :
  let cache' := IndexCache._update_global_index cache source_dir index in
  IndexCache.cache_dir cache' = IndexCache.cache_dir cache ∧
  IndexCache.md5 cache' = IndexCache.md5 cache ∧
  IndexCache.cache_files cache' = IndexCache.cache_files cache ∧
  IndexCache.write_fault cache' = IndexCache.write_fault cache ∧
  IndexCache.now cache' = IndexCache.now cache.
Proof.
  cbv zeta. unfold IndexCache._update_global_index.
  by destruct (IndexCache.write_fault cache (IndexCache.global_index_file cache)).
Qed.

(** X19. When the cache file can be written, [save_directory_index]
    returns, and [load_directory_index] then gives an index with the
    records that were saved, the directory and the time of the save; its
    [file_count] is the number of records; it answers every basename query,
    and so every match, as the saved index does. The cache files of other
    directories are left as they were. *)
Theorem save_then_load (cache : IndexCache.t) (source_dir : Path)
    (index : RawFileIndex.t) (l : list RawFileInfo.t) :
  index_repr index l →
  IndexCache.write_fault cache (IndexCache.get_cache_path cache source_dir) = None →
  let saved := (IndexCache.save_directory_index cache source_dir index).1.1 in
  let cache' := (IndexCache.save_directory_index cache source_dir index).2 in
  saved = inr () ∧
  (∃ loaded,
     IndexCache.load_directory_index cache' source_dir = Some loaded ∧
     RawFileIndex.get_all_files loaded ≡ₚ RawFileIndex.get_all_files index ∧
     RawFileIndex.source_directory loaded = Some source_dir ∧
     RawFileIndex.last_updated loaded = Some (IndexCache.now cache) ∧
     RawFileIndex.file_count loaded
       = Z.of_nat (length (RawFileIndex.get_all_files index)) ∧
     (∀ basename, RawFileIndex.find_by_basename loaded basename
                  = RawFileIndex.find_by_basename index basename) ∧
     (∀ jpeg_info, Matcher._find_matching_raw loaded jpeg_info
                   = Matcher._find_matching_raw index jpeg_info)) ∧
  (∀ other,
     IndexCache.get_cache_path cache other ≠ IndexCache.get_cache_path cache source_dir →
     IndexCache.load_directory_index cache' other
     = IndexCache.load_directory_index cache other).
Proof.
  intros Hr Hw. cbv zeta. unfold IndexCache.save_directory_index. rewrite Hw.
  cbn [fst snd].
  set (stamped := RawFileIndex.mk (RawFileIndex.by_basename index)
                    (RawFileIndex.by_datetime index) (Some source_dir)
                    (Some (IndexCache.now cache)) (RawFileIndex.file_count index)).
  set (cache1 := IndexCache.mk (IndexCache.cache_dir cache) (IndexCache.md5 cache)
                   (<[IndexCache.get_cache_path cache source_dir
                      := Some (RawFileIndex.to_dict stamped)]>
                      (IndexCache.cache_files cache))
                   (IndexCache.global_index cache) (IndexCache.write_fault cache)
                   (IndexCache.now cache)).
  assert (IndexCache.cache_dir (IndexCache._update_global_index cache1 source_dir stamped)
          = IndexCache.cache_dir cache ∧
          IndexCache.md5 (IndexCache._update_global_index cache1 source_dir stamped)
          = IndexCache.md5 cache ∧
          IndexCache.cache_files (IndexCache._update_global_index cache1 source_dir stamped)
          = IndexCache.cache_files cache1) as (Hdir & Hmd5 & Hfiles).
  { pose proof (update_global_index_fields cache1 source_dir stamped) as H.
    cbv zeta in H. naive_solver. }
  assert (∀ d, IndexCache.get_cache_path
                 (IndexCache._update_global_index cache1 source_dir stamped) d
               = IndexCache.get_cache_path cache d) as Hpath.
  { intros d. unfold IndexCache.get_cache_path. by rewrite Hdir, Hmd5. }
  assert (index_repr stamped l) as Hrs by exact Hr.
  split_and!; [done | |].
  - unfold IndexCache.load_directory_index. rewrite Hpath, Hfiles. unfold cache1.
    cbn [IndexCache.cache_files]. rewrite lookup_insert_eq.
    destruct (reload_spec stamped l (RawFileIndex.file_count stamped) Hrs)
      as (loaded & Hload & Hrl & Hsd & Hlu & Hcount & Hfind).
    exists loaded. split_and!; try done.
    + by apply index_repr_Permutation.
    + intros jpeg_info. by apply find_matching_raw_ext.
  - intros other Hne. unfold IndexCache.load_directory_index.
    rewrite Hpath, Hfiles. unfold cache1. cbn [IndexCache.cache_files].
    by rewrite lookup_insert_ne.
Qed.

Lemma save_then_load_witness :
  ∃ loaded,
    IndexCache.load_directory_index saved_cache raw_dir = Some loaded ∧
    RawFileIndex.get_all_files loaded ≡ₚ RawFileIndex.get_all_files two_files.
Proof.
  destruct (proj1 (proj2 (save_then_load empty_cache raw_dir two_files [raw_a; raw_b]
                            (run_repr [Add raw_a; Add raw_b]) eq_refl)))
    as (loaded & Hload & Hperm & _).
  exists loaded. split; [exact Hload | exact Hperm].
Defined.

(** *** The list of indexed directories *)

Lemma lex_le_total l1 l2 : lex_le l1 l2 = true ∨ lex_le l2 l1 = true.
Proof.
  revert l2. induction l1 as [|a l1 IH]; intros [|b l2]; simpl; auto.
  destruct (N.ltb_spec a b), (N.ltb_spec b a); auto; lia.
Qed.

Lemma insert_reverse_Permutation {A} (le : A → A → bool) x l :
  Py.insert_reverse le x l ≡ₚ x :: l.
Proof.
  induction l as [|y l IH]; simpl; [done|].
  destruct (le y x); [done|]. rewrite IH. apply Permutation_swap.
Qed.

Lemma sort_reverse_Permutation {A} (le : A → A → bool) l :
  Py.sort_reverse le l ≡ₚ l.
Proof.
  unfold Py.sort_reverse. induction l as [|x l IH]; simpl; [done|].
  by rewrite insert_reverse_Permutation, IH.
Qed.

Lemma insert_reverse_Sorted {A} (le : A → A → bool) x l :
  (∀ a b, le a b = true ∨ le b a = true) →
  Sorted (λ a b, le b a = true) l →
  Sorted (λ a b, le b a = true) (Py.insert_reverse le x l).
Proof.
  intros Htot. induction l as [|y l IH]; intros Hs; simpl.
  - by repeat constructor.
  - destruct (le y x) eqn:Hyx.
    + constructor; [done|]. by constructor.
    + apply Sorted_inv in Hs as [Hs Hhd]. constructor; [by apply IH|].
      destruct l as [|z l]; simpl.
      * constructor. destruct (Htot x y); congruence.
      * apply HdRel_inv in Hhd. destruct (le z x); constructor; [|done].
        destruct (Htot x y); congruence.
Qed.

Lemma sort_reverse_Sorted {A} (le : A → A → bool) l :
  (∀ a b, le a b = true ∨ le b a = true) →
  Sorted (λ a b, le b a = true) (Py.sort_reverse le l).
Proof.
  intros Htot. unfold Py.sort_reverse. induction l as [|x l IH]; simpl.
  - constructor.
  - by apply insert_reverse_Sorted.
Qed.

Lemma load_global_index_elem cache order key entry :
  (key, entry) ∈ IndexCache.load_global_index cache order
  ↔ IndexCache.global_index cache !! key = Some entry.
Proof.
  unfold IndexCache.load_global_index.
  by rewrite shuffle_Permutation, elem_of_map_to_list.
Qed.

Lemma omap_length_le {A B} (f : A → option B) (l : list A) :
  (length (omap f l) ≤ length l)%nat.
Proof.
  induction l as [|a l IH]; [done|]. cbn [omap list_omap].
  destruct (f a); simpl; lia.
Qed.

Lemma list_indexed_directories_elem cache order path last_updated file_count :
  (path, last_updated, file_count) ∈ IndexCache.list_indexed_directories cache order ↔
  ∃ dir_path text cache_file,
    IndexCache.global_index cache !! dir_path
      = Some (Some text, file_count, cache_file) ∧
    text ≠ "" ∧ Iso.fromisoformat text = Some last_updated ∧
    path = Path_of dir_path.
Proof.
  unfold IndexCache.list_indexed_directories.
  rewrite sort_reverse_Permutation, list_elem_of_omap. split.
  - intros ([key [[text_opt n'] cf]] & Hin & Hdir).
    apply load_global_index_elem in Hin. unfold IndexCache.directory_of in Hdir.
    unfold RawFileIndex.parse_datetime, Py.truthy in Hdir.
    destruct text_opt as [text|]; [|done].
    case_decide as Hne; [done|].
    destruct (Iso.fromisoformat text) as [d|] eqn:Hp; [|done].
    simpl in Hdir. injection Hdir as <- <- <-. by exists key, text, cf.
  - intros (key & text & cf & Hg & Hne & Hp & ->).
    exists (key, (Some text, file_count, cf)).
    split; [by apply load_global_index_elem|].
    unfold IndexCache.directory_of, RawFileIndex.parse_datetime, Py.truthy.
    rewrite decide_False by done. by rewrite Hp.
Qed.

(** X20. [list_indexed_directories] lists, latest update first, the
    entries of the global index whose [last_updated] is a timestamp, each
    once; an entry without one, or with a text that is none, is left out. *)
Theorem list_indexed_directories_latest_first (cache : IndexCache.t)
    (order : list nat) :
  let directories := IndexCache.list_indexed_directories cache order in
  Sorted (λ earlier later, dt_le later.1.2 earlier.1.2 = true) directories ∧
  (∀ path last_updated file_count,
     (path, last_updated, file_count) ∈ directories ↔
     ∃ dir_path text cache_file,
       IndexCache.global_index cache !! dir_path
         = Some (Some text, file_count, cache_file) ∧
       text ≠ "" ∧ Iso.fromisoformat text = Some last_updated ∧
       path = Path_of dir_path) ∧
  directories
    ≡ₚ omap IndexCache.directory_of (map_to_list (IndexCache.global_index cache)) ∧
  (length directories ≤ size (IndexCache.global_index cache))%nat.
Proof.
  cbv zeta. unfold IndexCache.list_indexed_directories. split_and!.
  - apply (sort_reverse_Sorted (λ x y : Path * datetime * Z, dt_le x.1.2 y.1.2)).
    intros a b. apply lex_le_total.
  - intros path lu n. fold (IndexCache.list_indexed_directories cache order).
    apply list_indexed_directories_elem.
  - rewrite sort_reverse_Permutation. unfold IndexCache.load_global_index.
    by rewrite shuffle_Permutation.
  - rewrite sort_reverse_Permutation.
    etrans; [apply omap_length_le|]. unfold IndexCache.load_global_index.
    by rewrite shuffle_Permutation, length_map_to_list.
Qed.



(** *** Dropping cached indexes *)




Lemma append_assoc s1 s2 s3 : (s1 +:+ s2) +:+ s3 = s1 +:+ (s2 +:+ s3).
Proof.
  induction s1 as [|a s1 IH]; rewrite ?append_nil_l, ?append_cons; [done|].
  by rewrite IH.
Qed.

Lemma append_inj_l s a b : s +:+ a = s +:+ b → a = b.
Proof.
  induction s as [|c s IH]; rewrite ?append_nil_l, ?append_cons; [done|].
  intros [= H]. by apply IH.
Qed.

Lemma parent_joinpath directory name :
  "/"%char ∉ list_ascii_of_string name →
  Pathlib.parent (Pathlib.joinpath directory name) = path_str directory.
Proof.
  intros Hn. unfold Pathlib.parent. rewrite path_str_joinpath.
  change (path_str directory +:+ "/" +:+ name)
    with (path_str directory +:+ String "/" name).
  rewrite rfind_last by done.
  pose proof (proj2_dsig directory) as Hne. unfold path_str in *.
  destruct (`directory) as [|c d] eqn:Hd; [done|].
  replace (String.length (String c d) =? 0)%nat with false by done.
  apply substring_head.
Qed.

Lemma ends_with_append s suffix : Pathlib.ends_with suffix (s +:+ suffix) = true.
Proof.
  unfold Pathlib.ends_with. rewrite length_append. apply andb_true_iff. split.
  - apply Nat.leb_le. lia.
  - replace (String.length s + String.length suffix - String.length suffix)%nat
      with (String.length s) by lia.
    rewrite substring_tail. apply String.eqb_refl.
Qed.

Lemma cache_path_in_cache_dir cache source_dir :
  slash_free (IndexCache.md5 cache) →
  Pathlib.parent (IndexCache.get_cache_path cache source_dir)
    = path_str (IndexCache.cache_dir cache) ∧
  Pathlib.ends_with ".json" (Pathlib.name (IndexCache.get_cache_path cache source_dir))
    = true.
Proof.
  intros Hmd5. unfold IndexCache.get_cache_path.
  assert ("/"%char ∉ list_ascii_of_string
            ("index_" +:+ IndexCache.md5 cache (path_str source_dir) +:+ ".json"))
    as Hname.
  { rewrite <-rfind_None, !rfind_app. simpl.
    specialize (Hmd5 (path_str source_dir)). apply rfind_None in Hmd5.
    by rewrite Hmd5. }
  split.
  - by apply parent_joinpath.
  - rewrite name_joinpath by done. rewrite <-append_assoc. apply ends_with_append.
Qed.

Lemma cache_path_not_global cache source_dir :
  IndexCache.get_cache_path cache source_dir ≠ IndexCache.global_index_file cache.
Proof.
  unfold IndexCache.get_cache_path, IndexCache.global_index_file. intros Heq.
  apply (f_equal path_str) in Heq. rewrite !path_str_joinpath in Heq.
  apply append_inj_l in Heq. apply (append_inj_l "/") in Heq. done.
Qed.

Lemma unlink_each_ok unlink_fault listing cache :
  (∀ p, unlink_fault p = None) →
  IndexCache.unlink_each unlink_fault listing cache
  = (inr (), foldl IndexCache.unlink cache listing).
Proof.
  intros Hu. revert cache. induction listing as [|p listing IH]; intros cache; [done|].
  simpl. by rewrite Hu, IH.
Qed.

Lemma unlink_fields cache p :
  IndexCache.cache_dir (IndexCache.unlink cache p) = IndexCache.cache_dir cache ∧
  IndexCache.md5 (IndexCache.unlink cache p) = IndexCache.md5 cache ∧
  (∀ q, IndexCache.cache_files cache !! q = None →
        IndexCache.cache_files (IndexCache.unlink cache p) !! q = None) ∧
  (IndexCache.global_index cache = ∅ →
   IndexCache.global_index (IndexCache.unlink cache p) = ∅) ∧
  (p ≠ IndexCache.global_index_file cache →
   IndexCache.cache_files (IndexCache.unlink cache p) !! p = None) ∧
  (p = IndexCache.global_index_file cache →
   IndexCache.global_index (IndexCache.unlink cache p) = ∅).
Proof.
  unfold IndexCache.unlink. case_decide as Hp; simpl; split_and!; try done.
  - intros q Hq. rewrite lookup_delete_None. auto.
  - intros _. by rewrite lookup_delete_eq.
Qed.

Lemma unlink_all_spec listing cache :
  let cache' := foldl IndexCache.unlink cache listing in
  IndexCache.cache_dir cache' = IndexCache.cache_dir cache ∧
  IndexCache.md5 cache' = IndexCache.md5 cache ∧
  (∀ q, IndexCache.cache_files cache !! q = None →
        IndexCache.cache_files cache' !! q = None) ∧
  (IndexCache.global_index cache = ∅ → IndexCache.global_index cache' = ∅) ∧
  (∀ p, p ∈ listing → p ≠ IndexCache.global_index_file cache →
        IndexCache.cache_files cache' !! p = None) ∧
  (IndexCache.global_index_file cache ∈ listing → IndexCache.global_index cache' = ∅).
Proof.
  cbv zeta. revert cache. induction listing as [|x listing IH]; intros cache.
  - simpl. split_and!; try done; by intros ? ?%elem_of_nil || intros ?%elem_of_nil.
  - cbn [foldl]. destruct (unlink_fields cache x) as (Hd & Hm & Hf & Hg & Hfx & Hgx).
    destruct (IH (IndexCache.unlink cache x)) as (Hd' & Hm' & Hf' & Hg' & Hp' & Hgl').
    assert (IndexCache.global_index_file (IndexCache.unlink cache x)
            = IndexCache.global_index_file cache) as Hgf
      by (unfold IndexCache.global_index_file; by rewrite Hd).
    rewrite Hgf in *. split_and!.
    + congruence.
    + congruence.
    + auto.
    + auto.
    + intros p [->|Hp]%elem_of_cons Hne; auto.
    + intros [Heq|Hin]%elem_of_cons; auto.
Qed.

Lemma shuffle_nil {A} (choice : list nat) : Py.shuffle choice (@nil A) = [].
Proof.
  pose proof (shuffle_Permutation choice (@nil A)) as H.
  by apply Permutation_nil_r in H.
Qed.

(** X23. When no [unlink] fails, [clear_all_cache] returns, and afterwards
    [load_directory_index] finds nothing for any directory and no directory
    is listed. *)
Theorem clear_all_cache_forgets_all (cache : IndexCache.t)
    (unlink_fault : Path → option exn) (order : list nat) :
  (∀ p, unlink_fault p = None) →
  slash_free (IndexCache.md5 cache) →
  let cleared := (IndexCache.clear_all_cache cache unlink_fault order).1 in
  let cache' := (IndexCache.clear_all_cache cache unlink_fault order).2 in
  cleared = inr () ∧
  (∀ source_dir, IndexCache.load_directory_index cache' source_dir = None) ∧
  (∀ order', IndexCache.load_global_index cache' order' = []) ∧
  (∀ order', IndexCache.list_indexed_directories cache' order' = []).
Proof.
  intros Hu Hmd5. cbv zeta. unfold IndexCache.clear_all_cache.
  rewrite unlink_each_ok by done. cbn [fst snd].
  set (listing := Py.shuffle order (IndexCache.glob_json cache)).
  destruct (unlink_all_spec listing cache) as (Hd & Hm & Hf & Hg & Hp & Hgl).
  set (cache' := foldl IndexCache.unlink cache listing) in *.
  assert (IndexCache.global_index cache' = ∅) as Hempty.
  { destruct (decide (IndexCache.global_index cache = ∅)) as [He|Hne]; [auto|].
    apply Hgl. unfold listing, IndexCache.glob_json.
    rewrite shuffle_Permutation, elem_of_app. right.
    rewrite decide_False by done. left. }
  assert (∀ order', IndexCache.load_global_index cache' order' = []) as Hload.
  { intros order'. unfold IndexCache.load_global_index.
    rewrite Hempty, map_to_list_empty. apply shuffle_nil. }
  split_and!; [done | | done |].
  - intros source_dir. unfold IndexCache.load_directory_index.
    assert (IndexCache.get_cache_path cache' source_dir
            = IndexCache.get_cache_path cache source_dir) as ->
      by (unfold IndexCache.get_cache_path; by rewrite Hd, Hm).
    assert (IndexCache.cache_files cache' !! IndexCache.get_cache_path cache source_dir
            = None) as ->; [|done].
    destruct (IndexCache.cache_files cache !! IndexCache.get_cache_path cache source_dir)
      as [v|] eqn:Hv; [|auto].
    apply Hp; [|apply cache_path_not_global].
    unfold listing, IndexCache.glob_json.
    rewrite shuffle_Permutation, elem_of_app. left.
    apply list_elem_of_filter. split.
    + by apply cache_path_in_cache_dir.
    + apply elem_of_elements, elem_of_dom. by eexists.
  - intros order'. unfold IndexCache.list_indexed_directories. by rewrite Hload.
Qed.

Lemma saved_cache_slash_free : slash_free (IndexCache.md5 saved_cache).
Proof.
  intros s. assert (IndexCache.md5 saved_cache s = "0f3a") as -> by reflexivity.
  compute_done.
Qed.

Lemma clear_all_cache_forgets_all_witness :
  IndexCache.load_directory_index
    (IndexCache.clear_all_cache saved_cache (λ _, None) []).2 raw_dir = None.
Proof.
  exact (proj1 (proj2 (clear_all_cache_forgets_all saved_cache (λ _, None) []
                         (λ _, eq_refl) saved_cache_slash_free)) raw_dir).
Defined.

(** ** The indexer: builds, updates and the cache *)

Lemma omap_make_info_all fs reader (files : list Path) :
  (∀ p, p ∈ files → is_Some (FS.stat_size fs p)) →
  RawFileInfo.path <$> omap (make_info fs reader) files = files.
Proof.
  intros Hst. rewrite omap_make_info_paths. by apply filter_all.
Qed.

Lemma build_new_index_count fs reader nd source_dir recursive files :
  FileScanner.scan_raw_files fs source_dir recursive = inr files →
  ∃ index reader' infos,
    Indexer._build_new_index fs reader nd source_dir recursive = (inr index, reader') ∧
    index_repr index infos ∧
    infos ≡ₚ omap (make_info fs reader) files ∧
    RawFileIndex.file_count index = Z.of_nat (length files).
Proof.
  intros Hscan. destruct (scan_facts _ _ _ _ _ Hscan) as [Hnd Hst].
  unfold Indexer._build_new_index. rewrite Hscan.
  destruct files as [|f files].
  - exists RawFileIndex.init, reader, []. split_and!; [done | apply index_repr_init | done | done].
  - destruct (process_files_spec fs reader (Indexer.completion_order nd) (f :: files))
      as (infos & reader' & Heq & Hperm & _).
    rewrite Heq. exists (Indexer.add_all infos RawFileIndex.init), reader', infos.
    split_and!; [done | | done |].
    + apply (add_all_repr infos _ []), index_repr_init.
    + rewrite add_all_run, add_all_file_count. simpl. f_equal.
      rewrite Hperm, <-(length_fmap RawFileInfo.path).
      by rewrite omap_make_info_all.
Qed.

(** X24. [_build_new_index] on a directory that [scan_raw_files] accepts
    returns an index with one record for each RAW file found: the record
    has the path, the basename, the size and the capture time of the file,
    as the reader knows or finds it, and [file_count] is the number of
    files. When the scan raises, so does the build, and nothing is read. *)
Theorem build_new_index_records (fs : FS.t) (reader : ExifReader.t)
    (nd : Indexer.nondet) (source_dir : Path) (recursive : bool) :
  let built := Indexer._build_new_index fs reader nd source_dir recursive in
  match FileScanner.scan_raw_files fs source_dir recursive with
  | inl e => built = (inl e, reader)
  | inr raw_files =>
      ∃ index,
        built.1 = inr index ∧
        RawFileIndex.file_count index = Z.of_nat (length raw_files) ∧
        RawFileInfo.path <$> RawFileIndex.get_all_files index ≡ₚ raw_files ∧
        ∀ info, info ∈ RawFileIndex.get_all_files index →
          RawFileInfo.basename info = FileScanner.get_basename (RawFileInfo.path info) ∧
          FS.stat_size fs (RawFileInfo.path info) = Some (RawFileInfo.file_size info) ∧
          RawFileInfo.capture_datetime info = known reader fs (RawFileInfo.path info)
  end.
Proof.
  cbv zeta.
  destruct (FileScanner.scan_raw_files fs source_dir recursive) as [e|files] eqn:Hscan.
  - unfold Indexer._build_new_index. by rewrite Hscan.
  - destruct (scan_facts _ _ _ _ _ Hscan) as [Hnd Hst].
    destruct (build_new_index_count fs reader nd _ _ _ Hscan)
      as (index & reader' & infos & Heq & Hr & Hperm & Hcount).
    rewrite Heq. exists index. split_and!; [done | done | |].
    + rewrite (index_repr_Permutation _ _ Hr), Hperm. by rewrite omap_make_info_all.
    + intros info Hin. apply (index_repr_mem _ _ _ Hr) in Hin.
      rewrite Hperm in Hin. apply list_elem_of_omap in Hin as (p & Hp & Hmk).
      apply make_info_Some in Hmk as (sz & Hsz & ->). simpl. done.
Qed.

(** The loop over the candidates changes nothing when every record has the
    size of its file. *)
Lemma check_updated_idle fs index l cands :
  index_repr index l → NoDup (RawFileInfo.path <$> l) →
  (∀ info, info ∈ l →
     FS.stat_size fs (RawFileInfo.path info) = Some (RawFileInfo.file_size info)) →
  foldl (Indexer.check_updated fs) (index, []) cands = (index, []).
Proof.
  intros Hr Hnd Hsz. induction cands as [|p cands IH]; [done|].
  cbn [foldl]. unfold Indexer.check_updated at 2.
  destruct (FS.stat_size fs p) as [sz|] eqn:Hp; [|done].
  destruct (list_find _ _) as [[i r]|] eqn:Hfind; [|done].
  apply list_find_Some in Hfind as (Hi & Hrp & _).
  assert (r ∈ l) as Hrl.
  { apply (index_repr_mem _ _ _ Hr). by eapply list_elem_of_lookup_2. }
  specialize (Hsz r Hrl). rewrite Hrp, Hp in Hsz. injection Hsz as ->.
  rewrite decide_False by (intros H; by apply H). done.
Qed.

Lemma update_idle fs reader nd index l source_dir recursive files :
  index_repr index l → NoDup (RawFileInfo.path <$> l) →
  FileScanner.scan_raw_files fs source_dir recursive = inr files →
  (∀ p, p ∈ files ↔ p ∈ RawFileInfo.path <$> l) →
  (∀ info, info ∈ l →
     FS.stat_size fs (RawFileInfo.path info) = Some (RawFileInfo.file_size info)) →
  Indexer.update_index_incrementally fs reader nd index source_dir recursive
  = (inr index, reader).
Proof.
  intros Hr Hnd Hscan Hsame Hsz. unfold Indexer.update_index_incrementally.
  rewrite Hscan.
  set (current := list_to_set files : gset Path).
  set (existing := list_to_set (RawFileInfo.path <$> RawFileIndex.get_all_files index)
                   : gset Path).
  assert (existing = current) as ->.
  { apply leibniz_equiv. intros p. unfold existing, current.
    rewrite !elem_of_list_to_set, (index_repr_Permutation _ _ Hr). by rewrite Hsame. }
  assert (current ∖ current = ∅) as -> by (apply leibniz_equiv; set_solver).
  rewrite elements_empty, !shuffle_nil. cbn [foldl].
  rewrite (check_updated_idle fs index l) by done. done.
Qed.

(** X25. A differential update of an index whose records are those of the
    RAW files of the directory, each with the size of its file, returns the
    index as it is and reads no capture time. *)
Theorem update_of_current_index (fs : FS.t) (reader : ExifReader.t)
    (nd : Indexer.nondet) (index : RawFileIndex.t) (l : list RawFileInfo.t)
    (source_dir : Path) (recursive : bool) (raw_files : list Path) :
  index_repr index l → NoDup (RawFileInfo.path <$> l) →
  FileScanner.scan_raw_files fs source_dir recursive = inr raw_files →
  (∀ p, p ∈ raw_files ↔ p ∈ RawFileInfo.path <$> l) →
  (∀ info, info ∈ l →
     FS.stat_size fs (RawFileInfo.path info) = Some (RawFileInfo.file_size info)) →
  Indexer.update_index_incrementally fs reader nd index source_dir recursive
  = (inr index, reader).
Proof. apply update_idle. Qed.

Lemma update_of_current_index_witness :
  Indexer.update_index_incrementally before_fs ExifReader.init some_order
    (run [Add raw_a; Add raw_b; Add raw_c] RawFileIndex.init) raw_dir true
  = (inr (run [Add raw_a; Add raw_b; Add raw_c] RawFileIndex.init), ExifReader.init).
Proof.
  apply (update_of_current_index before_fs ExifReader.init some_order _
           [raw_a; raw_b; raw_c] raw_dir true
           [Path_of "/raw/A.CR2"; Path_of "/raw/B.CR2"; Path_of "/raw/C.NEF"]).
  - exact (run_repr [Add raw_a; Add raw_b; Add raw_c]).
  - compute_done.
  - compute_done.
  - intros p. simpl. rewrite !elem_of_cons. naive_solver.
  - intros info Hin. repeat (apply elem_of_cons in Hin as [->|Hin]; [compute_done|]).
    by apply elem_of_nil in Hin.
Defined.

Lemma indexer_eta (self : Indexer.t) :
  Indexer.mk (Indexer.exif_reader self) (Indexer.cache self) = self.
Proof. by destruct self. Qed.

(** X26. For a source directory that is missing, no directory or not
    readable, [build_index] raises [ProcessingError], chained to the
    [ValidationError] of the scan; the cache and the reader are left as
    they were. *)
Theorem build_index_invalid_directory (fs : FS.t) (self : Indexer.t)
    (nd : Indexer.nondet) (source_dir : Path) (recursive force_rebuild : bool)
    (e : exn) :
  PathValidator.validate_directory fs source_dir = inl e →
  exn_cls e = ValidationError ∧
  Indexer.build_index fs self nd source_dir recursive force_rebuild
  = (raise (ExnFrom ProcessingError
              ("インデックス構築エラー: " +:+ path_str source_dir +:+ " - "
               +:+ exn_str e) e), self).
Proof.
  intros Hv. split; [by eapply validate_directory_error|].
  assert (FileScanner.scan_raw_files fs source_dir recursive = inl e) as Hscan.
  { unfold FileScanner.scan_raw_files, FileScanner.scan. by rewrite Hv. }
  unfold Indexer.build_index.
  destruct (if force_rebuild then None else _) as [existing|].
  - unfold Indexer.update_index_incrementally. rewrite Hscan.
    by rewrite indexer_eta.
  - unfold Indexer._build_new_index. rewrite Hscan. by rewrite indexer_eta.
Qed.

Lemma build_index_invalid_directory_witness :
  exn_cls <$> raised (Indexer.build_index before_fs fresh_indexer some_order
                        (Path_of "/missing") true false).1
  = Some ProcessingError.
Proof.
  rewrite (proj2 (build_index_invalid_directory before_fs fresh_indexer some_order
                    (Path_of "/missing") true false _ eq_refl)).
  reflexivity.
Defined.

Lemma save_ok cache source_dir index :
  IndexCache.write_fault cache (IndexCache.get_cache_path cache source_dir) = None →
  ∃ cache',
    IndexCache.save_directory_index cache source_dir index
    = (inr (),
       RawFileIndex.mk (RawFileIndex.by_basename index) (RawFileIndex.by_datetime index)
                       (Some source_dir) (Some (IndexCache.now cache))
                       (RawFileIndex.file_count index),
       cache') ∧
    IndexCache.cache_dir cache' = IndexCache.cache_dir cache ∧
    IndexCache.md5 cache' = IndexCache.md5 cache ∧
    IndexCache.write_fault cache' = IndexCache.write_fault cache ∧
    IndexCache.now cache' = IndexCache.now cache ∧
    IndexCache.cache_files cache'
    = <[IndexCache.get_cache_path cache source_dir
        := Some (RawFileIndex.to_dict
                   (RawFileIndex.mk (RawFileIndex.by_basename index)
                      (RawFileIndex.by_datetime index) (Some source_dir)
                      (Some (IndexCache.now cache)) (RawFileIndex.file_count index)))]>
        (IndexCache.cache_files cache).
Proof.
  intros Hw. unfold IndexCache.save_directory_index. rewrite Hw.
  eexists. split; [reflexivity|].
  pose proof (update_global_index_fields
                (IndexCache.mk (IndexCache.cache_dir cache) (IndexCache.md5 cache)
                   (<[IndexCache.get_cache_path cache source_dir
                      := Some (RawFileIndex.to_dict
                                 (RawFileIndex.mk (RawFileIndex.by_basename index)
                                    (RawFileIndex.by_datetime index) (Some source_dir)
                                    (Some (IndexCache.now cache))
                                    (RawFileIndex.file_count index)))]>
                      (IndexCache.cache_files cache))
                   (IndexCache.global_index cache) (IndexCache.write_fault cache)
                   (IndexCache.now cache))
                source_dir
                (RawFileIndex.mk (RawFileIndex.by_basename index)
                   (RawFileIndex.by_datetime index) (Some source_dir)
                   (Some (IndexCache.now cache)) (RawFileIndex.file_count index))) as H.
  cbv zeta in H. simpl in H. naive_solver.
Qed.

(** X27. A forced build followed by a build without force on the same
    files: the second call finds the cached index, updates nothing and
    reads no capture time; the index it returns has the records and the
    [file_count] of the first and answers every basename query alike. *)
Theorem build_index_again (fs : FS.t) (self : Indexer.t) (nd nd' : Indexer.nondet)
    (source_dir : Path) (recursive : bool) :
  PathValidator.validate_directory fs source_dir = inr () →
  IndexCache.write_fault (Indexer.cache self)
    (IndexCache.get_cache_path (Indexer.cache self) source_dir) = None →
  let first := Indexer.build_index fs self nd source_dir recursive true in
  let second := Indexer.build_index fs first.2 nd' source_dir recursive false in
  ∃ index1 index2,
    first.1 = inr index1 ∧ second.1 = inr index2 ∧
    RawFileIndex.get_all_files index2 ≡ₚ RawFileIndex.get_all_files index1 ∧
    (∀ basename, RawFileIndex.find_by_basename index2 basename
                 = RawFileIndex.find_by_basename index1 basename) ∧
    RawFileIndex.file_count index2 = RawFileIndex.file_count index1 ∧
    Indexer.exif_reader second.2 = Indexer.exif_reader first.2.
Proof.
  intros Hv Hw. cbv zeta.
  destruct (validate_scan fs source_dir recursive Hv) as [files Hscan].
  destruct (scan_facts _ _ _ _ _ Hscan) as [Hnd Hst].
  destruct (build_new_index_count fs (Indexer.exif_reader self) nd _ _ _ Hscan)
    as (index0 & reader1 & infos & Hbuild & Hr0 & Hperm & Hcount).
  destruct (save_ok (Indexer.cache self) source_dir index0 Hw)
    as (cache1 & Hsave & Hdir & Hmd5 & Hwf & Hnow & Hfiles).
  set (stamped := RawFileIndex.mk (RawFileIndex.by_basename index0)
                    (RawFileIndex.by_datetime index0) (Some source_dir)
                    (Some (IndexCache.now (Indexer.cache self)))
                    (RawFileIndex.file_count index0)) in *.
  assert (Indexer.build_index fs self nd source_dir recursive true
          = (inr stamped, Indexer.mk reader1 cache1)) as Hfirst.
  { unfold Indexer.build_index. rewrite Hbuild, Hsave. done. }
  rewrite Hfirst. cbn [fst snd].
  assert (index_repr stamped infos) as Hrs by exact Hr0.
  assert (RawFileIndex.get_all_files stamped ≡ₚ infos) as Hall
    by (by apply index_repr_Permutation).
  destruct (reload_spec stamped infos (RawFileIndex.file_count stamped) Hrs)
    as (loaded & Hload & Hrl & _ & _ & Hlc & Hfind).
  assert (∀ d, IndexCache.get_cache_path cache1 d
               = IndexCache.get_cache_path (Indexer.cache self) d) as Hpath.
  { intros d. unfold IndexCache.get_cache_path. by rewrite Hdir, Hmd5. }
  assert (IndexCache.load_directory_index cache1 source_dir = Some loaded) as Hcached.
  { unfold IndexCache.load_directory_index.
    rewrite Hpath, Hfiles, lookup_insert_eq. exact Hload. }
  assert (Indexer.update_index_incrementally fs reader1 nd' loaded source_dir recursive
          = (inr loaded, reader1)) as Hupd.
  { apply (update_idle _ _ _ _ (RawFileIndex.get_all_files stamped) _ _ files);
      [done | | done | |].
    - rewrite Hall, Hperm. by apply omap_make_info_NoDup.
    - intros p. rewrite Hall, Hperm. by rewrite omap_make_info_all.
    - intros info Hin. rewrite Hall, Hperm in Hin.
      apply list_elem_of_omap in Hin as (p & Hp & Hmk).
      by apply make_info_Some in Hmk as (sz & Hsz & ->). }
  destruct (save_ok cache1 source_dir loaded) as (cache2 & Hsave2 & _).
  { by rewrite Hpath, Hwf. }
  assert (Indexer.build_index fs (Indexer.mk reader1 cache1) nd' source_dir recursive false
          = (inr (RawFileIndex.mk (RawFileIndex.by_basename loaded)
                    (RawFileIndex.by_datetime loaded) (Some source_dir)
                    (Some (IndexCache.now cache1)) (RawFileIndex.file_count loaded)),
             Indexer.mk reader1 cache2)) as Hsecond.
  { unfold Indexer.build_index. cbn [Indexer.cache Indexer.exif_reader].
    rewrite Hcached, Hupd, Hsave2. done. }
  rewrite Hsecond. cbn [fst snd]. eexists _, _.
  split_and!; [done | done | | | | done].
  - change (RawFileIndex.get_all_files loaded ≡ₚ RawFileIndex.get_all_files stamped).
    by apply index_repr_Permutation.
  - intros basename. exact (Hfind basename).
  - cbn [RawFileIndex.file_count]. rewrite Hlc, Hall, Hperm.
    rewrite <-(length_fmap RawFileInfo.path), omap_make_info_all by done.
    symmetry. exact Hcount.
Qed.

Lemma build_index_again_witness :
  ∃ index1 index2,
    (Indexer.build_index before_fs fresh_indexer some_order raw_dir true true).1
      = inr index1 ∧
    (Indexer.build_index before_fs
       (Indexer.build_index before_fs fresh_indexer some_order raw_dir true true).2
       given_order raw_dir true false).1 = inr index2 ∧
    RawFileIndex.get_all_files index2 ≡ₚ RawFileIndex.get_all_files index1.
Proof.
  destruct (build_index_again before_fs fresh_indexer some_order given_order raw_dir
              true eq_refl eq_refl) as (index1 & index2 & H1 & H2 & Hperm & _).
  exists index1, index2. split_and!; [exact H1 | exact H2 | exact Hperm].
Defined.

(** X28. After [clear_cache] for a directory, whose cache file can be
    unlinked, a build without force returns what a forced build returns
    with the cache as it was. *)
Theorem clear_cache_forces_rebuild (fs : FS.t) (self : Indexer.t)
    (unlink_fault : Path → option exn) (order : list nat) (nd : Indexer.nondet)
    (source_dir : Path) (recursive : bool) :
  unlink_fault (IndexCache.get_cache_path (Indexer.cache self) source_dir) = None →
  let cleared := Indexer.clear_cache self unlink_fault order (Some source_dir) in
  cleared.1 = inr () ∧
  IndexCache.load_directory_index (Indexer.cache cleared.2) source_dir = None ∧
  (Indexer.build_index fs cleared.2 nd source_dir recursive false).1
  = (Indexer.build_index fs self nd source_dir recursive true).1.
Proof.
  intros Hu. cbv zeta. unfold Indexer.clear_cache.
  set (cache := Indexer.cache self) in *.
  assert (∃ found cache',
            IndexCache.remove_directory_index cache unlink_fault source_dir
              = (found, cache') ∧
            IndexCache.cache_dir cache' = IndexCache.cache_dir cache ∧
            IndexCache.md5 cache' = IndexCache.md5 cache ∧
            IndexCache.write_fault cache' = IndexCache.write_fault cache ∧
            IndexCache.now cache' = IndexCache.now cache ∧
            IndexCache.cache_files cache'
            = delete (IndexCache.get_cache_path cache source_dir)
                     (IndexCache.cache_files cache))
    as (found & cache' & -> & Hdir & Hmd5 & Hwf & Hnow & Hfiles).
  { unfold IndexCache.remove_directory_index. rewrite Hu.
    destruct (decide (is_Some (IndexCache.cache_files cache
                                 !! IndexCache.get_cache_path cache source_dir)))
      as [Hf|Hf]; cbn [mret result_ret].
    - cbn [IndexCache.global_index IndexCache.write_fault].
      destruct (decide _); [destruct (IndexCache.write_fault _ _)|];
        eexists _, _; (split; [reflexivity|]); done.
    - apply eq_None_not_Some in Hf.
      destruct (decide _); [destruct (IndexCache.write_fault _ _)|];
        eexists _, _; (split; [reflexivity|]); simpl;
        split_and!; try done; symmetry; by apply delete_id. }
  cbn [fst snd Indexer.cache].
  assert (∀ d, IndexCache.get_cache_path cache' d = IndexCache.get_cache_path cache d)
    as Hpath.
  { intros d. unfold IndexCache.get_cache_path. by rewrite Hdir, Hmd5. }
  assert (IndexCache.load_directory_index cache' source_dir = None) as Hnone.
  { unfold IndexCache.load_directory_index.
    by rewrite Hpath, Hfiles, lookup_delete_eq. }
  split_and!; [done | done |].
  unfold Indexer.build_index. cbn [Indexer.cache Indexer.exif_reader]. rewrite Hnone.
  fold cache.
  destruct (Indexer._build_new_index fs (Indexer.exif_reader self) nd source_dir recursive)
    as [[e|updated_index] reader]; [done|].
  unfold IndexCache.save_directory_index. rewrite Hpath, Hwf, Hnow.
  destruct (IndexCache.write_fault cache (IndexCache.get_cache_path cache source_dir));
    done.
Qed.

Lemma clear_cache_forces_rebuild_witness :
  (Indexer.build_index before_fs
     (Indexer.clear_cache fresh_indexer (λ _, None) [] (Some raw_dir)).2
     some_order raw_dir true false).1
  = (Indexer.build_index before_fs fresh_indexer some_order raw_dir true true).1.
Proof.
  exact (proj2 (proj2 (clear_cache_forces_rebuild before_fs fresh_indexer (λ _, None) []
                         some_order raw_dir true eq_refl))).
Defined.

(** ** [MatchManager]: the merged index and the report *)

Lemma add_loop infos index :
  foldl (λ global_index raw_info, RawFileIndex.add raw_info global_index) index infos
  = run (Add <$> infos) index.
Proof.
  revert index. induction infos as [|i infos IH]; intros index; [done|].
  simpl. by rewrite IH.
Qed.

Lemma get_source_directories_from source_filter (directories : list (Path * datetime * Z))
    source_dirs :
  foldl (λ source_dirs '(source_dir, _, _),
           if MatchManager.filtered_out source_filter source_dir then source_dirs
           else source_dirs ++ [source_dir])
        source_dirs directories
  = source_dirs
    ++ filter (λ d, MatchManager.filtered_out source_filter d = false)
              (directories.*1.*1).
Proof.
  revert source_dirs.
  induction directories as [|[[d dt] n] directories IH]; intros source_dirs.
  - simpl. by rewrite filter_nil, app_nil_r.
  - cbn [foldl]. rewrite IH. rewrite !fmap_cons. cbn [fst]. rewrite filter_cons.
    destruct (MatchManager.filtered_out source_filter d).
    + by rewrite decide_False by done.
    + rewrite decide_True by done. by rewrite <-(assoc_L (++)).
Qed.

Lemma load_global_index_from (cache : IndexCache.t) source_filter
    (directories : list (Path * datetime * Z)) index :
  foldl (λ global_index '(source_dir, _, _),
           if MatchManager.filtered_out source_filter source_dir then global_index
           else
             match IndexCache.load_directory_index cache source_dir with
             | Some dir_index =>
                 foldl (λ global_index raw_info,
                          RawFileIndex.add raw_info global_index)
                       global_index (RawFileIndex.get_all_files dir_index)
             | None => global_index
             end)
        index directories
  = run (Add <$> concat (cached_records cache
                           <$> filter (λ d, MatchManager.filtered_out source_filter d
                                            = false)
                                      (directories.*1.*1)))
        index.
Proof.
  revert index. induction directories as [|[[d dt] n] directories IH]; intros index.
  - done.
  - cbn [foldl]. rewrite IH. rewrite !fmap_cons. cbn [fst]. rewrite filter_cons.
    destruct (MatchManager.filtered_out source_filter d).
    + by rewrite decide_False by done.
    + rewrite decide_True by done. rewrite fmap_cons. cbn [concat].
      rewrite fmap_app, run_app. f_equal. unfold cached_records.
      destruct (IndexCache.load_directory_index cache d); [|done].
      by rewrite add_loop.
Qed.

(** X29. The index [_load_global_index] merges holds the records of the
    cached indexes of the directories [_get_source_directories] lists, one
    directory after the other in that order: its [file_count] is the number
    of those records, a record cached for two directories being counted
    twice, and a basename query answers them in that order. The listed
    directories are those of [list_indexed_directories] that pass the
    filter. *)
Theorem load_global_index_merges (self : MatchManager.t) (order : list nat)
    (source_filter : option string) :
  let source_dirs := MatchManager._get_source_directories self order source_filter in
  let records := concat (cached_records (MatchManager.cache self) <$> source_dirs) in
  let global_index := MatchManager._load_global_index self order source_filter in
  source_dirs
  = filter (λ d, Py.truthy source_filter = None ∨
                 Py.truthy source_filter = Some (path_str d))
      ((IndexCache.list_indexed_directories (MatchManager.cache self) order).*1.*1) ∧
  RawFileIndex.file_count global_index = Z.of_nat (length records) ∧
  RawFileIndex.get_all_files global_index ≡ₚ records ∧
  ∀ basename,
    RawFileIndex.find_by_basename global_index basename
    = filter (λ info, RawFileInfo.basename info = Py.lower basename) records.
Proof.
  cbv zeta. unfold MatchManager._get_source_directories, MatchManager._load_global_index.
  rewrite get_source_directories_from, load_global_index_from.
  rewrite app_nil_l.
  set (records := concat (cached_records _ <$> _)).
  assert (index_repr (run (Add <$> records) RawFileIndex.init) records) as Hr.
  { rewrite <-(live_adds [] records) at 2. apply run_repr. }
  split_and!.
  - apply list_filter_iff. intros d. unfold MatchManager.filtered_out.
    destruct (Py.truthy source_filter) as [s|]; [|naive_solver].
    split.
    + intros Hb. right. apply bool_decide_eq_false in Hb.
      f_equal. symmetry. by apply dec_stable.
    + intros [?|[= ->]]; [done|]. apply bool_decide_eq_false. naive_solver.
  - by rewrite add_all_file_count.
  - by apply index_repr_Permutation.
  - intros basename. by apply find_by_basename_repr.
Qed.

Lemma copy_loop_nonneg target_dir matches a fs :
  let a' := (foldl (Copier.copy_step target_dir) (a, fs) matches).1 in
  Copier.success_count a ≤ Copier.success_count a' ∧
  Copier.skipped_count a ≤ Copier.skipped_count a' ∧
  Copier.failed_count a ≤ Copier.failed_count a'.
Proof.
  cbv zeta. revert a fs. induction matches as [|m matches IH]; intros a fs.
  - simpl. lia.
  - cbn [foldl].
    pose proof (copy_step_one target_dir a fs m) as Hone. cbv zeta in Hone.
    destruct (Copier.copy_step target_dir (a, fs) m) as [a1 fs1].
    specialize (IH a1 fs1). simpl in Hone. lia.
Qed.

(** What [copy_files] reports and leaves, in the terms of the report. *)
Lemma copy_files_report fs matches target_dir :
  let copy_result := (Copier.copy_files fs matches target_dir).1 in
  let fs' := (Copier.copy_files fs matches target_dir).2 in
  CopyResult.success copy_result + CopyResult.skipped copy_result
    + CopyResult.failed copy_result = Z.of_nat (length matches) ∧
  0 ≤ CopyResult.success copy_result ∧ 0 ≤ CopyResult.skipped copy_result ∧
  0 ≤ CopyResult.failed copy_result ∧
  (∀ p f, FS.files fs !! p = Some f → FS.files fs' !! p = Some f) ∧
  Z.of_nat (size (FS.files fs'))
    = Z.of_nat (size (FS.files fs)) + CopyResult.success copy_result.
Proof.
  cbv zeta. unfold Copier.copy_files.
  destruct (FS.mkdir fs target_dir) as [e|fs1] eqn:Hmk.
  - simpl. split_and!; try done; lia.
  - apply mkdir_ok in Hmk as (_ & _ & ->).
    set (fs1 := FS.mk _ _ _ _ _ _).
    pose proof (copy_loop_inv target_dir matches (Copier.Acc 0 0 0 []) fs1) as Hinv.
    pose proof (copy_loop_total target_dir matches (Copier.Acc 0 0 0 []) fs1) as Htot.
    pose proof (copy_loop_nonneg target_dir matches (Copier.Acc 0 0 0 []) fs1) as Hpos.
    cbv zeta in Hinv, Htot, Hpos.
    destruct (foldl (Copier.copy_step target_dir) _ matches) as [a fs2].
    cbn [fst snd] in *. destruct Hinv as ((Hsub & _) & Hsize & _).
    simpl in *. split_and!; try lia.
    intros p f Hf. by eapply lookup_weaken.
Qed.

(** X30. [find_and_copy_matches] changes no file that is there and leaves
    the cache as it is. Without an indexed directory it returns before it
    looks at the target directory. When it gets to its report, there was a
    match: the numbers of files copied, skipped and failed add up to the
    number of matches, which is at most the number of JPEG files; the RAW
    count is the [file_count] of the merged index; and the file system has
    as many new files as were copied. Otherwise the file system is as it
    was. *)
Theorem find_and_copy_matches_report (fs : FS.t) (self : MatchManager.t)
    (order : list nat) (target_dir : Path) (recursive : bool)
    (source_filter : option string) :
  let outcome :=
    MatchManager.find_and_copy_matches fs self order target_dir recursive
      source_filter in
  let answer := outcome.1.1 in
  let fs' := outcome.1.2 in
  let self' := outcome.2 in
  MatchManager.cache self' = MatchManager.cache self ∧
  (∀ p f, FS.files fs !! p = Some f → FS.files fs' !! p = Some f) ∧
  (IndexCache.list_indexed_directories (MatchManager.cache self) order = [] →
   answer = inr None ∧ self' = self) ∧
  match answer with
  | inr (Some stats) =>
      ProcessingStats.files_copied stats + ProcessingStats.files_skipped stats
        + ProcessingStats.files_failed stats = ProcessingStats.matches_found stats ∧
      0 ≤ ProcessingStats.files_copied stats ∧
      0 ≤ ProcessingStats.files_skipped stats ∧
      0 ≤ ProcessingStats.files_failed stats ∧
      0 < ProcessingStats.matches_found stats
        ≤ ProcessingStats.jpeg_files_found stats ∧
      ProcessingStats.raw_files_found stats
        = RawFileIndex.file_count
            (MatchManager._load_global_index self order source_filter) ∧
      Z.of_nat (size (FS.files fs'))
        = Z.of_nat (size (FS.files fs)) + ProcessingStats.files_copied stats
  | _ => fs' = fs
  end.
Proof.
  cbv zeta. unfold MatchManager.find_and_copy_matches.
  destruct (MatchManager._check_index_availability self order source_filter) eqn:Hav;
    cbn [negb].
  2:{ simpl. split_and!; done. }
  assert (IndexCache.list_indexed_directories (MatchManager.cache self) order ≠ [])
    as Hne.
  { intros Hnil. unfold MatchManager._check_index_availability in Hav.
    by rewrite Hnil in Hav. }
  destruct (FileScanner.scan_jpeg_files fs target_dir recursive)
    as [e|[|jpeg_file jpeg_files]]; [simpl; split_and!; done..|].
  rewrite match_each_loop. rewrite app_nil_l.
  pose proof (find_matches_omap fs (MatchManager.exif_reader self)
                (MatchManager._load_global_index self order source_filter)
                (jpeg_file :: jpeg_files)) as Hm.
  destruct (Matcher.find_matches fs (MatchManager.exif_reader self) _
              (jpeg_file :: jpeg_files)) as [matches reader].
  cbn [fst snd] in *.
  assert (length matches ≤ length (jpeg_file :: jpeg_files))%nat as Hle
    by (rewrite Hm; apply omap_length_le).
  clear Hm. destruct matches as [|m matches]; [simpl; split_and!; done|].
  pose proof (copy_files_report fs (m :: matches) target_dir) as Hc. cbv zeta in Hc.
  destruct (Copier.copy_files fs (m :: matches) target_dir) as [copy_result fs'].
  cbn [fst snd] in *. destruct Hc as (Hsum & H1 & H2 & H3 & Hkeep & Hsize).
  simpl in *. split_and!; try done; lia.
Qed.
